(** * Teleoperation transports: socket client, socket server and serial line

    A shallow embedding of [teleop_interface.py], [socket_teleop.py] and
    [serial_teleop.py].  Python objects become records, methods become
    computations in a small state-and-exception monad that also records the
    calls made to the operating system and to the logger, and the outcome of
    every external call (a socket, a serial handle, the port enumerator) is
    supplied by an environment record, one field per call.

    The wire format is JSON as produced by [json.dumps] and read back by
    [json.loads]; both are modelled after CPython's [json.encoder] and
    [json.decoder] over code-point strings, together with the UTF-8 codec.
    What the interpreter decides, the float conversions and the limits on
    recursion depth and integer digits, is taken as an interface. *)

From Stdlib Require Import List Bool Arith ZArith NArith QArith Lia.
From Stdlib Require Import Ascii String.
From Stdlib Require Decimal DecimalPos.
From Stdlib.Strings Require Import Byte.
Import ListNotations.
Close Scope Q_scope.

Set Implicit Arguments.

(** ** Python values the transports handle *)

Module Py.

(** Exceptions that the modelled code raises or catches.  Every one of them is
    an instance of [Exception]; [JSONDecodeError], [UnicodeDecodeError] and
    [UnicodeEncodeError] are subclasses of [ValueError], [SocketTimeout]
    (socket.timeout) of [OSError], [RecursionError] of [RuntimeError]. *)
Inductive exn : Type :=
| ValueError
| TypeError
| NameError
| AttributeError
| ImportError
| OSError
| SocketTimeout
| SerialException
| JSONDecodeError
| UnicodeDecodeError
| UnicodeEncodeError
| RecursionError.

Inductive outcome (A : Type) : Type :=
| Ok (a : A)
| Raise (e : exn).
Arguments Ok {A} a.
Arguments Raise {A} e.

(** A [str] is a sequence of code points, a [bytes] a sequence of bytes. *)
Definition pystr : Type := list N.
Definition bytes : Type := list byte.

Definition str (s : string) : pystr := map N_of_ascii (list_ascii_of_string s).

Definition pystr_eqb (a b : pystr) : bool :=
  if list_eq_dec N.eq_dec a b then true else false.

Fixpoint startswith (p s : pystr) : bool :=
  match p, s with
  | [], _ => true
  | x :: p', y :: s' => (x =? y)%N && startswith p' s'
  | _ :: _, [] => false
  end.

(** [span p s]: the longest prefix of [s] whose elements satisfy [p], and
    what follows it. *)
Fixpoint span (p : N -> bool) (s : pystr) : pystr * pystr :=
  match s with
  | c :: s' => if p c then let (a, b) := span p s' in (c :: a, b) else ([], s)
  | [] => ([], [])
  end.

Definition byte_of (n : N) : byte :=
  match Byte.of_N n with Some b => b | None => x00 end.

Definition is_surrogate (c : N) : bool := ((0xD800 <=? c) && (c <=? 0xDFFF))%N.

(** [str.encode('utf-8')]: [None] stands for UnicodeEncodeError (a surrogate
    code point). *)
Definition utf8_encode_char (c : N) : option bytes :=
  (if c <? 0x80 then Some [byte_of c]
   else if c <? 0x800 then
     Some [byte_of (N.lor 0xC0 (N.shiftr c 6));
           byte_of (N.lor 0x80 (N.land c 0x3F))]
   else if c <? 0x10000 then
     if is_surrogate c then None
     else Some [byte_of (N.lor 0xE0 (N.shiftr c 12));
                byte_of (N.lor 0x80 (N.land (N.shiftr c 6) 0x3F));
                byte_of (N.lor 0x80 (N.land c 0x3F))]
   else if c <? 0x110000 then
     Some [byte_of (N.lor 0xF0 (N.shiftr c 18));
           byte_of (N.lor 0x80 (N.land (N.shiftr c 12) 0x3F));
           byte_of (N.lor 0x80 (N.land (N.shiftr c 6) 0x3F));
           byte_of (N.lor 0x80 (N.land c 0x3F))]
   else None)%N.

Fixpoint utf8_encode (s : pystr) : option bytes :=
  match s with
  | [] => Some []
  | c :: s' =>
    match utf8_encode_char c, utf8_encode s' with
    | Some b, Some bs => Some (b ++ bs)
    | _, _ => None
    end
  end.

Definition is_cont (b : N) : bool := ((0x80 <=? b) && (b <=? 0xBF))%N.
Definition cont_bits (b : N) : N := N.land b 0x3F.

(** [bytes.decode('utf-8')] in strict mode: [None] stands for
    UnicodeDecodeError (a stray or missing continuation byte, an overlong
    form, an encoded surrogate, a value above U+10FFFF). *)
Fixpoint utf8_decode (bs : bytes) : option pystr :=
  match bs with
  | [] => Some []
  | b0 :: r0 =>
    let n0 := Byte.to_N b0 in
    (if n0 <? 0x80 then option_map (cons n0) (utf8_decode r0)
     else if (0xC2 <=? n0) && (n0 <=? 0xDF) then
       match r0 with
       | b1 :: r1 =>
         let n1 := Byte.to_N b1 in
         if is_cont n1
         then option_map (cons (N.lor (N.shiftl (N.land n0 0x1F) 6) (cont_bits n1)))
                         (utf8_decode r1)
         else None
       | _ => None
       end
     else if (0xE0 <=? n0) && (n0 <=? 0xEF) then
       match r0 with
       | b1 :: b2 :: r2 =>
         let n1 := Byte.to_N b1 in
         let n2 := Byte.to_N b2 in
         let c := N.lor (N.shiftl (N.land n0 0x0F) 12)
                        (N.lor (N.shiftl (cont_bits n1) 6) (cont_bits n2)) in
         if is_cont n1 && is_cont n2 && (0x800 <=? c) && negb (is_surrogate c)
         then option_map (cons c) (utf8_decode r2)
         else None
       | _ => None
       end
     else if (0xF0 <=? n0) && (n0 <=? 0xF4) then
       match r0 with
       | b1 :: b2 :: b3 :: r3 =>
         let n1 := Byte.to_N b1 in
         let n2 := Byte.to_N b2 in
         let n3 := Byte.to_N b3 in
         let c := N.lor (N.shiftl (N.land n0 0x07) 18)
                        (N.lor (N.shiftl (cont_bits n1) 12)
                               (N.lor (N.shiftl (cont_bits n2) 6) (cont_bits n3))) in
         if is_cont n1 && is_cont n2 && is_cont n3 && (0x10000 <=? c) && (c <? 0x110000)
         then option_map (cons c) (utf8_decode r3)
         else None
       | _ => None
       end
     else None)%N
  end.

(** [str.isspace] on one code point, and [str.strip()]. *)
Definition isspace (c : N) : bool :=
  (((0x09 <=? c) && (c <=? 0x0D)) || ((0x1C <=? c) && (c <=? 0x20))
   || (c =? 0x85) || (c =? 0xA0) || (c =? 0x1680)
   || ((0x2000 <=? c) && (c <=? 0x200A))
   || (c =? 0x2028) || (c =? 0x2029) || (c =? 0x202F) || (c =? 0x205F)
   || (c =? 0x3000))%N.

Fixpoint lstrip (s : pystr) : pystr :=
  match s with
  | c :: s' => if isspace c then lstrip s' else s
  | [] => []
  end.

Definition rstrip (s : pystr) : pystr := List.rev (lstrip (List.rev s)).
Definition strip (s : pystr) : pystr := rstrip (lstrip s).

(** [str.upper()] on the ASCII letters, which is all a protocol name that
    upper-cases to TCP or UDP can consist of. *)
Definition upper_ascii (a : ascii) : ascii :=
  let n := N_of_ascii a in
  if ((97 <=? n) && (n <=? 122))%N then ascii_of_N (n - 32) else a.

Fixpoint upper (s : string) : string :=
  match s with
  | EmptyString => EmptyString
  | String a s' => String (upper_ascii a) (upper s')
  end.

End Py.

(** ** JSON: [json.dumps] and [json.loads] *)

Module Json.
Import Py.

Local Open Scope N_scope.

(** *** Numbers *)

Definition is_digit (c : N) : bool := (48 <=? c) && (c <=? 57).
Definition is_digit19 (c : N) : bool := (49 <=? c) && (c <=? 57).
Definition nonempty (s : pystr) : bool := match s with [] => false | _ => true end.

(** NUMBER_RE matched at the head of [s].  Its three groups are the integer
    (an optional minus sign, then a single 0 or a digit 1-9 followed by
    digits), the optional fraction (a dot and one or more digits) and the
    optional exponent (e or E, an optional sign, one or more digits); an
    absent group is empty.  The match is greedy. *)
Definition match_frac (s : pystr) : pystr * pystr :=
  match s with
  | c :: r =>
    if c =? 46 then
      let (ds, r') := span is_digit r in
      if nonempty ds then (c :: ds, r') else ([], s)
    else ([], s)
  | [] => ([], s)
  end.

Definition match_exp (s : pystr) : pystr * pystr :=
  match s with
  | e :: r =>
    if (e =? 101) || (e =? 69) then
      let (sign, r1) :=
        match r with
        | g :: r' => if (g =? 45) || (g =? 43) then ([g], r') else ([], r)
        | [] => ([], r)
        end in
      let (ds, r2) := span is_digit r1 in
      if nonempty ds then (e :: sign ++ ds, r2) else ([], s)
    else ([], s)
  | [] => ([], s)
  end.

Definition match_integer (s : pystr) : option (pystr * pystr) :=
  let (sign, s1) :=
    match s with
    | c :: r => if c =? 45 then ([c], r) else ([], s)
    | [] => ([], s)
    end in
  match s1 with
  | d :: s2 =>
    if d =? 48 then Some (sign ++ [d], s2)
    else if is_digit19 d then
      let (ds, s3) := span is_digit s2 in Some (sign ++ d :: ds, s3)
    else None
  | [] => None
  end.

Definition match_number (s : pystr) : option (pystr * pystr * pystr * pystr) :=
  match match_integer s with
  | Some (integer, r) =>
    let (frac, r1) := match_frac r in
    let (exp, r2) := match_exp r1 in
    Some (integer, frac, exp, r2)
  | None => None
  end.

(** Decimal digits, for [int.__repr__] and [int(text)]. *)
Fixpoint digits_of_uint (d : Decimal.uint) : pystr :=
  match d with
  | Decimal.Nil => []
  | Decimal.D0 d' => 48 :: digits_of_uint d'
  | Decimal.D1 d' => 49 :: digits_of_uint d'
  | Decimal.D2 d' => 50 :: digits_of_uint d'
  | Decimal.D3 d' => 51 :: digits_of_uint d'
  | Decimal.D4 d' => 52 :: digits_of_uint d'
  | Decimal.D5 d' => 53 :: digits_of_uint d'
  | Decimal.D6 d' => 54 :: digits_of_uint d'
  | Decimal.D7 d' => 55 :: digits_of_uint d'
  | Decimal.D8 d' => 56 :: digits_of_uint d'
  | Decimal.D9 d' => 57 :: digits_of_uint d'
  end.

Fixpoint uint_of_digits (s : pystr) : Decimal.uint :=
  match s with
  | [] => Decimal.Nil
  | c :: r =>
    let d := uint_of_digits r in
    if c =? 48 then Decimal.D0 d else if c =? 49 then Decimal.D1 d
    else if c =? 50 then Decimal.D2 d else if c =? 51 then Decimal.D3 d
    else if c =? 52 then Decimal.D4 d else if c =? 53 then Decimal.D5 d
    else if c =? 54 then Decimal.D6 d else if c =? 55 then Decimal.D7 d
    else if c =? 56 then Decimal.D8 d else Decimal.D9 d
  end.

(** [int.__repr__] *)
Definition int_repr (z : Z) : pystr :=
  match z with
  | Z0 => [48]
  | Zpos p => digits_of_uint (Pos.to_uint p)
  | Zneg p => 45 :: digits_of_uint (Pos.to_uint p)
  end.

(** [int(text)] on a text matched by the first group of NUMBER_RE. *)
Definition parse_int (s : pystr) : Z :=
  match s with
  | c :: r =>
    if c =? 45 then Z.opp (Z.of_N (N.of_uint (uint_of_digits r)))
    else Z.of_N (N.of_uint (uint_of_digits s))
  | [] => 0%Z
  end.

(** *** Floats

    A Python float is an IEEE binary64 value; its shortest-digits [repr], the
    [float(text)] conversion and [==] are the interpreter's and are taken as
    an interface. *)
Class PyFloat : Type := {
  float : Type;
  float_repr : float -> pystr;
  float_of_str : pystr -> float;
  float_eqb : float -> float -> bool
}.

(** *** Limits of the interpreter

    [int.__repr__] and [int(text)] refuse, with a ValueError, more decimal
    digits than [sys.get_int_max_str_digits()] allows: 4300 unless it is
    changed, and 0 lifts the limit.  The encoder and the scanner make a
    recursive call for every list and mapping they enter, which fails with a
    RecursionError at the interpreter's recursion limit.  How many containers
    can then be nested depends on that limit and on how deep the caller
    already is; it is taken as an interface, one number for [json.dumps] and
    one for [json.loads]. *)
Class PyLimits : Type := {
  int_max_str_digits : N;
  encoder_depth : nat;
  scanner_depth : nat
}.

Section Limits.
Context {PL : PyLimits}.

(** The digits of the decimal text of an integer, its sign apart. *)
Definition int_digits (text : pystr) : nat :=
  match text with
  | c :: r => if c =? 45 then List.length r else List.length text
  | [] => 0
  end.

(** The test the two conversions make on the number of digits. *)
Definition exceeds_limit (text : pystr) : bool :=
  (0 <? int_max_str_digits) && (int_max_str_digits <? N.of_nat (int_digits text)).

(** [int.__repr__] and [int(text)] as they raise. *)
Definition int_to_str (z : Z) : outcome pystr :=
  if exceeds_limit (int_repr z) then Raise ValueError else Ok (int_repr z).

Definition int_of_str (text : pystr) : outcome Z :=
  if exceeds_limit text then Raise ValueError else Ok (parse_int text).

End Limits.

(** Results computed one after the other, up to the first that raises. *)
Section Each.
Variables (A B : Type) (f : A -> outcome B).

Fixpoint each (l : list A) : outcome (list B) :=
  match l with
  | [] => Ok []
  | x :: r =>
    match f x with
    | Ok y =>
      match each r with
      | Ok ys => Ok (y :: ys)
      | Raise e => Raise e
      end
    | Raise e => Raise e
    end
  end.

End Each.

(** *** Strings *)

Definition hexdigit (d : N) : N := if d <? 10 then 48 + d else 87 + d.

Definition unhex (c : N) : option N :=
  if (48 <=? c) && (c <=? 57) then Some (c - 48)
  else if (97 <=? c) && (c <=? 102) then Some (c - 87)
  else if (65 <=? c) && (c <=? 70) then Some (c - 55)
  else None.

(** ['{0:04x}'.format(n)] for [n < 0x10000]. *)
Definition hex4 (n : N) : pystr :=
  [hexdigit (N.land (N.shiftr n 12) 15); hexdigit (N.land (N.shiftr n 8) 15);
   hexdigit (N.land (N.shiftr n 4) 15); hexdigit (N.land n 15)].

(** [_decode_uXXXX]: four hexadecimal digits, [int(text, 16)]. *)
Definition decode_uXXXX (h1 h2 h3 h4 : N) : option N :=
  match unhex h1, unhex h2, unhex h3, unhex h4 with
  | Some a, Some b, Some c, Some d => Some (((a * 16 + b) * 16 + c) * 16 + d)
  | _, _, _, _ => None
  end.

(** The replacement [py_encode_basestring_ascii] makes for one code point:
    ESCAPE_ASCII matches a backslash, a quote and everything outside
    [' '..'~']. *)
Definition escape_char (c : N) : pystr :=
  if c =? 92 then [92; 92]
  else if c =? 34 then [92; 34]
  else if c =? 8 then [92; 98]
  else if c =? 12 then [92; 102]
  else if c =? 10 then [92; 110]
  else if c =? 13 then [92; 114]
  else if c =? 9 then [92; 116]
  else if (32 <=? c) && (c <=? 126) then [c]
  else if c <? 0x10000 then 92 :: 117 :: hex4 c
  else
    let n := c - 0x10000 in
    let s1 := N.lor 0xd800 (N.land (N.shiftr n 10) 0x3ff) in
    let s2 := N.lor 0xdc00 (N.land n 0x3ff) in
    (92 :: 117 :: hex4 s1) ++ (92 :: 117 :: hex4 s2).

Definition encode_basestring_ascii (s : pystr) : pystr :=
  34 :: flat_map escape_char s ++ [34].

(** The BACKSLASH table of the decoder. *)
Definition backslash (esc : N) : option N :=
  if esc =? 34 then Some 34
  else if esc =? 92 then Some 92
  else if esc =? 47 then Some 47
  else if esc =? 98 then Some 8
  else if esc =? 102 then Some 12
  else if esc =? 110 then Some 10
  else if esc =? 114 then Some 13
  else if esc =? 116 then Some 9
  else None.

Definition is_high_surrogate (c : N) : bool := (0xd800 <=? c) && (c <=? 0xdbff).
Definition is_low_surrogate (c : N) : bool := (0xdc00 <=? c) && (c <=? 0xdfff).

Definition prepend (c : N) (r : option (pystr * pystr)) : option (pystr * pystr) :=
  match r with
  | Some (t, rest) => Some (c :: t, rest)
  | None => None
  end.

(** [py_scanstring] in strict mode, started after the opening quote: the
    decoded string and the text after the closing quote; [None] stands for
    JSONDecodeError. *)
Fixpoint scanstring (s : pystr) : option (pystr * pystr) :=
  match s with
  | [] => None
  | c :: s1 =>
    if c =? 34 then Some ([], s1)
    else if c =? 92 then
      match s1 with
      | [] => None
      | esc :: s2 =>
        if esc =? 117 then
          match s2 with
          | h1 :: h2 :: h3 :: h4 :: s6 =>
            match decode_uXXXX h1 h2 h3 h4 with
            | None => None
            | Some uni =>
              if is_high_surrogate uni then
                match s6 with
                | b :: u :: g1 :: g2 :: g3 :: g4 :: s12 =>
                  if (b =? 92) && (u =? 117) then
                    match decode_uXXXX g1 g2 g3 g4 with
                    | None => None
                    | Some uni2 =>
                      if is_low_surrogate uni2
                      then prepend (0x10000 + N.lor (N.shiftl (uni - 0xd800) 10) (uni2 - 0xdc00))
                                   (scanstring s12)
                      else prepend uni (scanstring s6)
                    end
                  else prepend uni (scanstring s6)
                | _ => prepend uni (scanstring s6)
                end
              else prepend uni (scanstring s6)
            end
          | _ => None
          end
        else
          match backslash esc with
          | Some ch => prepend ch (scanstring s2)
          | None => None
          end
      end
    else if c <? 32 then None
    else prepend c (scanstring s1)
  end.

(** *** Values *)

Section Values.
Context {PF : PyFloat}.

Unset Elimination Schemes.
Inductive value : Type :=
| VNull
| VBool (b : bool)
| VInt (z : Z)
| VFloat (f : float)
| VStr (s : pystr)
| VList (l : list value)
| VDict (d : list (pystr * value)).
Set Elimination Schemes.

(** A [dict] with [str] keys, in insertion order. *)
Definition pydict : Type := list (pystr * value).

(** [d[k] = v] *)
Fixpoint dict_set (d : pydict) (k : pystr) (v : value) : pydict :=
  match d with
  | [] => [(k, v)]
  | (k', v') :: d' =>
    if pystr_eqb k' k then (k', v) :: d' else (k', v') :: dict_set d' k v
  end.

(** [dict(pairs)] *)
Definition dict_of_pairs (pairs : list (pystr * value)) : pydict :=
  fold_left (fun d kv => dict_set d (fst kv) (snd kv)) pairs [].

(** [floatstr] of the encoder, with [allow_nan] at its default. *)
Definition floatstr (o : float) : pystr :=
  if negb (float_eqb o o) then str "NaN"
  else if float_eqb o (float_of_str (str "inf")) then str "Infinity"
  else if float_eqb o (float_of_str (str "-inf")) then str "-Infinity"
  else float_repr o.

(** Items joined by the item separator [", "]. *)
Definition join_items (A : Type) (f : A -> pystr) (l : list A) : pystr :=
  match l with
  | [] => []
  | x :: r => f x ++ flat_map (fun y => 44 :: 32 :: f y) r
  end.

(** The text [json.dumps] returns, with its default arguments
    ([ensure_ascii], separators [", "] and [": "], no indentation), when the
    limits of the interpreter let it return; [encoder_listencode_obj] below
    is the call with those limits. *)
Fixpoint dumps (v : value) : pystr :=
  match v with
  | VNull => str "null"
  | VBool true => str "true"
  | VBool false => str "false"
  | VInt z => int_repr z
  | VFloat f => floatstr f
  | VStr s => encode_basestring_ascii s
  | VList l => 91 :: join_items dumps l ++ [93]
  | VDict d =>
    123 :: join_items (fun kv => encode_basestring_ascii (fst kv) ++ 58 :: 32 :: dumps (snd kv)) d
        ++ [125]
  end.

Definition is_ws (c : N) : bool := (c =? 32) || (c =? 9) || (c =? 10) || (c =? 13).

(** [WHITESPACE.match(s, end).end()] *)
Definition skip_ws (s : pystr) : pystr := snd (span is_ws s).

(** The scanner ([py_make_scanner]'s [_scan_once]) with [JSONArray] and
    [JSONObject] of the decoder, as the grammar they read: what the scanner
    returns when no limit of the interpreter stops it; [scan_once_unicode]
    below is the scanner with those limits.  Each call spends one unit of
    [fuel]; [None] stands for JSONDecodeError (or exhausted fuel). *)
Fixpoint scan_once (fuel : nat) (s : pystr) {struct fuel} : option (value * pystr) :=
  match fuel with
  | O => None
  | S n =>
    match s with
    | [] => None
    | c :: s' =>
      if c =? 34 then
        match scanstring s' with
        | Some (t, r) => Some (VStr t, r)
        | None => None
        end
      else if c =? 123 then
        match JSONObject n s' with
        | Some (pairs, r) => Some (VDict (dict_of_pairs pairs), r)
        | None => None
        end
      else if c =? 91 then
        match JSONArray n s' with
        | Some (values, r) => Some (VList values, r)
        | None => None
        end
      else if startswith (str "null") s then Some (VNull, skipn 4 s)
      else if startswith (str "true") s then Some (VBool true, skipn 4 s)
      else if startswith (str "false") s then Some (VBool false, skipn 5 s)
      else
        match match_number s with
        | Some (integer, frac, exp, r) =>
          if nonempty frac || nonempty exp
          then Some (VFloat (float_of_str (integer ++ frac ++ exp)), r)
          else Some (VInt (parse_int integer), r)
        | None =>
          if startswith (str "NaN") s
          then Some (VFloat (float_of_str (str "nan")), skipn 3 s)
          else if startswith (str "Infinity") s
          then Some (VFloat (float_of_str (str "inf")), skipn 8 s)
          else if startswith (str "-Infinity") s
          then Some (VFloat (float_of_str (str "-inf")), skipn 9 s)
          else None
        end
    end
  end

with JSONArray (fuel : nat) (s : pystr) {struct fuel} : option (list value * pystr) :=
  match fuel with
  | O => None
  | S n =>
    match skip_ws s with
    | [] => None
    | c :: r => if c =? 93 then Some ([], r) else array_loop n (c :: r)
    end
  end

with array_loop (fuel : nat) (s : pystr) {struct fuel} : option (list value * pystr) :=
  match fuel with
  | O => None
  | S n =>
    match scan_once n s with
    | None => None
    | Some (v, r) =>
      match skip_ws r with
      | [] => None
      | c :: r1 =>
        if c =? 93 then Some ([v], r1)
        else if c =? 44 then
          match array_loop n (skip_ws r1) with
          | Some (values, r2) => Some (v :: values, r2)
          | None => None
          end
        else None
      end
    end
  end

with JSONObject (fuel : nat) (s : pystr) {struct fuel} : option (list (pystr * value) * pystr) :=
  match fuel with
  | O => None
  | S n =>
    match skip_ws s with
    | [] => None
    | c :: r =>
      if c =? 125 then Some ([], r)
      else if c =? 34 then object_loop n r
      else None
    end
  end

with object_loop (fuel : nat) (s : pystr) {struct fuel} : option (list (pystr * value) * pystr) :=
  match fuel with
  | O => None
  | S n =>
    match scanstring s with
    | None => None
    | Some (key, r) =>
      match skip_ws r with
      | [] => None
      | c :: r1 =>
        if c =? 58 then
          match scan_once n (skip_ws r1) with
          | None => None
          | Some (v, r2) =>
            match skip_ws r2 with
            | [] => None
            | c2 :: r3 =>
              if c2 =? 125 then Some ([(key, v)], r3)
              else if c2 =? 44 then
                match skip_ws r3 with
                | [] => None
                | q :: r4 =>
                  if q =? 34 then
                    match object_loop n r4 with
                    | Some (pairs, r5) => Some ((key, v) :: pairs, r5)
                    | None => None
                    end
                  else None
                end
              else None
            end
          end
        else None
      end
    end
  end.

(** The document a [str] holds, by that grammar: a leading byte-order mark
    is refused, white space around the document is skipped and nothing else
    may follow it.  The fuel handed to the scanner grows with the text. *)
Definition loads (s : pystr) : option value :=
  if startswith [0xFEFF] s then None
  else
    match scan_once (2 * List.length s + 2) (skip_ws s) with
    | Some (v, r) =>
      match skip_ws r with
      | [] => Some v
      | _ :: _ => None
      end
    | None => None
    end.

(** *** The codec as the interpreter runs it *)

Context {PL : PyLimits}.

(** [encoder_listencode_obj] of the C encoder, which [json.dumps] runs: the
    text of [dumps], built item by item.  Every list and mapping is entered
    by a recursive call, [depth] of which can be nested, and an integer is
    written by [int.__repr__]. *)
Fixpoint encoder_listencode_obj (depth : nat) (obj : value) {struct obj} : outcome pystr :=
  match obj with
  | VInt z => int_to_str z
  | VList l =>
    match depth with
    | O => Raise RecursionError
    | S d =>
      match each (encoder_listencode_obj d) l with
      | Ok items => Ok (91 :: join_items (fun t => t) items ++ [93])
      | Raise e => Raise e
      end
    end
  | VDict m =>
    match depth with
    | O => Raise RecursionError
    | S d =>
      match each (fun kv =>
                    match encoder_listencode_obj d (snd kv) with
                    | Ok t => Ok (encode_basestring_ascii (fst kv) ++ 58 :: 32 :: t)
                    | Raise e => Raise e
                    end) m with
      | Ok items => Ok (123 :: join_items (fun t => t) items ++ [125])
      | Raise e => Raise e
      end
    end
  | _ => Ok (dumps obj)
  end.

(** [scan_once_unicode] of the C scanner, which [json.loads] runs, with its
    [_parse_array_unicode] and [_parse_object_unicode]: the grammar of
    [scan_once], where entering an array or an object is a recursive call,
    [depth] of which can be nested, and an integer is read by [int(text)].
    Each call spends one unit of [fuel]. *)
Fixpoint scan_once_unicode (fuel depth : nat) (s : pystr) {struct fuel}
  : outcome (value * pystr) :=
  match fuel with
  | O => Raise JSONDecodeError
  | S n =>
    match s with
    | [] => Raise JSONDecodeError
    | c :: s' =>
      if c =? 34 then
        match scanstring s' with
        | Some (t, r) => Ok (VStr t, r)
        | None => Raise JSONDecodeError
        end
      else if c =? 123 then
        match depth with
        | O => Raise RecursionError
        | S d =>
          match parse_object_unicode n d s' with
          | Ok (pairs, r) => Ok (VDict (dict_of_pairs pairs), r)
          | Raise e => Raise e
          end
        end
      else if c =? 91 then
        match depth with
        | O => Raise RecursionError
        | S d =>
          match parse_array_unicode n d s' with
          | Ok (values, r) => Ok (VList values, r)
          | Raise e => Raise e
          end
        end
      else if startswith (str "null") s then Ok (VNull, skipn 4 s)
      else if startswith (str "true") s then Ok (VBool true, skipn 4 s)
      else if startswith (str "false") s then Ok (VBool false, skipn 5 s)
      else
        match match_number s with
        | Some (integer, frac, exp, r) =>
          if nonempty frac || nonempty exp
          then Ok (VFloat (float_of_str (integer ++ frac ++ exp)), r)
          else
            match int_of_str integer with
            | Ok z => Ok (VInt z, r)
            | Raise e => Raise e
            end
        | None =>
          if startswith (str "NaN") s
          then Ok (VFloat (float_of_str (str "nan")), skipn 3 s)
          else if startswith (str "Infinity") s
          then Ok (VFloat (float_of_str (str "inf")), skipn 8 s)
          else if startswith (str "-Infinity") s
          then Ok (VFloat (float_of_str (str "-inf")), skipn 9 s)
          else Raise JSONDecodeError
        end
    end
  end

with parse_array_unicode (fuel depth : nat) (s : pystr) {struct fuel}
  : outcome (list value * pystr) :=
  match fuel with
  | O => Raise JSONDecodeError
  | S n =>
    match skip_ws s with
    | [] => Raise JSONDecodeError
    | c :: r => if c =? 93 then Ok ([], r) else array_loop_unicode n depth (c :: r)
    end
  end

with array_loop_unicode (fuel depth : nat) (s : pystr) {struct fuel}
  : outcome (list value * pystr) :=
  match fuel with
  | O => Raise JSONDecodeError
  | S n =>
    match scan_once_unicode n depth s with
    | Raise e => Raise e
    | Ok (v, r) =>
      match skip_ws r with
      | [] => Raise JSONDecodeError
      | c :: r1 =>
        if c =? 93 then Ok ([v], r1)
        else if c =? 44 then
          match array_loop_unicode n depth (skip_ws r1) with
          | Ok (values, r2) => Ok (v :: values, r2)
          | Raise e => Raise e
          end
        else Raise JSONDecodeError
      end
    end
  end

with parse_object_unicode (fuel depth : nat) (s : pystr) {struct fuel}
  : outcome (list (pystr * value) * pystr) :=
  match fuel with
  | O => Raise JSONDecodeError
  | S n =>
    match skip_ws s with
    | [] => Raise JSONDecodeError
    | c :: r =>
      if c =? 125 then Ok ([], r)
      else if c =? 34 then object_loop_unicode n depth r
      else Raise JSONDecodeError
    end
  end

with object_loop_unicode (fuel depth : nat) (s : pystr) {struct fuel}
  : outcome (list (pystr * value) * pystr) :=
  match fuel with
  | O => Raise JSONDecodeError
  | S n =>
    match scanstring s with
    | None => Raise JSONDecodeError
    | Some (key, r) =>
      match skip_ws r with
      | [] => Raise JSONDecodeError
      | c :: r1 =>
        if c =? 58 then
          match scan_once_unicode n depth (skip_ws r1) with
          | Raise e => Raise e
          | Ok (v, r2) =>
            match skip_ws r2 with
            | [] => Raise JSONDecodeError
            | c2 :: r3 =>
              if c2 =? 125 then Ok ([(key, v)], r3)
              else if c2 =? 44 then
                match skip_ws r3 with
                | [] => Raise JSONDecodeError
                | q :: r4 =>
                  if q =? 34 then
                    match object_loop_unicode n depth r4 with
                    | Ok (pairs, r5) => Ok ((key, v) :: pairs, r5)
                    | Raise e => Raise e
                    end
                  else Raise JSONDecodeError
                end
              else Raise JSONDecodeError
            end
          end
        else Raise JSONDecodeError
      end
    end
  end.

End Values.

(** A small float interface to run the model on: the halves [n + 0.5] with
    [n < 10], written and read as the digit followed by [.5]; every other
    text reads as the not-a-number sentinel [None]. *)
Module Halves.

Definition repr (f : option N) : pystr :=
  match f with
  | Some n => if n <? 10 then [48 + n; 46; 53] else str "nan"
  | None => str "nan"
  end.

Definition of_str (s : pystr) : option N :=
  match s with
  | [d; p; h] => if is_digit d && (p =? 46) && (h =? 53) then Some (d - 48) else None
  | _ => None
  end.

Definition eqb (a b : option N) : bool :=
  match a, b with
  | Some x, Some y => (x =? y) && (x <? 10)
  | _, _ => false
  end.

#[export] Instance halves : PyFloat :=
  {| float := option N; float_repr := repr; float_of_str := of_str; float_eqb := eqb |}.

(** The float [n + 0.5]. *)
Definition half (n : N) : @float halves := Some n.

End Halves.

(** Limits to run the model on: the digit limit CPython starts with, and
    room for 990 nested containers under its recursion limit of 1000. *)
Module Defaults.

#[export] Instance limits : PyLimits :=
  {| int_max_str_digits := 4300; encoder_depth := 990; scanner_depth := 990 |}.

End Defaults.

End Json.

(** ** What JSON represents faithfully *)

Module JsonSpec.
Import Py Json.
Local Open Scope N_scope.
Unset Implicit Arguments.

(** A Unicode scalar value: a code point that is not a surrogate. *)
Definition scalar (c : N) : bool := (c <? 0x110000) && negb (is_surrogate c).

(** A [str] of scalar values, that is, one that UTF-8 can encode. *)
Definition is_text (s : pystr) : bool := forallb scalar s.

(** The text that may follow a number without being taken into it. *)
Definition ends_number (rest : pystr) : bool :=
  match rest with
  | [] => true
  | c :: _ =>
    negb (is_digit c || (c =? 46) || (c =? 101) || (c =? 69) || (c =? 43) || (c =? 45))
  end.

(** The characters a number is written with. *)
Definition numchar (c : N) : bool :=
  is_digit c || (c =? 45) || (c =? 43) || (c =? 46) || (c =? 101) || (c =? 69).

Definition printable (c : N) : bool := (32 <=? c) && (c <=? 126).

(** The characters a JSON value can begin with. *)
Definition value_start (c : N) : bool :=
  (c =? 45) || is_digit c || (c =? 110) || (c =? 116) || (c =? 102)
  || (c =? 34) || (c =? 91) || (c =? 123).

Section Values.
Context {PF : PyFloat}.

(** A float that is neither a NaN nor an infinity, by the tests [floatstr]
    makes. *)
Definition finite (f : float) : bool :=
  float_eqb f f
  && negb (float_eqb f (float_of_str (str "inf")))
  && negb (float_eqb f (float_of_str (str "-inf"))).

(** What the interpreter guarantees of a finite float: its [repr] is a JSON
    number with a fraction or an exponent, and [float] reads it back. *)
Class PyFloatSpec : Prop := {
  repr_number : forall f, finite f = true ->
    exists integer frac exp,
      match_number (float_repr f) = Some (integer, frac, exp, [])
      /\ nonempty frac || nonempty exp = true;
  repr_float : forall f, finite f = true -> float_of_str (float_repr f) = f
}.

Fixpoint distinct (ks : list pystr) : bool :=
  match ks with
  | [] => true
  | k :: r => negb (existsb (pystr_eqb k) r) && distinct r
  end.

(** The values JSON represents faithfully: strings are Unicode text, floats
    are finite, and a mapping has each key once. *)
Fixpoint representable (v : value) : bool :=
  match v with
  | VNull | VBool _ | VInt _ => true
  | VFloat f => finite f
  | VStr s => is_text s
  | VList l => forallb representable l
  | VDict d =>
    distinct (map fst d)
    && forallb (fun kv => is_text (fst kv) && representable (snd kv)) d
  end.

(** The values the codec handles when [depth] containers can be nested: none
    nested deeper, and no integer beyond the digit limit. *)
Fixpoint fits {PL : PyLimits} (depth : nat) (v : value) {struct v} : bool :=
  match v with
  | VInt z => negb (exceeds_limit (int_repr z))
  | VList l =>
    match depth with
    | O => false
    | S d => forallb (fits d) l
    end
  | VDict m =>
    match depth with
    | O => false
    | S d => forallb (fun kv => fits d (snd kv)) m
    end
  | _ => true
  end.

(** Induction on values, with the hypothesis for every element of a list and
    every value of a mapping. *)
Section ValueInd.
Variable P : value -> Prop.
Hypothesis Hnull : P VNull.
Hypothesis Hbool : forall b, P (VBool b).
Hypothesis Hint : forall z, P (VInt z).
Hypothesis Hfloat : forall f, P (VFloat f).
Hypothesis Hstr : forall s, P (VStr s).
Hypothesis Hlist : forall l, Forall P l -> P (VList l).
Hypothesis Hdict : forall d, Forall (fun kv => P (snd kv)) d -> P (VDict d).

Fixpoint value_ind' (v : value) : P v :=
  match v with
  | VNull => Hnull
  | VBool b => Hbool b
  | VInt z => Hint z
  | VFloat f => Hfloat f
  | VStr s => Hstr s
  | VList l =>
    Hlist l ((fix go (l : list value) : Forall P l :=
                match l with
                | [] => Forall_nil P
                | x :: r => Forall_cons x (value_ind' x) (go r)
                end) l)
  | VDict d =>
    Hdict d ((fix go (d : list (pystr * value)) : Forall (fun kv => P (snd kv)) d :=
                match d with
                | [] => Forall_nil _
                | kv :: r => Forall_cons kv (value_ind' (snd kv)) (go r)
                end) d)
  end.
End ValueInd.

(** Fuel that suffices to scan the text of a value. *)
Fixpoint need (v : value) : nat :=
  match v with
  | VList l => 2 + List.length l + list_sum (map need l)
  | VDict d => 2 + List.length d + list_sum (map (fun kv => need (snd kv)) d)
  | _ => 1
  end.

(** The property proved of every representable value, by induction on it. *)
Definition scans (v : value) : Prop :=
  representable v = true ->
  forall fuel rest,
    (need v <= fuel)%nat -> ends_number rest = true ->
    scan_once fuel (dumps v ++ rest) = Some (v, rest).

(** The exceptions [json.loads] raises: a malformed document, too deep a
    nesting, too long an integer. *)
Definition decoder_error (e : exn) : bool :=
  match e with
  | JSONDecodeError | RecursionError | ValueError => true
  | _ => false
  end.

(** The same of the scanner the interpreter runs, for a value within its
    limits. *)
Definition scans_unicode {PL : PyLimits} (v : value) : Prop :=
  representable v = true ->
  forall fuel depth rest,
    (need v <= fuel)%nat -> fits depth v = true -> ends_number rest = true ->
    scan_once_unicode fuel depth (dumps v ++ rest) = Ok (v, rest).


End Values.

End JsonSpec.

(** ** Effects: state, exceptions and the calls made to the outside *)

Module Effects.
Import Py.

Inductive level : Type := LvInfo | LvDebug | LvError.

(** A socket object, a network address [(host, port)], a socket type. *)
Definition handle : Type := nat.
Definition address : Type := (string * Z)%type.
Inductive sock_kind : Type := SOCK_STREAM | SOCK_DGRAM.

(** Every call that leaves the program, in the order it is made: the logger,
    the socket API, the serial handle, the port enumerator. *)
Inductive event : Type :=
| Log (l : level)
| SocketNew (k : sock_kind)
| SockConnect (h : handle) (a : address)
| SockSetReuseAddr (h : handle)
| SockBind (h : handle) (a : address)
| SockListen (h : handle) (backlog : Z)
| SockAccept (h : handle)
| SockSendall (h : handle) (data : bytes)
| SockSendto (h : handle) (data : bytes) (a : address)
| SockSettimeout (h : handle) (t : Q)
| SockRecv (h : handle) (bufsize : Z)
| SockRecvfrom (h : handle) (bufsize : Z)
| SockClose (h : handle)
| SerialOpen (port : string)
| SerialResetInput
| SerialResetOutput
| SerialWrite (data : bytes)
| SerialFlush
| SerialSetTimeout (t : Q)
| SerialReadline
| SerialRead (size : Z)
| SerialClose
| ListComports.

(** The transport writes and reads among them. *)
Definition is_transport_io (e : event) : bool :=
  match e with
  | SockSendall _ _ | SockSendto _ _ _ | SockRecv _ _ | SockRecvfrom _ _
  | SerialWrite _ | SerialReadline | SerialRead _ => true
  | _ => false
  end.

(** The payloads written to the transport. *)
Fixpoint sent (tr : list event) : list bytes :=
  match tr with
  | [] => []
  | SockSendall _ data :: tr' => data :: sent tr'
  | SockSendto _ data _ :: tr' => data :: sent tr'
  | SerialWrite data :: tr' => data :: sent tr'
  | _ :: tr' => sent tr'
  end.

(** How the operating system answers the socket calls of one method call. *)
Record socket_api : Type := {
  os_socket : sock_kind -> outcome handle;
  os_connect : handle -> address -> outcome unit;
  os_setsockopt : handle -> outcome unit;
  os_bind : handle -> address -> outcome unit;
  os_listen : handle -> Z -> outcome unit;
  os_accept : handle -> outcome (handle * address);
  os_sendall : handle -> bytes -> outcome unit;
  os_sendto : handle -> bytes -> address -> outcome unit;
  os_settimeout : handle -> Q -> outcome unit;
  os_recv : handle -> Z -> outcome bytes;
  os_recvfrom : handle -> Z -> outcome (bytes * address);
  os_close : handle -> outcome unit
}.

(** How the serial device answers, and the port enumerator
    ([serial.tools.list_ports.comports], imported on first use). *)
Record serial_api : Type := {
  ser_open : string -> outcome unit;
  ser_reset_input : outcome unit;
  ser_reset_output : outcome unit;
  ser_write : bytes -> outcome Z;
  ser_flush : outcome unit;
  ser_reconfigure : Q -> outcome unit;
  ser_readline : outcome bytes;
  ser_read : Z -> outcome bytes;
  ser_close : outcome unit;
  comports : outcome (list string)
}.

(** A method body: from the object's state to its result (a value or an
    exception), the state it leaves and the calls it made. *)
Definition py (St A : Type) : Type := St -> outcome A * St * list event.

Section Monad.
Context {St : Type}.

Definition ret {A : Type} (a : A) : py St A := fun s => (Ok a, s, []).

Definition bind {A B : Type} (m : py St A) (f : A -> py St B) : py St B :=
  fun s =>
    match m s with
    | (Ok a, s1, t1) => let '(r, s2, t2) := f a s1 in (r, s2, t1 ++ t2)
    | (Raise e, s1, t1) => (Raise e, s1, t1)
    end.

Definition raise {A : Type} (e : exn) : py St A := fun s => (Raise e, s, []).

Definition get : py St St := fun s => (Ok s, s, []).

Definition modify (f : St -> St) : py St unit := fun s => (Ok tt, f s, []).

(** A value computed by library code that may raise. *)
Definition lift {A : Type} (o : outcome A) : py St A := fun s => (o, s, []).

(** A call to the outside, answered by [o]. *)
Definition call {A : Type} (ev : event) (o : outcome A) : py St A :=
  fun s => (o, s, [ev]).

Definition log (l : level) : py St unit := fun s => (Ok tt, s, [Log l]).

(** [try: body  except Exception as e: handler e] *)
Definition try_except {A : Type} (body : py St A) (handler : exn -> py St A) : py St A :=
  fun s =>
    match body s with
    | (Raise e, s1, t1) => let '(r, s2, t2) := handler e s1 in (r, s2, t1 ++ t2)
    | done => done
    end.

End Monad.

Declare Scope py_scope.
Delimit Scope py_scope with py.
Notation "x <- m ;; k" := (bind m (fun x => k))
  (at level 61, m at next level, right associativity) : py_scope.
Notation "m ;; k" := (bind m (fun _ => k))
  (at level 61, right associativity) : py_scope.

(** Running a method on an object. *)
Definition run {St A : Type} (m : py St A) (s : St) : outcome A * St * list event := m s.
Definition result {St A : Type} (r : outcome A * St * list event) : outcome A := fst (fst r).
Definition state {St A : Type} (r : outcome A * St * list event) : St := snd (fst r).
Definition trace {St A : Type} (r : outcome A * St * list event) : list event := snd r.

(** [.encode('utf-8')], [.decode('utf-8')], [json.dumps] and [json.loads] as
    they raise. *)
Definition encode (s : pystr) : outcome bytes :=
  match utf8_encode s with Some b => Ok b | None => Raise UnicodeEncodeError end.

Definition decode (b : bytes) : outcome pystr :=
  match utf8_decode b with Some s => Ok s | None => Raise UnicodeDecodeError end.

Section Codec.
Context {PF : Json.PyFloat} {PL : Json.PyLimits}.

Definition json_dumps (obj : Json.value) : outcome pystr :=
  Json.encoder_listencode_obj Json.encoder_depth obj.

(** A leading byte-order mark is refused, white space around the document is
    skipped and nothing else may follow it. *)
Definition json_loads (s : pystr) : outcome Json.value :=
  if startswith [0xFEFF%N] s then Raise JSONDecodeError
  else
    match Json.scan_once_unicode (2 * List.length s + 2) Json.scanner_depth
                                 (Json.skip_ws s) with
    | Ok (v, r) =>
      match Json.skip_ws r with
      | [] => Ok v
      | _ :: _ => Raise JSONDecodeError
      end
    | Raise e => Raise e
    end.

End Codec.

(** [socket.settimeout]: a negative timeout is a ValueError. *)
Definition settimeout (os : socket_api) {St : Type} (h : handle) (t : Q) : py St unit :=
  if Qle_bool 0 t then call (SockSettimeout h t) (os_settimeout os h t)
  else raise ValueError.

(** [socket.recv] and [socket.recvfrom]: a negative buffer size is a
    ValueError. *)
Definition recv (os : socket_api) {St : Type} (h : handle) (bufsize : Z) : py St bytes :=
  if (0 <=? bufsize)%Z then call (SockRecv h bufsize) (os_recv os h bufsize)
  else raise ValueError.

Definition recvfrom (os : socket_api) {St : Type} (h : handle) (bufsize : Z)
  : py St (bytes * address) :=
  if (0 <=? bufsize)%Z then call (SockRecvfrom h bufsize) (os_recvfrom os h bufsize)
  else raise ValueError.

(** [self.protocol not in ["TCP", "UDP"]] *)
Definition known_protocol (p : string) : bool :=
  (String.eqb p "TCP" || String.eqb p "UDP")%bool.

End Effects.

(** ** [teleop_interface.py]: the abstract base *)

Module TeleopInterface.
Import Py Effects.
Local Open Scope py_scope.

(** What every binding inherits: the connected flag, set to [False] by the
    base [__init__], and [check_connection], which returns it. *)
Class Interface (T : Type) : Type := { is_connected : T -> bool }.

Definition check_connection {T : Type} {I : Interface T} : py T bool :=
  self <- get ;;
  ret (is_connected self).

End TeleopInterface.

(** ** [socket_teleop.py]: the client *)

Module SocketTeleopInterface.
Import Py Json Effects.
Local Open Scope py_scope.
Local Open Scope string_scope.

Record t : Type := {
  is_connected : bool;
  host : string;
  port : Z;
  protocol : string;
  buffer_size : Z;
  socket : option handle
}.

Definition set_is_connected (b : bool) (self : t) : t :=
  {| is_connected := b; host := host self; port := port self;
     protocol := protocol self; buffer_size := buffer_size self;
     socket := socket self |}.

Definition set_socket (h : option handle) (self : t) : t :=
  {| is_connected := is_connected self; host := host self; port := port self;
     protocol := protocol self; buffer_size := buffer_size self;
     socket := h |}.

#[export] Instance interface : TeleopInterface.Interface t :=
  {| TeleopInterface.is_connected := is_connected |}.

Definition __init__ (host : string) (port : Z) (protocol : string) (buffer_size : Z)
  : outcome t :=
  let self := {| is_connected := false; host := host; port := port;
                 protocol := upper protocol; buffer_size := buffer_size;
                 socket := None |} in
  if negb (known_protocol (SocketTeleopInterface.protocol self))
  then Raise ValueError
  else Ok self.

Definition connect (os : socket_api) : py t bool :=
  try_except
    (self <- get ;;
     (if protocol self =? "TCP" then
        h <- call (SocketNew SOCK_STREAM) (os_socket os SOCK_STREAM) ;;
        modify (set_socket (Some h)) ;;
        call (SockConnect h (host self, port self))
             (os_connect os h (host self, port self)) ;;
        log LvInfo
      else
        h <- call (SocketNew SOCK_DGRAM) (os_socket os SOCK_DGRAM) ;;
        modify (set_socket (Some h)) ;;
        log LvInfo) ;;
     modify (set_is_connected true) ;;
     ret true)
    (fun e =>
       log LvError ;;
       modify (set_is_connected false) ;;
       ret false).

Definition disconnect (os : socket_api) : py t bool :=
  try_except
    (self <- get ;;
     match socket self with
     | Some h =>
       call (SockClose h) (os_close os h) ;;
       modify (set_socket None) ;;
       log LvInfo
     | None => ret tt
     end ;;
     modify (set_is_connected false) ;;
     ret true)
    (fun e =>
       log LvError ;;
       ret false).

Section Messages.
Context {PF : PyFloat} {PL : PyLimits}.

Definition send_command (command : pydict) (os : socket_api) : py t bool :=
  self <- get ;;
  match is_connected self, socket self with
  | true, Some h =>
    try_except
      (text <- lift (json_dumps (VDict command)) ;;
       data <- lift (encode text) ;;
       (if protocol self =? "TCP" then
          call (SockSendall h data) (os_sendall os h data)
        else
          call (SockSendto h data (host self, port self))
               (os_sendto os h data (host self, port self))) ;;
       log LvDebug ;;
       ret true)
      (fun e =>
         log LvError ;;
         ret false)
  | _, _ =>
    log LvError ;;
    ret false
  end.

Definition receive_data (timeout : Q) (os : socket_api) : py t (option value) :=
  self <- get ;;
  match is_connected self, socket self with
  | true, Some h =>
    try_except
      (settimeout os h timeout ;;
       data <- (if protocol self =? "TCP" then
                  recv os h (buffer_size self)
                else
                  packet <- recvfrom os h (buffer_size self) ;;
                  ret (fst packet)) ;;
       match data with
       | [] => ret None
       | _ :: _ =>
         text <- lift (decode data) ;;
         result <- lift (json_loads text) ;;
         log LvDebug ;;
         ret (Some result)
       end)
      (fun e =>
         match e with
         | SocketTimeout => log LvDebug ;; ret None
         | _ => log LvError ;; ret None
         end)
  | _, _ =>
    log LvError ;;
    ret None
  end.

End Messages.

End SocketTeleopInterface.

(** ** [socket_teleop.py]: the server *)

Module SocketTeleopServer.
Import Py Json Effects.
Local Open Scope py_scope.
Local Open Scope string_scope.

Record t : Type := {
  is_connected : bool;
  host : string;
  port : Z;
  protocol : string;
  buffer_size : Z;
  server_socket : option handle;
  client_socket : option handle;
  client_address : option address
}.

Definition set_is_connected (b : bool) (self : t) : t :=
  {| is_connected := b; host := host self; port := port self;
     protocol := protocol self; buffer_size := buffer_size self;
     server_socket := server_socket self; client_socket := client_socket self;
     client_address := client_address self |}.

Definition set_server_socket (h : option handle) (self : t) : t :=
  {| is_connected := is_connected self; host := host self; port := port self;
     protocol := protocol self; buffer_size := buffer_size self;
     server_socket := h; client_socket := client_socket self;
     client_address := client_address self |}.

Definition set_client_socket (h : option handle) (self : t) : t :=
  {| is_connected := is_connected self; host := host self; port := port self;
     protocol := protocol self; buffer_size := buffer_size self;
     server_socket := server_socket self; client_socket := h;
     client_address := client_address self |}.

Definition set_client_address (a : option address) (self : t) : t :=
  {| is_connected := is_connected self; host := host self; port := port self;
     protocol := protocol self; buffer_size := buffer_size self;
     server_socket := server_socket self; client_socket := client_socket self;
     client_address := a |}.

#[export] Instance interface : TeleopInterface.Interface t :=
  {| TeleopInterface.is_connected := is_connected |}.

Definition __init__ (host : string) (port : Z) (protocol : string) (buffer_size : Z)
  : outcome t :=
  let self := {| is_connected := false; host := host; port := port;
                 protocol := upper protocol; buffer_size := buffer_size;
                 server_socket := None; client_socket := None;
                 client_address := None |} in
  if negb (known_protocol (SocketTeleopServer.protocol self))
  then Raise ValueError
  else Ok self.

(** A method call on an attribute that may hold [None]: on [None] the
    method lookup raises AttributeError. *)
Definition on_socket {A : Type} (o : option handle) (f : handle -> py t A) : py t A :=
  match o with
  | Some h => f h
  | None => raise AttributeError
  end.

Definition connect (os : socket_api) : py t bool :=
  try_except
    (self <- get ;;
     (if protocol self =? "TCP" then
        h <- call (SocketNew SOCK_STREAM) (os_socket os SOCK_STREAM) ;;
        modify (set_server_socket (Some h)) ;;
        call (SockSetReuseAddr h) (os_setsockopt os h) ;;
        call (SockBind h (host self, port self)) (os_bind os h (host self, port self)) ;;
        call (SockListen h 1) (os_listen os h 1) ;;
        log LvInfo ;;
        peer <- call (SockAccept h) (os_accept os h) ;;
        modify (set_client_socket (Some (fst peer))) ;;
        modify (set_client_address (Some (snd peer))) ;;
        log LvInfo
      else
        h <- call (SocketNew SOCK_DGRAM) (os_socket os SOCK_DGRAM) ;;
        modify (set_server_socket (Some h)) ;;
        call (SockBind h (host self, port self)) (os_bind os h (host self, port self)) ;;
        log LvInfo) ;;
     modify (set_is_connected true) ;;
     ret true)
    (fun e =>
       log LvError ;;
       modify (set_is_connected false) ;;
       ret false).

Definition disconnect (os : socket_api) : py t bool :=
  try_except
    (self <- get ;;
     match client_socket self with
     | Some h =>
       call (SockClose h) (os_close os h) ;;
       modify (set_client_socket None)
     | None => ret tt
     end ;;
     match server_socket self with
     | Some h =>
       call (SockClose h) (os_close os h) ;;
       modify (set_server_socket None)
     | None => ret tt
     end ;;
     log LvInfo ;;
     modify (set_is_connected false) ;;
     ret true)
    (fun e =>
       log LvError ;;
       ret false).

Section Messages.
Context {PF : PyFloat} {PL : PyLimits}.

Definition send_command (command : pydict) (os : socket_api) : py t bool :=
  self <- get ;;
  if negb (is_connected self) then
    log LvError ;;
    ret false
  else
    try_except
      (text <- lift (json_dumps (VDict command)) ;;
       data <- lift (encode text) ;;
       (if protocol self =? "TCP" then
          match client_socket self with
          | None =>
            log LvError ;;
            ret false
          | Some h =>
            call (SockSendall h data) (os_sendall os h data) ;;
            log LvDebug ;;
            ret true
          end
        else
          match client_address self with
          | None =>
            log LvError ;;
            ret false
          | Some peer =>
            on_socket (server_socket self) (fun h =>
              call (SockSendto h data peer) (os_sendto os h data peer)) ;;
            log LvDebug ;;
            ret true
          end))
      (fun e =>
         log LvError ;;
         ret false).

Definition receive_data (timeout : Q) (os : socket_api) : py t (option value) :=
  self <- get ;;
  if negb (is_connected self) then
    log LvError ;;
    ret None
  else
    try_except
      (received <-
         (if protocol self =? "TCP" then
            match client_socket self with
            | None =>
              log LvError ;;
              ret None
            | Some h =>
              settimeout os h timeout ;;
              data <- recv os h (buffer_size self) ;;
              ret (Some data)
            end
          else
            on_socket (server_socket self) (fun h =>
              settimeout os h timeout ;;
              packet <- recvfrom os h (buffer_size self) ;;
              modify (set_client_address (Some (snd packet))) ;;
              ret (Some (fst packet)))) ;;
       match received with
       | None => ret None
       | Some [] => ret None
       | Some (b :: data) =>
         text <- lift (decode (b :: data)) ;;
         result <- lift (json_loads text) ;;
         log LvDebug ;;
         ret (Some result)
       end)
      (fun e =>
         match e with
         | SocketTimeout => log LvDebug ;; ret None
         | _ => log LvError ;; ret None
         end).

End Messages.

End SocketTeleopServer.

(** ** [serial_teleop.py] *)

(** The [serial.Serial] object of pyserial, as far as the transport uses it:
    whether the port is open, and its read timeout. *)
Module Serial.
Import Py Effects.
Local Open Scope py_scope.
Local Open Scope string_scope.

Record t : Type := {
  is_open : bool;
  timeout : Q
}.

Definition BYTESIZES : list Z := [5; 6; 7; 8]%Z.
Definition PARITIES : list string := ["N"; "E"; "O"; "M"; "S"].
Definition STOPBITS : list Q := [1; 3 # 2; 2]%Q.

(** The checks the constructor's property setters make; each failure is a
    ValueError. *)
Definition valid_parameters (baudrate bytesize : Z) (parity : string) (stopbits timeout : Q)
  : bool :=
  (0 <=? baudrate)%Z
  && existsb (Z.eqb bytesize) BYTESIZES
  && existsb (String.eqb parity) PARITIES
  && existsb (Qeq_bool stopbits) STOPBITS
  && Qle_bool 0 timeout.

(** What [readline] returns when [pending] is what reaches the port before
    the timeout: the bytes up to and including the first line feed, or all
    of them when there is none. *)
Fixpoint readline_of (pending : bytes) : bytes :=
  match pending with
  | [] => []
  | b :: rest => if (Byte.to_N b =? 10)%N then [b] else b :: readline_of rest
  end.

(** [serial.Serial(port=..., ...)]: the parameters are checked, then the
    device is opened. *)
Definition create {St : Type} (api : serial_api) (port : string) (baudrate bytesize : Z)
    (parity : string) (stopbits timeout : Q) : py St t :=
  if valid_parameters baudrate bytesize parity stopbits timeout then
    call (SerialOpen port) (ser_open api port) ;;
    ret {| is_open := true; timeout := timeout |}
  else raise ValueError.

End Serial.

Module SerialTeleopInterface.
Import Py Json Effects.
Local Open Scope py_scope.
Local Open Scope string_scope.

Record t : Type := {
  is_connected : bool;
  port : string;
  baudrate : Z;
  timeout : Q;
  bytesize : Z;
  parity : string;
  stopbits : Q;
  serial_port : option Serial.t
}.

Definition set_is_connected (b : bool) (self : t) : t :=
  {| is_connected := b; port := port self; baudrate := baudrate self;
     timeout := timeout self; bytesize := bytesize self; parity := parity self;
     stopbits := stopbits self; serial_port := serial_port self |}.

Definition set_serial_port (sp : option Serial.t) (self : t) : t :=
  {| is_connected := is_connected self; port := port self; baudrate := baudrate self;
     timeout := timeout self; bytesize := bytesize self; parity := parity self;
     stopbits := stopbits self; serial_port := sp |}.

#[export] Instance interface : TeleopInterface.Interface t :=
  {| TeleopInterface.is_connected := is_connected |}.

(** [self.serial_port.timeout = value]: the setter refuses a negative value,
    stores the value, and reconfigures the port when it is open. *)
Definition set_port_timeout (api : serial_api) (value : Q) : py t unit :=
  self <- get ;;
  match serial_port self with
  | None => raise AttributeError
  | Some sp =>
    if Qle_bool 0 value then
      modify (set_serial_port
                (Some {| Serial.is_open := Serial.is_open sp; Serial.timeout := value |})) ;;
      if Serial.is_open sp
      then call (SerialSetTimeout value) (ser_reconfigure api value)
      else ret tt
    else raise ValueError
  end.

(** [self.serial_port.close()] *)
Definition close_port (api : serial_api) (sp : Serial.t) : py t unit :=
  call SerialClose (ser_close api) ;;
  modify (set_serial_port
            (Some {| Serial.is_open := false; Serial.timeout := Serial.timeout sp |})).

(** The handle that the guard of the send and receive methods lets through:
    connected, a port object, and that port open. *)
Definition open_port (self : t) : option Serial.t :=
  match is_connected self, serial_port self with
  | true, Some sp => if Serial.is_open sp then Some sp else None
  | _, _ => None
  end.

Definition __init__ (port : string) (baudrate : Z) (timeout : Q) (bytesize : Z)
    (parity : string) (stopbits : Q) : outcome t :=
  Ok {| is_connected := false; port := port; baudrate := baudrate;
        timeout := timeout; bytesize := bytesize; parity := parity;
        stopbits := stopbits; serial_port := None |}.

Definition connect (api : serial_api) : py t bool :=
  try_except
    (self <- get ;;
     sp <- Serial.create api (port self) (baudrate self) (bytesize self)
                         (parity self) (stopbits self) (timeout self) ;;
     modify (set_serial_port (Some sp)) ;;
     call SerialResetInput (ser_reset_input api) ;;
     call SerialResetOutput (ser_reset_output api) ;;
     modify (set_is_connected true) ;;
     log LvInfo ;;
     ret true)
    (fun e =>
       match e with
       | SerialException =>
         log LvError ;;
         modify (set_is_connected false) ;;
         ret false
       | _ =>
         log LvError ;;
         modify (set_is_connected false) ;;
         ret false
       end).

Definition disconnect (api : serial_api) : py t bool :=
  try_except
    (self <- get ;;
     match serial_port self with
     | Some sp =>
       if Serial.is_open sp then
         close_port api sp ;;
         log LvInfo
       else ret tt
     | None => ret tt
     end ;;
     modify (set_is_connected false) ;;
     ret true)
    (fun e =>
       log LvError ;;
       ret false).

Definition send_raw_bytes (data : bytes) (api : serial_api) : py t bool :=
  self <- get ;;
  match open_port self with
  | None =>
    log LvError ;;
    ret false
  | Some _ =>
    try_except
      (call (SerialWrite data) (ser_write api data) ;;
       call SerialFlush (ser_flush api) ;;
       log LvDebug ;;
       ret true)
      (fun e =>
         log LvError ;;
         ret false)
  end.

Definition receive_raw_bytes (size : Z) (timeout : Q) (api : serial_api)
  : py t (option bytes) :=
  self <- get ;;
  match open_port self with
  | None =>
    log LvError ;;
    ret None
  | Some sp =>
    try_except
      (let original_timeout := Serial.timeout sp in
       set_port_timeout api timeout ;;
       data <- call (SerialRead size) (ser_read api size) ;;
       set_port_timeout api original_timeout ;;
       match data with
       | [] =>
         log LvDebug ;;
         ret None
       | _ :: _ =>
         log LvDebug ;;
         ret (Some data)
       end)
      (fun e =>
         log LvError ;;
         ret None)
  end.

Definition clear_buffers (api : serial_api) : py t unit :=
  self <- get ;;
  match serial_port self with
  | Some sp =>
    if Serial.is_open sp then
      call SerialResetInput (ser_reset_input api) ;;
      call SerialResetOutput (ser_reset_output api) ;;
      log LvDebug
    else ret tt
  | None => ret tt
  end.

(** The names bound at module level in [serial_teleop.py]: what it imports
    (lines 5 to 9) and the class it defines. *)
Definition module_globals : list string :=
  ["serial"; "json"; "time"; "Optional"; "Dict"; "Any"; "List";
   "TeleopInterface"; "SerialTeleopInterface"].

(** Evaluating a global name: one that is not bound raises NameError. *)
Definition global_name {St : Type} (name : string) : py St unit :=
  if existsb (String.eqb name) module_globals then ret tt else raise NameError.

(** A static method: it has no object to act on. *)
Definition list_available_ports (api : serial_api) : py unit (list string) :=
  try_except
    (ports <- call ListComports (comports api) ;;
     ret ports)
    (fun e =>
       global_name "logging" ;;
       log LvError ;;
       ret []).

Section Messages.
Context {PF : PyFloat} {PL : PyLimits}.

Definition send_command (command : pydict) (api : serial_api) : py t bool :=
  self <- get ;;
  match open_port self with
  | None =>
    log LvError ;;
    ret false
  | Some _ =>
    try_except
      (text <- lift (json_dumps (VDict command)) ;;
       data <- lift (encode (text ++ [10%N])%list) ;;
       call (SerialWrite data) (ser_write api data) ;;
       call SerialFlush (ser_flush api) ;;
       log LvDebug ;;
       ret true)
      (fun e =>
         log LvError ;;
         ret false)
  end.

Definition receive_data (timeout : Q) (api : serial_api) : py t (option value) :=
  self <- get ;;
  match open_port self with
  | None =>
    log LvError ;;
    ret None
  | Some sp =>
    try_except
      (let original_timeout := Serial.timeout sp in
       set_port_timeout api timeout ;;
       line <- call SerialReadline (ser_readline api) ;;
       set_port_timeout api original_timeout ;;
       match line with
       | [] =>
         log LvDebug ;;
         ret None
       | _ :: _ =>
         text <- lift (decode line) ;;
         result <- lift (json_loads (strip text)) ;;
         log LvDebug ;;
         ret (Some result)
       end)
      (fun e =>
         match e with
         | JSONDecodeError =>
           log LvError ;;
           ret None
         | _ =>
           log LvError ;;
           ret None
         end)
  end.

End Messages.

End SerialTeleopInterface.

(** ** Sample objects and environments *)

Module Scenarios.
Import Py Json JsonSpec Effects.
Local Open Scope string_scope.

Module Client := SocketTeleopInterface.
Module Server := SocketTeleopServer.
Module Line := SerialTeleopInterface.

(** A socket API whose every call succeeds; [recv] and [recvfrom] return
    [data], the latter from [peer], and [accept] yields handle 8 from
    [peer]. *)
Definition os_fine (data : bytes) (peer : address) : socket_api :=
  {| os_socket := fun _ => Ok 7%nat;
     os_connect := fun _ _ => Ok tt;
     os_setsockopt := fun _ => Ok tt;
     os_bind := fun _ _ => Ok tt;
     os_listen := fun _ _ => Ok tt;
     os_accept := fun _ => Ok (8%nat, peer);
     os_sendall := fun _ _ => Ok tt;
     os_sendto := fun _ _ _ => Ok tt;
     os_settimeout := fun _ _ => Ok tt;
     os_recv := fun _ _ => Ok data;
     os_recvfrom := fun _ _ => Ok (data, peer);
     os_close := fun _ => Ok tt |}.

(** The same, except that closing a socket fails. *)
Definition os_close_fails : socket_api :=
  {| os_socket := fun _ => Ok 7%nat;
     os_connect := fun _ _ => Ok tt;
     os_setsockopt := fun _ => Ok tt;
     os_bind := fun _ _ => Ok tt;
     os_listen := fun _ _ => Ok tt;
     os_accept := fun _ => Ok (8%nat, ("10.0.0.2", 5000%Z));
     os_sendall := fun _ _ => Ok tt;
     os_sendto := fun _ _ _ => Ok tt;
     os_settimeout := fun _ _ => Ok tt;
     os_recv := fun _ _ => Ok [];
     os_recvfrom := fun _ _ => Raise SocketTimeout;
     os_close := fun _ => Raise OSError |}.

(** A serial device whose every call succeeds; [readline] and [read] return
    [data]. *)
Definition dev_fine (data : bytes) : serial_api :=
  {| ser_open := fun _ => Ok tt;
     ser_reset_input := Ok tt;
     ser_reset_output := Ok tt;
     ser_write := fun d => Ok (Z.of_nat (List.length d));
     ser_flush := Ok tt;
     ser_reconfigure := fun _ => Ok tt;
     ser_readline := Ok data;
     ser_read := fun _ => Ok data;
     ser_close := Ok tt;
     comports := Ok ["/dev/ttyUSB0"] |}.

(** A serial device on which reading, closing and the port enumeration
    fail. *)
Definition dev_broken : serial_api :=
  {| ser_open := fun _ => Ok tt;
     ser_reset_input := Ok tt;
     ser_reset_output := Ok tt;
     ser_write := fun d => Ok (Z.of_nat (List.length d));
     ser_flush := Ok tt;
     ser_reconfigure := fun _ => Ok tt;
     ser_readline := Raise SerialException;
     ser_read := fun _ => Raise SerialException;
     ser_close := Raise SerialException;
     comports := Raise OSError |}.

(** Sample objects: a TCP client and a UDP server that are connected, and
    an open serial transport. *)
Definition tcp_client : Client.t :=
  {| Client.is_connected := true; Client.host := "127.0.0.1"; Client.port := 8888;
     Client.protocol := "TCP"; Client.buffer_size := 4096; Client.socket := Some 7%nat |}.

Definition idle_client : Client.t :=
  {| Client.is_connected := false; Client.host := "127.0.0.1"; Client.port := 8888;
     Client.protocol := "TCP"; Client.buffer_size := 4096; Client.socket := None |}.

Definition udp_server (peer : option address) : Server.t :=
  {| Server.is_connected := true; Server.host := "0.0.0.0"; Server.port := 8888;
     Server.protocol := "UDP"; Server.buffer_size := 4096;
     Server.server_socket := Some 7%nat; Server.client_socket := None;
     Server.client_address := peer |}.

Definition open_line : Line.t :=
  {| Line.is_connected := true; Line.port := "/dev/ttyUSB0"; Line.baudrate := 115200;
     Line.timeout := 1; Line.bytesize := 8; Line.parity := "N"; Line.stopbits := 1;
     Line.serial_port := Some {| Serial.is_open := true; Serial.timeout := 1 |} |}.

Definition sample_peer : address := ("10.0.0.2", 5000%Z).

(** Another sender. *)
Definition second_peer : address := ("10.0.0.3", 5001%Z).

(** A socket API whose every call succeeds, with [wire] waiting to be read:
    [recv] and [recvfrom] hand over as much of it as the buffer of the call
    takes. *)
Definition os_holding (wire : bytes) (peer : address) : socket_api :=
  {| os_socket := fun _ => Ok 7%nat;
     os_connect := fun _ _ => Ok tt;
     os_setsockopt := fun _ => Ok tt;
     os_bind := fun _ _ => Ok tt;
     os_listen := fun _ _ => Ok tt;
     os_accept := fun _ => Ok (8%nat, peer);
     os_sendall := fun _ _ => Ok tt;
     os_sendto := fun _ _ _ => Ok tt;
     os_settimeout := fun _ _ => Ok tt;
     os_recv := fun _ n => Ok (firstn (Z.to_nat n) wire);
     os_recvfrom := fun _ n => Ok (firstn (Z.to_nat n) wire, peer);
     os_close := fun _ => Ok tt |}.

(** A connected TCP server whose receive buffer takes 16 bytes. *)
Definition small_server : Server.t :=
  {| Server.is_connected := true; Server.host := "0.0.0.0"; Server.port := 8888;
     Server.protocol := "TCP"; Server.buffer_size := 16;
     Server.server_socket := Some 7%nat; Server.client_socket := Some 8%nat;
     Server.client_address := Some sample_peer |}.

(** The first scenario's command: a move with a linear velocity of 0.5. *)
Definition sample_command : @pydict Halves.halves :=
  [(str "type", @VStr Halves.halves (str "move"));
   (str "linear_velocity", VFloat (Halves.half 0))].

(** A command whose one value is a list nested 1500 deep. *)
Definition deep_command : @pydict Halves.halves :=
  [(str "path", Nat.iter 1499 (fun v => @VList Halves.halves [v]) (VList []))].

Section Reads.
Context {PF : PyFloat}.

(** The transport hands [data] to the [receive_data] of a connected client:
    the timeout is accepted and the one read the method makes returns
    [data]. *)
Definition client_reads (os : socket_api) (s : Client.t) (timeout : Q) (data : bytes)
  : Prop :=
  exists h,
    Client.is_connected s = true /\ Client.socket s = Some h
    /\ Qle_bool 0 timeout = true /\ os_settimeout os h timeout = Ok tt
    /\ (0 <=? Client.buffer_size s)%Z = true
    /\ if Client.protocol s =? "TCP"
       then os_recv os h (Client.buffer_size s) = Ok data
       else exists src, os_recvfrom os h (Client.buffer_size s) = Ok (data, src).

(** The same for a connected server: over TCP the read is on the accepted
    connection, over UDP on the bound socket. *)
Definition server_reads (os : socket_api) (s : Server.t) (timeout : Q) (data : bytes)
  : Prop :=
  Server.is_connected s = true
  /\ Qle_bool 0 timeout = true
  /\ (0 <=? Server.buffer_size s)%Z = true
  /\ if Server.protocol s =? "TCP"
     then exists h,
         Server.client_socket s = Some h
         /\ os_settimeout os h timeout = Ok tt
         /\ os_recv os h (Server.buffer_size s) = Ok data
     else exists h src,
         Server.server_socket s = Some h
         /\ os_settimeout os h timeout = Ok tt
         /\ os_recvfrom os h (Server.buffer_size s) = Ok (data, src).

(** The transport holds [wire] for a connected client or server: the one
    read the method makes returns as much of it as [buffer_size] takes. *)
Definition client_offered (os : socket_api) (s : Client.t) (timeout : Q) (wire : bytes)
  : Prop :=
  client_reads os s timeout (firstn (Z.to_nat (Client.buffer_size s)) wire).

Definition server_offered (os : socket_api) (s : Server.t) (timeout : Q) (wire : bytes)
  : Prop :=
  server_reads os s timeout (firstn (Z.to_nat (Server.buffer_size s)) wire).

(** The same for an open serial transport: the line read returns [data]. *)
Definition line_reads (api : serial_api) (s : Line.t) (timeout : Q) (data : bytes)
  : Prop :=
  exists sp,
    Line.open_port s = Some sp
    /\ Qle_bool 0 timeout = true /\ Qle_bool 0 (Serial.timeout sp) = true
    /\ (forall t, ser_reconfigure api t = Ok tt)
    /\ ser_readline api = Ok data.

End Reads.

End Scenarios.

(** ** Further environments *)

Module Answers.
Import Py Json Effects Scenarios.
Local Open Scope string_scope.

(** A socket API that answers [connect], [bind], [recv], [recvfrom] and
    [close] as given, and every other call as [os_fine] does. *)
Definition os_answers (connect bind : outcome unit) (recv : outcome bytes)
    (recvfrom : outcome (bytes * address)) (close : handle -> outcome unit) : socket_api :=
  {| os_socket := fun _ => Ok 7%nat;
     os_connect := fun _ _ => connect;
     os_setsockopt := fun _ => Ok tt;
     os_bind := fun _ _ => bind;
     os_listen := fun _ _ => Ok tt;
     os_accept := fun _ => Ok (8%nat, sample_peer);
     os_sendall := fun _ _ => Ok tt;
     os_sendto := fun _ _ _ => Ok tt;
     os_settimeout := fun _ _ => Ok tt;
     os_recv := fun _ _ => recv;
     os_recvfrom := fun _ _ => recvfrom;
     os_close := close |}.

(** A serial device that answers [reset_input_buffer], [write], [readline]
    and [read] as given, and every other call as [dev_fine] does. *)
Definition dev_answers (reset_input : outcome unit) (write : outcome Z)
    (readline read : outcome bytes) : serial_api :=
  {| ser_open := fun _ => Ok tt;
     ser_reset_input := reset_input;
     ser_reset_output := Ok tt;
     ser_write := fun _ => write;
     ser_flush := Ok tt;
     ser_reconfigure := fun _ => Ok tt;
     ser_readline := readline;
     ser_read := fun _ => read;
     ser_close := Ok tt;
     comports := Ok ["/dev/ttyUSB0"] |}.

(** A peer that refuses the connection, a peer that stays silent, a system
    that cannot close socket 7, and a device whose input buffer cannot be
    reset. *)
Definition os_refuses : socket_api :=
  os_answers (Raise OSError) (Ok tt) (Ok []) (Raise SocketTimeout) (fun _ => Ok tt).

Definition os_times_out : socket_api :=
  os_answers (Ok tt) (Ok tt) (Raise SocketTimeout) (Raise SocketTimeout)
             (fun _ => Ok tt).

Definition os_listener_stuck : socket_api :=
  os_answers (Ok tt) (Ok tt) (Ok []) (Raise SocketTimeout)
             (fun h => if Nat.eqb h 7 then Raise OSError else Ok tt).

Definition dev_reset_fails : serial_api :=
  dev_answers (Raise SerialException) (Ok 0%Z) (Ok []) (Ok []).

(** A UDP client as its constructor leaves it. *)
Definition udp_client : Client.t :=
  {| Client.is_connected := false; Client.host := "127.0.0.1"; Client.port := 9999;
     Client.protocol := "UDP"; Client.buffer_size := 4096; Client.socket := None |}.

(** A TCP server with one accepted connection. *)
Definition tcp_server : Server.t :=
  {| Server.is_connected := true; Server.host := "0.0.0.0"; Server.port := 8888;
     Server.protocol := "TCP"; Server.buffer_size := 4096;
     Server.server_socket := Some 7%nat; Server.client_socket := Some 8%nat;
     Server.client_address := Some sample_peer |}.

(** A TCP server and a serial transport as their constructors leave them. *)
Definition idle_server : Server.t :=
  {| Server.is_connected := false; Server.host := "0.0.0.0"; Server.port := 8888;
     Server.protocol := "TCP"; Server.buffer_size := 4096;
     Server.server_socket := None; Server.client_socket := None;
     Server.client_address := None |}.


End Answers.

(** ** [examples.py] *)

Module Examples.
Import Py Json Effects Scenarios.
Local Open Scope string_scope.



Section Scripts.
Context {PF : PyFloat} {PL : PyLimits}.

(** What a [print] is given: literal text, and the objects an f-string
    interpolates (a parsed value, a device name, the list of port names, the
    [hex()] of some bytes). *)
Inductive piece : Type :=
| Text (s : string)
| Shown (v : value)
| Name (s : string)
| Names (l : list string)
| Hex (b : bytes).

(** What an example does, in order: a line printed, the clock read, a
    pause, a call made by a method of a transport. *)
Inductive action : Type :=
| Print (line : list piece)
| Time
| Sleep (seconds : Q)
| Io (e : event).

(** The calls among the actions. *)
Fixpoint calls (acts : list action) : list event :=
  match acts with
  | [] => []
  | Io e :: rest => e :: calls rest
  | _ :: rest => calls rest
  end.

(** The body of an example: it acts on the one transport object it holds. *)
Definition script (St A : Type) : Type := St -> outcome A * St * list action.

Definition done {St A : Type} (a : A) : script St A := fun s => (Ok a, s, []).

Definition next {St A B : Type} (m : script St A) (f : A -> script St B) : script St B :=
  fun s =>
    match m s with
    | (Ok a, s1, t1) => let '(r, s2, t2) := f a s1 in (r, s2, (t1 ++ t2)%list)
    | (Raise e, s1, t1) => (Raise e, s1, t1)
    end.

Definition print {St : Type} (line : list piece) : script St unit :=
  fun s => (Ok tt, s, [Print line]).

(** [time.time()], answered by [now]; [time.sleep]. *)
Definition time_time {St : Type} (now : float) : script St float :=
  fun s => (Ok now, s, [Time]).

Definition time_sleep {St : Type} (seconds : Q) : script St unit :=
  fun s => (Ok tt, s, [Sleep seconds]).

(** The object itself, for reading an attribute. *)
Definition this {St : Type} : script St St := fun s => (Ok s, s, []).

(** A method called on the object. *)
Definition method {St A : Type} (m : py St A) : script St A :=
  fun s => let '(r, s1, t) := m s in (r, s1, map Io t).

(** [try: body  finally: final] *)
Definition try_finally {St A : Type} (body : script St A) (final : script St unit)
  : script St A :=
  fun s =>
    let '(r, s1, t1) := body s in
    match final s1 with
    | (Ok _, s2, t2) => (r, s2, (t1 ++ t2)%list)
    | (Raise e, s2, t2) => (Raise e, s2, (t1 ++ t2)%list)
    end.

(** The truth value of what a receive returned: [None], an empty container
    or string, zero and [False] are false. *)
Definition truthy (v : value) : bool :=
  match v with
  | VNull => false
  | VBool b => b
  | VInt z => negb (z =? 0)%Z
  | VFloat f => negb (float_eqb f (float_of_str (str "0")))
  | VStr s => match s with [] => false | _ => true end
  | VList l => match l with [] => false | _ => true end
  | VDict d => match d with [] => false | _ => true end
  end.

Definition received (r : option value) : bool :=
  match r with Some v => truthy v | None => false end.


End Scripts.

Declare Scope script_scope.
Delimit Scope script_scope with script.
Notation "x <- m ;; k" := (next m (fun x => k))
  (at level 61, m at next level, right associativity) : script_scope.
Notation "m ;; k" := (next m (fun _ => k))
  (at level 61, right associativity) : script_scope.
Local Open Scope script_scope.

Section Runs.
Context {PF : PyFloat} {PL : PyLimits}.


(** An example from the construction of its object on: nothing more happens
    when the constructor raises. *)
Definition with_object {St : Type} (before : list action) (made : outcome St)
    (body : script St unit) : outcome unit * list action :=
  match made with
  | Raise e => (Raise e, before)
  | Ok self => let '(r, _, t) := body self in (r, (before ++ t)%list)
  end.









End Runs.

End Examples.

(** ** The states an object can reach *)

Module Lifecycle.
Import Py Json Effects Scenarios.

#[local] Existing Instance Client.interface.
#[local] Existing Instance Server.interface.
#[local] Existing Instance Line.interface.

Section Reach.
Context {PF : PyFloat} {PL : PyLimits}.

(** The states of an object of each class: the one its constructor returns,
    and those a call of one of its methods leads to, whatever the operating
    system or the device answers.  (Attributes assigned from outside the
    class are not covered.) *)
Inductive client_reachable : Client.t -> Prop :=
| client_made host port protocol buffer_size s :
    Client.__init__ host port protocol buffer_size = Ok s -> client_reachable s
| client_connect s os :
    client_reachable s -> client_reachable (state (run (Client.connect os) s))
| client_disconnect s os :
    client_reachable s -> client_reachable (state (run (Client.disconnect os) s))
| client_send_command s command os :
    client_reachable s ->
    client_reachable (state (run (Client.send_command command os) s))
| client_receive_data s timeout os :
    client_reachable s ->
    client_reachable (state (run (Client.receive_data timeout os) s))
| client_check_connection s :
    client_reachable s ->
    client_reachable (state (run TeleopInterface.check_connection s)).

Inductive server_reachable : Server.t -> Prop :=
| server_made host port protocol buffer_size s :
    Server.__init__ host port protocol buffer_size = Ok s -> server_reachable s
| server_connect s os :
    server_reachable s -> server_reachable (state (run (Server.connect os) s))
| server_disconnect s os :
    server_reachable s -> server_reachable (state (run (Server.disconnect os) s))
| server_send_command s command os :
    server_reachable s ->
    server_reachable (state (run (Server.send_command command os) s))
| server_receive_data s timeout os :
    server_reachable s ->
    server_reachable (state (run (Server.receive_data timeout os) s))
| server_check_connection s :
    server_reachable s ->
    server_reachable (state (run TeleopInterface.check_connection s)).

Inductive line_reachable : Line.t -> Prop :=
| line_made port baudrate timeout bytesize parity stopbits s :
    Line.__init__ port baudrate timeout bytesize parity stopbits = Ok s ->
    line_reachable s
| line_connect s api :
    line_reachable s -> line_reachable (state (run (Line.connect api) s))
| line_disconnect s api :
    line_reachable s -> line_reachable (state (run (Line.disconnect api) s))
| line_send_command s command api :
    line_reachable s -> line_reachable (state (run (Line.send_command command api) s))
| line_receive_data s timeout api :
    line_reachable s -> line_reachable (state (run (Line.receive_data timeout api) s))
| line_send_raw_bytes s data api :
    line_reachable s -> line_reachable (state (run (Line.send_raw_bytes data api) s))
| line_receive_raw_bytes s size timeout api :
    line_reachable s ->
    line_reachable (state (run (Line.receive_raw_bytes size timeout api) s))
| line_clear_buffers s api :
    line_reachable s -> line_reachable (state (run (Line.clear_buffers api) s))
| line_check_connection s :
    line_reachable s ->
    line_reachable (state (run TeleopInterface.check_connection s)).

End Reach.

End Lifecycle.

(** ** Proof automation *)

Module Tactics.
Import Py Json JsonSpec Effects Scenarios.
Local Open Scope N_scope.

(** Boolean comparisons on code points, turned into arithmetic facts. *)
Ltac nprop :=
  repeat match goal with
  | H : _ && _ = true |- _ => apply andb_prop in H; destruct H
  | H : _ || _ = false |- _ => apply orb_false_elim in H; destruct H
  | H : negb _ = true |- _ => apply negb_true_iff in H
  | H : negb _ = false |- _ => apply negb_false_iff in H
  | H : (_ <=? _) = true |- _ => apply N.leb_le in H
  | H : (_ <=? _) = false |- _ => apply N.leb_gt in H
  | H : (_ <? _) = true |- _ => apply N.ltb_lt in H
  | H : (_ <? _) = false |- _ => apply N.ltb_ge in H
  | H : (_ =? _) = true |- _ => apply N.eqb_eq in H
  | H : (_ =? _) = false |- _ => apply N.eqb_neq in H
  end.

(** Case analysis on the comparisons of the goal, keeping the feasible
    branches. *)
Ltac ncase :=
  repeat match goal with
  | |- context [?a =? ?b] => destruct (N.eqb_spec a b); try lia
  | |- context [?a <=? ?b] => destruct (N.leb_spec a b); try lia
  | |- context [?a <? ?b] => destruct (N.ltb_spec a b); try lia
  end.

Ltac divlia := zify; Z.to_euclidean_division_equations; lia.

Ltac fuel_lia :=
  cbn [need] in *; unfold list_sum in *; cbn [List.length map fold_right snd] in *; lia.

Ltac side := first [ reflexivity | fuel_lia ].

(** Unfolds a method down to the monad's primitives and computes. *)
Ltac step :=
  unfold run, result, state, trace, TeleopInterface.check_connection,
    Client.connect, Client.disconnect, Client.send_command, Client.receive_data,
    Server.connect, Server.disconnect, Server.send_command, Server.receive_data,
    Server.on_socket,
    Line.connect, Line.disconnect, Line.send_command, Line.receive_data,
    Line.send_raw_bytes, Line.receive_raw_bytes, Line.clear_buffers,
    Line.list_available_ports, Line.global_name, Line.open_port,
    Line.set_port_timeout, Line.close_port, Serial.create,
    settimeout, recv, recvfrom,
    try_except, bind, ret, raise, get, modify, lift, call, log in *;
  cbn in *.

(** Case analysis on the answers of the outside world that the goal
    depends on. *)
Ltac outcomes :=
  repeat match goal with
  | |- context [match ?o with Ok _ => _ | Raise _ => _ end] =>
    destruct o as [?|?] eqn:?; cbn in *
  end.

(** Exposes the fields of the object the goal is about. *)
Ltac open_state :=
  match goal with
  | s : Client.t |- _ => destruct s as [? ? ? ? ? [?|]]
  | s : Server.t |- _ => destruct s as [? ? ? ? ? [?|] [?|] [?|]]
  | s : Line.t |- _ => destruct s as [? ? ? ? ? ? ? [[[] ?]|]]
  end.

(** Follows every branch the method can take. *)
Ltac branches :=
  repeat first
    [ progress outcomes
    | match goal with
      | |- context [if ?b then _ else _] => destruct b eqn:?; cbn in *
      | e : exn |- context [match ?x with ValueError => _ | _ => _ end] =>
        constr_eq e x; destruct e; cbn in *
      end ].

Ltac settle :=
  cbv zeta; intros;
  repeat match goal with r := _ |- _ => subst r end;
  open_state; step; subst; branches; intros;
  first [ reflexivity | congruence | solve [auto] ].

(** Every branch, the empty and the non-empty read included. *)
Ltac paths :=
  repeat first
    [ progress branches
    | match goal with
      | |- context [match ?d with [] => _ | _ :: _ => _ end] =>
        destruct d eqn:?; cbn in *
      end ].

End Tactics.

(** ** Facts about the JSON codec *)

Module JsonFacts.
Import Py Json JsonSpec Tactics.
Unset Implicit Arguments.

Local Open Scope N_scope.

Lemma span_app (p : N -> bool) (a rest : pystr) :
  forallb p a = true ->
  match rest with [] => True | c :: _ => p c = false end ->
  span p (a ++ rest) = (a, rest).
Proof.
  induction a as [|x a IH]; simpl; intros Ha Hr.
  - destruct rest as [|c r]; [reflexivity|]. simpl. now rewrite Hr.
  - apply andb_prop in Ha as [Hx Ha]. now rewrite Hx, IH.
Qed.

Lemma span_concat (p : N -> bool) (s : pystr) :
  fst (span p s) ++ snd (span p s) = s.
Proof.
  induction s as [|c s IH]; simpl; [reflexivity|].
  destruct (p c); [|reflexivity].
  destruct (span p s) as [a b]. simpl in *. now rewrite IH.
Qed.

Lemma span_forallb (p : N -> bool) (s : pystr) :
  forallb p (fst (span p s)) = true.
Proof.
  induction s as [|c s IH]; simpl; [reflexivity|].
  destruct (p c) eqn:E; [|reflexivity].
  destruct (span p s) as [a b]. simpl in *. now rewrite E.
Qed.

(** *** Integers *)

Lemma digits_of_uint_digits d : forallb is_digit (digits_of_uint d) = true.
Proof. induction d; simpl; auto. Qed.

Lemma uint_of_digits_of_uint d : uint_of_digits (digits_of_uint d) = d.
Proof. induction d; simpl; congruence. Qed.

Lemma nzhead_head d :
  match Decimal.nzhead d with Decimal.D0 _ => False | _ => True end.
Proof. induction d; simpl; auto. Qed.

Lemma pos_digits_head p :
  exists c t, digits_of_uint (Pos.to_uint p) = c :: t /\ is_digit19 c = true.
Proof.
  assert (E : Pos.to_uint p = Decimal.unorm (Pos.to_uint p)).
  { rewrite <- (DecimalPos.Unsigned.to_of (Pos.to_uint p)).
    now rewrite DecimalPos.Unsigned.of_to. }
  unfold Decimal.unorm in E.
  pose proof (nzhead_head (Pos.to_uint p)) as Hh.
  destruct (Decimal.nzhead (Pos.to_uint p)) eqn:Hn;
    try contradiction; try (rewrite E; simpl; eauto; fail).
  now apply DecimalPos.Unsigned.to_uint_nonzero in E.
Qed.

Lemma ends_number_digit rest :
  ends_number rest = true ->
  match rest with [] => True | c :: _ => is_digit c = false end.
Proof.
  destruct rest as [|c r]; simpl; [trivial|]. intros H.
  apply negb_true_iff in H. now nprop.
Qed.

Lemma match_frac_end rest : ends_number rest = true -> match_frac rest = ([], rest).
Proof.
  destruct rest as [|c r]; simpl; [reflexivity|]. intros H.
  apply negb_true_iff in H. nprop. now ncase.
Qed.

Lemma match_exp_end rest : ends_number rest = true -> match_exp rest = ([], rest).
Proof.
  destruct rest as [|c r]; simpl; [reflexivity|]. intros H.
  apply negb_true_iff in H. nprop. unfold match_exp. now ncase.
Qed.

Lemma match_integer_digits c t rest :
  is_digit19 c = true -> forallb is_digit t = true -> ends_number rest = true ->
  match_integer (c :: t ++ rest) = Some (c :: t, rest)
  /\ match_integer (45 :: c :: t ++ rest) = Some (45 :: c :: t, rest).
Proof.
  intros Hc Ht Hr. unfold is_digit19 in Hc. nprop.
  pose proof (span_app is_digit t rest Ht (ends_number_digit rest Hr)) as Hs.
  unfold match_integer, is_digit19.
  split; simpl; ncase; simpl; now rewrite Hs.
Qed.

Lemma match_number_int z rest :
  ends_number rest = true ->
  match_number (int_repr z ++ rest) = Some (int_repr z, [], [], rest).
Proof.
  intros Hr. unfold match_number.
  destruct z as [|p|p]; simpl int_repr.
  - simpl. now rewrite (match_frac_end _ Hr), (match_exp_end _ Hr).
  - pose proof (digits_of_uint_digits (Pos.to_uint p)) as Hd.
    destruct (pos_digits_head p) as (c & t & E & Hc). rewrite E in *.
    simpl in Hd. apply andb_prop in Hd as [_ Hd].
    rewrite <- app_comm_cons.
    rewrite (proj1 (match_integer_digits c t rest Hc Hd Hr)).
    now rewrite (match_frac_end _ Hr), (match_exp_end _ Hr).
  - pose proof (digits_of_uint_digits (Pos.to_uint p)) as Hd.
    destruct (pos_digits_head p) as (c & t & E & Hc). rewrite E in *.
    simpl in Hd. apply andb_prop in Hd as [_ Hd].
    rewrite <- !app_comm_cons.
    rewrite (proj2 (match_integer_digits c t rest Hc Hd Hr)).
    now rewrite (match_frac_end _ Hr), (match_exp_end _ Hr).
Qed.

Lemma parse_int_repr z : parse_int (int_repr z) = z.
Proof.
  assert (Hp : forall p,
    N.of_uint (uint_of_digits (digits_of_uint (Pos.to_uint p))) = N.pos p).
  { intros p. rewrite uint_of_digits_of_uint. apply DecimalPos.Unsigned.of_to. }
  destruct z as [|p|p]; [reflexivity| |].
  - unfold int_repr, parse_int.
    destruct (pos_digits_head p) as (c & t & E & Hc).
    specialize (Hp p). rewrite E in *.
    unfold is_digit19 in Hc. nprop.
    destruct (N.eqb_spec c 45); [lia|]. now rewrite Hp.
  - unfold int_repr, parse_int. simpl. now rewrite Hp.
Qed.

(** *** Strings *)

Lemma lor_disjoint x y k : y < 2 ^ k -> N.lor (x * 2 ^ k) y = x * 2 ^ k + y.
Proof.
  intros Hy.
  assert (H0 : N.land (x * 2 ^ k) y = 0).
  { apply N.bits_inj. intros i. rewrite N.land_spec, N.bits_0.
    destruct (N.lt_ge_cases i k) as [Hi|Hi].
    - now rewrite N.mul_pow2_bits_low.
    - rewrite <- (N.mod_small y (2 ^ k)) by assumption.
      rewrite N.mod_pow2_bits_high by assumption. apply andb_false_r. }
  now rewrite N.add_nocarry_lxor, N.lxor_lor.
Qed.

Lemma nibble n k : N.land (N.shiftr n k) 15 = (n / 2 ^ k) mod 16.
Proof. change 15 with (N.ones 4). now rewrite N.land_ones, N.shiftr_div_pow2. Qed.

Lemma unhex_hexdigit d : d < 16 -> unhex (hexdigit d) = Some d.
Proof.
  intros Hd. unfold unhex, hexdigit.
  destruct (N.ltb_spec d 10); cbv iota; ncase; cbn [andb]; f_equal; lia.
Qed.

Lemma decode_hex4 n :
  n < 0x10000 ->
  decode_uXXXX (hexdigit (N.land (N.shiftr n 12) 15)) (hexdigit (N.land (N.shiftr n 8) 15))
               (hexdigit (N.land (N.shiftr n 4) 15)) (hexdigit (N.land n 15))
  = Some n.
Proof.
  intros Hn. unfold decode_uXXXX.
  replace (N.land n 15) with (N.land (N.shiftr n 0) 15) by now rewrite N.shiftr_0_r.
  rewrite !nibble.
  change (2 ^ 12) with 4096. change (2 ^ 8) with 256. change (2 ^ 4) with 16.
  change (2 ^ 0) with 1.
  rewrite !unhex_hexdigit by (apply N.mod_lt; discriminate).
  f_equal. divlia.
Qed.

Lemma scanstring_u h1 h2 h3 h4 s6 :
  scanstring (92 :: 117 :: h1 :: h2 :: h3 :: h4 :: s6)
  = match decode_uXXXX h1 h2 h3 h4 with
    | None => None
    | Some uni =>
      if is_high_surrogate uni then
        match s6 with
        | b :: u :: g1 :: g2 :: g3 :: g4 :: s12 =>
          if (b =? 92) && (u =? 117) then
            match decode_uXXXX g1 g2 g3 g4 with
            | None => None
            | Some uni2 =>
              if is_low_surrogate uni2
              then prepend (0x10000 + N.lor (N.shiftl (uni - 0xd800) 10) (uni2 - 0xdc00))
                           (scanstring s12)
              else prepend uni (scanstring s6)
            end
          else prepend uni (scanstring s6)
        | _ => prepend uni (scanstring s6)
        end
      else prepend uni (scanstring s6)
    end.
Proof. reflexivity. Qed.

(** The two halves of the surrogate pair the encoder writes for a code point
    above the basic plane. *)
Lemma surrogate_pair c :
  0x10000 <= c -> c < 0x110000 ->
  let n := c - 0x10000 in
  N.lor 0xd800 (N.land (N.shiftr n 10) 0x3ff) = 0xd800 + n / 1024
  /\ N.lor 0xdc00 (N.land n 0x3ff) = 0xdc00 + n mod 1024
  /\ n / 1024 < 1024.
Proof.
  intros Hlo Hhi n.
  assert (Hn : n < 0x100000) by (unfold n; lia).
  change 0x3ff with (N.ones 10). rewrite !N.land_ones, N.shiftr_div_pow2.
  change (2 ^ 10) with 1024.
  assert (Hq : n / 1024 < 1024) by divlia.
  rewrite (N.mod_small (n / 1024)) by assumption.
  change 0xd800 with (54 * 2 ^ 10). change 0xdc00 with (55 * 2 ^ 10).
  rewrite !lor_disjoint; change (2 ^ 10) with 1024;
    auto using N.mod_lt; try (apply N.mod_lt; discriminate).
Qed.

Lemma scanstring_escape c tail t r :
  scalar c = true ->
  scanstring tail = Some (t, r) ->
  scanstring (escape_char c ++ tail) = Some (c :: t, r).
Proof.
  intros Hc Ht. unfold scalar, is_surrogate in Hc. nprop.
  unfold escape_char.
  destruct (N.eqb_spec c 92); [subst; simpl; now rewrite Ht|].
  destruct (N.eqb_spec c 34); [subst; simpl; now rewrite Ht|].
  destruct (N.eqb_spec c 8); [subst; simpl; now rewrite Ht|].
  destruct (N.eqb_spec c 12); [subst; simpl; now rewrite Ht|].
  destruct (N.eqb_spec c 10); [subst; simpl; now rewrite Ht|].
  destruct (N.eqb_spec c 13); [subst; simpl; now rewrite Ht|].
  destruct (N.eqb_spec c 9); [subst; simpl; now rewrite Ht|].
  destruct ((32 <=? c) && (c <=? 126)) eqn:Hp; cbv iota.
  - nprop. cbn [app scanstring]. ncase. now rewrite Ht.
  - destruct (N.ltb_spec c 0x10000) as [Hb|Hb]; cbv iota.
    + unfold hex4. cbn [app].
      rewrite scanstring_u, decode_hex4 by assumption.
      replace (is_high_surrogate c) with false.
      * now rewrite Ht.
      * symmetry. unfold is_high_surrogate.
        destruct (N.leb_spec 0xd800 c); simpl; [|reflexivity].
        destruct (N.leb_spec c 0xdbff); [|reflexivity].
        destruct (N.leb_spec 0xd800 c); [|lia].
        destruct (N.leb_spec c 0xdfff); [discriminate|lia].
    + destruct (surrogate_pair c Hb H) as (E1 & E2 & Hq).
      cbv zeta. rewrite E1, E2. unfold hex4. cbn [app].
      rewrite scanstring_u, decode_hex4 by divlia.
      replace (is_high_surrogate (0xd800 + (c - 0x10000) / 1024)) with true
        by (symmetry; unfold is_high_surrogate; apply andb_true_intro; split;
            [apply N.leb_le|apply N.leb_le]; divlia).
      replace ((92 =? 92) && (117 =? 117)) with true by reflexivity.
      assert (Hm : (c - 0x10000) mod 1024 < 1024) by (apply N.mod_lt; discriminate).
      rewrite decode_hex4 by divlia.
      replace (is_low_surrogate (0xdc00 + (c - 0x10000) mod 1024)) with true
        by (symmetry; unfold is_low_surrogate; apply andb_true_intro; split;
            [apply N.leb_le|apply N.leb_le]; divlia).
      rewrite Ht. unfold prepend.
      replace (0xd800 + (c - 0x10000) / 1024 - 0xd800) with ((c - 0x10000) / 1024) by divlia.
      replace (0xdc00 + (c - 0x10000) mod 1024 - 0xdc00) with ((c - 0x10000) mod 1024) by divlia.
      rewrite N.shiftl_mul_pow2, lor_disjoint by exact Hm.
      do 3 f_equal. change (2 ^ 10) with 1024. divlia.
Qed.

Lemma scanstring_body s rest :
  is_text s = true ->
  scanstring (flat_map escape_char s ++ 34 :: rest) = Some (s, rest).
Proof.
  induction s as [|c s IH]; intros Hs.
  - reflexivity.
  - simpl in Hs. apply andb_prop in Hs as [Hc Hs].
    simpl flat_map. rewrite <- app_assoc.
    apply scanstring_escape; auto.
Qed.

(** *** Numbers in context *)

Lemma span_app_end (p : N -> bool) (a rest : pystr) :
  match rest with [] => True | c :: _ => p c = false end ->
  span p (a ++ rest) = (fst (span p a), snd (span p a) ++ rest).
Proof.
  intros Hr. induction a as [|x a IH]; simpl.
  - destruct rest as [|c r]; [reflexivity|]. simpl. now rewrite Hr.
  - destruct (p x); [|reflexivity]. rewrite IH. now destruct (span p a).
Qed.

Lemma match_frac_app r0 rest :
  ends_number rest = true ->
  match_frac (r0 ++ rest) = (fst (match_frac r0), snd (match_frac r0) ++ rest).
Proof.
  intros Hr. destruct r0 as [|c r].
  - simpl app. now rewrite match_frac_end.
  - simpl. destruct (c =? 46); [|reflexivity].
    rewrite (span_app_end is_digit r rest (ends_number_digit rest Hr)).
    destruct (span is_digit r) as [ds r']. simpl.
    now destruct (nonempty ds).
Qed.

Lemma match_exp_app r1 rest :
  ends_number rest = true ->
  match_exp (r1 ++ rest) = (fst (match_exp r1), snd (match_exp r1) ++ rest).
Proof.
  intros Hr. pose proof (ends_number_digit rest Hr) as Hd.
  destruct r1 as [|e r].
  - simpl app. now rewrite match_exp_end.
  - unfold match_exp. rewrite <- app_comm_cons.
    destruct ((e =? 101) || (e =? 69)); [|reflexivity].
    destruct r as [|g r'].
    + simpl app. destruct rest as [|c rest']; [reflexivity|].
      simpl in Hr, Hd. apply negb_true_iff in Hr.
      apply orb_false_elim in Hr as [Hr H45].
      apply orb_false_elim in Hr as [Hr H43].
      rewrite H45, H43. cbn [orb]. simpl span. now rewrite Hd.
    + rewrite <- app_comm_cons.
      destruct ((g =? 45) || (g =? 43)).
      * rewrite (span_app_end is_digit r' rest Hd).
        destruct (span is_digit r') as [ds r2]. simpl. now destruct (nonempty ds).
      * rewrite app_comm_cons, (span_app_end is_digit (g :: r') rest Hd).
        destruct (span is_digit (g :: r')) as [ds r2]. simpl. now destruct (nonempty ds).
Qed.

Lemma match_integer_app s rest i r0 :
  ends_number rest = true ->
  match_integer s = Some (i, r0) ->
  match_integer (s ++ rest) = Some (i, r0 ++ rest).
Proof.
  intros Hr. pose proof (ends_number_digit rest Hr) as Hd.
  assert (Hbody : forall sign s1,
    match s1 with
    | d :: s2 =>
      if d =? 48 then Some (sign ++ [d], s2)
      else if is_digit19 d then
        let (ds, s3) := span is_digit s2 in Some (sign ++ d :: ds, s3)
      else None
    | [] => None
    end = Some (i, r0) ->
    match s1 ++ rest with
    | d :: s2 =>
      if d =? 48 then Some (sign ++ [d], s2)
      else if is_digit19 d then
        let (ds, s3) := span is_digit s2 in Some (sign ++ d :: ds, s3)
      else None
    | [] => None
    end = Some (i, r0 ++ rest)).
  { intros sign [|d s2]; [discriminate|]. rewrite <- app_comm_cons.
    destruct (d =? 48); [now intros [= <- <-]|].
    destruct (is_digit19 d); [|discriminate].
    rewrite (span_app_end is_digit s2 rest Hd).
    destruct (span is_digit s2) as [ds s3]. now intros [= <- <-]. }
  unfold match_integer. destruct s as [|c r].
  - discriminate.
  - rewrite <- app_comm_cons. destruct (c =? 45).
    + apply (Hbody [c] r).
    + apply (Hbody [] (c :: r)).
Qed.

Lemma match_number_app s rest i fr ex :
  ends_number rest = true ->
  match_number s = Some (i, fr, ex, []) ->
  match_number (s ++ rest) = Some (i, fr, ex, rest).
Proof.
  intros Hr. unfold match_number.
  destruct (match_integer s) as [[i0 r0]|] eqn:Hi; [|discriminate].
  rewrite (match_integer_app s rest i0 r0 Hr Hi), (match_frac_app r0 rest Hr).
  destruct (match_frac r0) as [fr0 r1]. cbn [fst snd].
  rewrite (match_exp_app r1 rest Hr).
  destruct (match_exp r1) as [ex0 r2]. cbn [fst snd].
  now intros [= <- <- <- ->].
Qed.

Lemma digits_numchar l : forallb is_digit l = true -> forallb numchar l = true.
Proof.
  induction l as [|c l IH]; [reflexivity|]. simpl. intros H.
  apply andb_prop in H as [Hc Hl]. unfold numchar at 1. now rewrite Hc, IH.
Qed.

Lemma span_digits_numchar s : forallb numchar (fst (span is_digit s)) = true.
Proof. apply digits_numchar, span_forallb. Qed.

Lemma match_frac_spec s :
  fst (match_frac s) ++ snd (match_frac s) = s
  /\ forallb numchar (fst (match_frac s)) = true.
Proof.
  destruct s as [|c r]; [now split|]. simpl.
  destruct (N.eqb_spec c 46); [|now split].
  pose proof (span_concat is_digit r) as Hc.
  pose proof (span_digits_numchar r) as Hn.
  destruct (span is_digit r) as [ds r']. simpl in *.
  destruct (nonempty ds); [|now split]. subst c. simpl. now rewrite Hc, Hn.
Qed.

Lemma match_exp_spec s :
  fst (match_exp s) ++ snd (match_exp s) = s
  /\ forallb numchar (fst (match_exp s)) = true.
Proof.
  destruct s as [|e r]; [now split|]. unfold match_exp.
  destruct ((e =? 101) || (e =? 69)) eqn:He; [|now split].
  assert (Hne : numchar e = true).
  { unfold numchar. apply orb_prop in He as [He|He]; rewrite He;
      rewrite ?orb_true_r; reflexivity. }
  destruct r as [|g r'].
  - simpl. now split.
  - destruct ((g =? 45) || (g =? 43)) eqn:Hg.
    + pose proof (span_concat is_digit r') as Hc.
      pose proof (span_digits_numchar r') as Hn.
      destruct (span is_digit r') as [ds r2]. simpl in *.
      destruct (nonempty ds); [|now split]. simpl. rewrite Hc, Hne, Hn.
      split; [reflexivity|].
      unfold numchar. apply orb_prop in Hg as [Hg|Hg]; rewrite Hg;
        rewrite ?orb_true_r; reflexivity.
    + pose proof (span_concat is_digit (g :: r')) as Hc.
      pose proof (span_digits_numchar (g :: r')) as Hn.
      destruct (span is_digit (g :: r')) as [ds r2]. cbn [fst snd] in *.
      destruct (nonempty ds); [|now split]. cbn [fst snd app].
      rewrite Hc. split; [reflexivity|]. simpl. now rewrite Hne, Hn.
Qed.

Lemma match_integer_spec s i r0 :
  match_integer s = Some (i, r0) ->
  i ++ r0 = s
  /\ forallb numchar i = true
  /\ exists c t, i = c :: t /\ (c = 45 \/ is_digit c = true).
Proof.
  assert (H19 : forall d, is_digit19 d = true -> is_digit d = true).
  { intros d Hd. unfold is_digit19, is_digit in *. nprop.
    apply andb_true_intro. split; apply N.leb_le; lia. }
  assert (Hbody : forall sign s1,
    forallb numchar sign = true ->
    match s1 with
    | d :: s2 =>
      if d =? 48 then Some (sign ++ [d], s2)
      else if is_digit19 d then
        let (ds, s3) := span is_digit s2 in Some (sign ++ d :: ds, s3)
      else None
    | [] => None
    end = Some (i, r0) ->
    i ++ r0 = sign ++ s1 /\ forallb numchar i = true
    /\ exists d t, i = sign ++ d :: t /\ is_digit d = true).
  { intros sign [|d s2] Hs; [discriminate|].
    destruct (N.eqb_spec d 48).
    - intros [= <- <-]. subst d. rewrite <- app_assoc. split; [reflexivity|].
      rewrite forallb_app, Hs. split; [reflexivity|]. now exists 48, [].
    - destruct (is_digit19 d) eqn:Hd; [|discriminate].
      pose proof (span_concat is_digit s2) as Hc.
      pose proof (span_digits_numchar s2) as Hn.
      destruct (span is_digit s2) as [ds s3]. simpl in Hc, Hn.
      intros [= <- <-]. rewrite <- app_assoc, <- app_comm_cons, Hc.
      split; [reflexivity|]. rewrite forallb_app, Hs. simpl. rewrite Hn.
      unfold numchar at 1. rewrite (H19 d Hd). split; [reflexivity|].
      exists d, ds. auto. }
  unfold match_integer. destruct s as [|c r]; [discriminate|].
  destruct (N.eqb_spec c 45) as [->|Hc]; intros Hm.
  - destruct (Hbody [45] r eq_refl Hm) as (E & Hn & d & t & Ei & _).
    repeat split; auto. exists 45, (d :: t). auto.
  - destruct (Hbody [] (c :: r) eq_refl Hm) as (E & Hn & d & t & Ei & Hd).
    repeat split; auto. exists d, t. auto.
Qed.

Lemma match_number_spec s i fr ex r :
  match_number s = Some (i, fr, ex, r) ->
  i ++ fr ++ ex ++ r = s
  /\ forallb numchar (i ++ fr ++ ex) = true
  /\ exists c t, i = c :: t /\ (c = 45 \/ is_digit c = true).
Proof.
  unfold match_number.
  destruct (match_integer s) as [[i0 r0]|] eqn:Hi; [|discriminate].
  destruct (match_integer_spec s i0 r0 Hi) as (Ei & Hni & Hh).
  destruct (match_frac_spec r0) as [Ef Hnf].
  destruct (match_frac r0) as [fr0 r1]. cbn [fst snd] in *.
  destruct (match_exp_spec r1) as [Ee Hne].
  destruct (match_exp r1) as [ex0 r2]. cbn [fst snd] in *.
  intros [= <- <- <- <-]. rewrite Ee, Ef, Ei.
  rewrite !forallb_app, Hni, Hnf, Hne. auto.
Qed.

(** *** Representable values and the round trip through text *)

Section Roundtrip.
Context {PF : PyFloat} {PFS : PyFloatSpec} {PL : PyLimits}.

Lemma floatstr_finite f : finite f = true -> floatstr f = float_repr f.
Proof.
  unfold finite, floatstr. intros H.
  apply andb_prop in H as [H H3]. apply andb_prop in H as [H1 H2].
  apply negb_true_iff in H2, H3. now rewrite H1, H2, H3.
Qed.

Lemma numchar_printable c : numchar c = true -> printable c = true.
Proof.
  unfold numchar, is_digit, printable. intros H.
  repeat (apply orb_prop in H as [H|H]); nprop; subst;
    apply andb_true_intro; split; apply N.leb_le; lia.
Qed.

Lemma numchar_start c : c = 45 \/ is_digit c = true -> value_start c = true.
Proof.
  unfold value_start. intros [->|H]; [reflexivity|].
  rewrite H. now rewrite orb_true_r.
Qed.

Lemma hexdigit_printable d : d < 16 -> printable (hexdigit d) = true.
Proof.
  intros Hd. unfold hexdigit, printable.
  destruct (N.ltb_spec d 10); apply andb_true_intro; split; apply N.leb_le; lia.
Qed.

Lemma hex4_printable n : forallb printable (hex4 n) = true.
Proof.
  unfold hex4.
  replace (N.land n 15) with (N.land (N.shiftr n 0) 15) by now rewrite N.shiftr_0_r.
  rewrite !nibble. cbn [forallb].
  rewrite !hexdigit_printable by (apply N.mod_lt; discriminate). reflexivity.
Qed.

Lemma escape_char_printable c : forallb printable (escape_char c) = true.
Proof.
  unfold escape_char.
  repeat match goal with
  | |- context [if ?a =? ?b then _ else _] => destruct (a =? b); [reflexivity|]
  end.
  destruct ((32 <=? c) && (c <=? 126)) eqn:Hp.
  - cbn [forallb]. unfold printable. now rewrite Hp.
  - destruct (c <? 0x10000); cbv zeta;
      rewrite ?forallb_app; cbn [forallb]; rewrite ?hex4_printable; reflexivity.
Qed.

Lemma encode_basestring_printable s :
  forallb printable (encode_basestring_ascii s) = true.
Proof.
  unfold encode_basestring_ascii. cbn [forallb].
  rewrite forallb_app. cbn [forallb].
  replace (forallb printable (flat_map escape_char s)) with true; [reflexivity|].
  symmetry. induction s as [|c s IH]; [reflexivity|].
  cbn [flat_map]. now rewrite forallb_app, escape_char_printable, IH.
Qed.

Lemma float_repr_spec f :
  finite f = true ->
  exists integer frac exp,
    match_number (float_repr f) = Some (integer, frac, exp, [])
    /\ nonempty frac || nonempty exp = true
    /\ integer ++ frac ++ exp = float_repr f.
Proof.
  intros Hf. destruct (repr_number f Hf) as (i & fr & ex & Hm & Hn).
  exists i, fr, ex. repeat split; auto.
  destruct (match_number_spec _ _ _ _ _ Hm) as (E & _ & _).
  now rewrite app_nil_r in E.
Qed.

Lemma join_items_printable (A : Type) (f : A -> pystr) (l : list A) :
  Forall (fun x => forallb printable (f x) = true) l ->
  forallb printable (join_items f l) = true.
Proof.
  intros H. destruct H as [|x r Hx Hr]; [reflexivity|].
  cbn [join_items]. rewrite forallb_app, Hx. cbn [andb].
  induction Hr as [|y r Hy Hr IH]; [reflexivity|].
  cbn [flat_map app forallb]. now rewrite forallb_app, Hy, IH.
Qed.

Lemma dumps_printable v :
  representable v = true -> forallb printable (dumps v) = true.
Proof.
  induction v as [| b | z | f | s | l IH | d IH] using value_ind'; intros Hv.
  - reflexivity.
  - now destruct b.
  - cbn [dumps].
    pose proof (match_number_int z [] eq_refl) as Hm. rewrite app_nil_r in Hm.
    destruct (match_number_spec _ _ _ _ _ Hm) as (_ & Hn & _).
    rewrite !app_nil_r in Hn.
    clear Hm. induction (int_repr z) as [|c t IHt]; [reflexivity|].
    cbn [forallb] in *. apply andb_prop in Hn as [Hc Ht].
    now rewrite (numchar_printable c Hc), IHt.
  - cbn [dumps representable] in *. rewrite floatstr_finite by assumption.
    destruct (float_repr_spec f Hv) as (i & fr & ex & Hm & _ & E).
    destruct (match_number_spec _ _ _ _ _ Hm) as (_ & Hn & _).
    rewrite <- E. clear E Hm.
    induction (i ++ fr ++ ex) as [|c t IHt]; [reflexivity|].
    cbn [forallb] in *. apply andb_prop in Hn as [Hc Ht].
    now rewrite (numchar_printable c Hc), IHt.
  - apply encode_basestring_printable.
  - cbn [dumps representable forallb] in *.
    rewrite forallb_app. cbn [forallb]. rewrite andb_true_r.
    apply join_items_printable.
    rewrite forallb_forall in Hv. rewrite Forall_forall in *.
    intros x Hx. auto.
  - cbn [dumps representable forallb] in *.
    apply andb_prop in Hv as [_ Hv].
    rewrite forallb_app. cbn [forallb]. rewrite andb_true_r.
    apply join_items_printable.
    rewrite forallb_forall in Hv. rewrite Forall_forall in *.
    intros kv Hkv. specialize (Hv kv Hkv). apply andb_prop in Hv as [_ Hv].
    rewrite forallb_app, encode_basestring_printable. cbn [forallb andb].
    change (printable 58) with true. change (printable 32) with true.
    cbn [andb]. auto.
Qed.

Lemma dumps_start v :
  representable v = true ->
  exists c t, dumps v = c :: t /\ value_start c = true.
Proof.
  destruct v as [| b | z | f | s | l | d]; intros Hv.
  - now exists 110, (str "ull").
  - destruct b; [now exists 116, (str "rue")|now exists 102, (str "alse")].
  - pose proof (match_number_int z [] eq_refl) as Hm. rewrite app_nil_r in Hm.
    destruct (match_number_spec _ _ _ _ _ Hm) as (_ & _ & c & t & E & Hc).
    exists c, t. split; [exact E|now apply numchar_start].
  - cbn [dumps representable] in *. rewrite floatstr_finite by assumption.
    destruct (float_repr_spec f Hv) as (i & fr & ex & Hm & _ & E).
    destruct (match_number_spec _ _ _ _ _ Hm) as (_ & _ & c & t & Ei & Hc).
    exists c, (t ++ fr ++ ex). rewrite <- E, Ei. split; [reflexivity|].
    now apply numchar_start.
  - now exists 34, (flat_map escape_char s ++ [34]).
  - eexists 91, _. split; reflexivity.
  - eexists 123, _. split; reflexivity.
Qed.

Lemma value_start_facts c :
  value_start c = true -> is_ws c = false /\ c <> 93.
Proof.
  unfold value_start, is_ws, is_digit. intros H.
  repeat (apply orb_prop in H as [H|H]); nprop; subst; try (split; [reflexivity|lia]).
  split; [|lia]. now ncase.
Qed.

Lemma skip_ws_start c s : is_ws c = false -> skip_ws (c :: s) = c :: s.
Proof. intros H. unfold skip_ws. simpl. now rewrite H. Qed.

Lemma skip_ws_space s : skip_ws (32 :: s) = skip_ws s.
Proof. unfold skip_ws. simpl. now destruct (span is_ws s). Qed.

Lemma skip_ws_dumps v rest :
  representable v = true -> skip_ws (dumps v ++ rest) = dumps v ++ rest.
Proof.
  intros Hv. destruct (dumps_start v Hv) as (c & t & E & Hc). rewrite E.
  apply skip_ws_start. now apply value_start_facts.
Qed.

Lemma startswith_other c p ps s : c <> p -> startswith (p :: ps) (c :: s) = false.
Proof. intros H. simpl. now destruct (N.eqb_spec p c); [congruence|]. Qed.

Lemma scan_once_number n s i fr ex r :
  match_number s = Some (i, fr, ex, r) ->
  scan_once (S n) s
  = Some (if nonempty fr || nonempty ex
          then VFloat (float_of_str (i ++ fr ++ ex))
          else VInt (parse_int i), r).
Proof.
  intros Hm.
  destruct (match_number_spec _ _ _ _ _ Hm) as (E & _ & c & t & Ei & Hc).
  subst i. rewrite <- E in *. cbn [app] in *. cbn [scan_once].
  assert (Hne : c <> 34 /\ c <> 123 /\ c <> 91 /\ c <> 110 /\ c <> 116 /\ c <> 102).
  { destruct Hc as [->|Hc]; [repeat split; discriminate|].
    unfold is_digit in Hc. nprop. lia. }
  destruct Hne as (H1 & H2 & H3 & H4 & H5 & H6).
  destruct (N.eqb_spec c 34); [contradiction|].
  destruct (N.eqb_spec c 123); [contradiction|].
  destruct (N.eqb_spec c 91); [contradiction|].
  change (str "null") with [110; 117; 108; 108].
  change (str "true") with [116; 114; 117; 101].
  change (str "false") with [102; 97; 108; 115; 101].
  rewrite !startswith_other by assumption.
  rewrite Hm. now destruct (nonempty fr || nonempty ex).
Qed.

Lemma ends_number_sep c rest :
  c = 44 \/ c = 93 \/ c = 125 -> ends_number (c :: rest) = true.
Proof. intros [->| [->| ->]]; reflexivity. Qed.

Lemma array_items r :
  forall x fuel rest,
    scans x -> Forall scans r ->
    representable x = true -> forallb representable r = true ->
    (S (need x) + (List.length r + list_sum (map need r)) <= fuel)%nat ->
    array_loop fuel (dumps x ++ flat_map (fun y => 44 :: 32 :: dumps y) r ++ 93 :: rest)
    = Some (x :: r, rest).
Proof.
  induction r as [|y r IH]; intros x fuel rest Hx Hr Rx Rr Hfuel;
    (destruct fuel as [|n]; [fuel_lia|]); cbn [array_loop flat_map app].
  - rewrite (Hx Rx n (93 :: rest)) by side.
    rewrite skip_ws_start by reflexivity. reflexivity.
  - rewrite <- app_assoc. cbn [app].
    inversion Hr as [|? ? Hy Hr']; subst.
    cbn [forallb] in Rr. apply andb_prop in Rr as [Ry Rr].
    cbn [List.length map list_sum fold_right] in Hfuel.
    rewrite (Hx Rx n) by side.
    rewrite skip_ws_start by reflexivity.
    change (44 =? 93) with false. change (44 =? 44) with true. cbv iota.
    rewrite skip_ws_space, skip_ws_dumps by assumption.
    rewrite (IH y n rest Hy Hr' Ry Rr) by fuel_lia. reflexivity.
Qed.

Lemma object_items r :
  forall k x fuel rest,
    scans x -> Forall (fun kv => scans (snd kv)) r ->
    is_text k = true -> representable x = true ->
    forallb (fun kv => is_text (fst kv) && representable (snd kv)) r = true ->
    (S (need x) + (List.length r + list_sum (map (fun kv => need (snd kv)) r)) <= fuel)%nat ->
    object_loop fuel
      (flat_map escape_char k ++ 34 :: 58 :: 32 :: dumps x
       ++ flat_map (fun kv => 44 :: 32 :: encode_basestring_ascii (fst kv)
                              ++ 58 :: 32 :: dumps (snd kv)) r
       ++ 125 :: rest)
    = Some ((k, x) :: r, rest).
Proof.
  induction r as [|[k' y] r IH]; intros k x fuel rest Hx Hr Tk Rx Rr Hfuel;
    (destruct fuel as [|n]; [fuel_lia|]); cbn [object_loop flat_map app];
    rewrite scanstring_body by assumption;
    rewrite skip_ws_start by reflexivity;
    change (58 =? 58) with true; cbv iota;
    rewrite skip_ws_space, skip_ws_dumps by assumption.
  - rewrite (Hx Rx n (125 :: rest)) by side.
    rewrite skip_ws_start by reflexivity. reflexivity.
  - cbn [fst snd]. unfold encode_basestring_ascii at 1.
    rewrite <- !app_assoc. cbn [app]. rewrite <- !app_assoc. cbn [app].
    inversion Hr as [|? ? Hy Hr']; subst. cbn [snd] in Hy.
    cbn [forallb fst snd] in Rr. apply andb_prop in Rr as [Ry Rr].
    apply andb_prop in Ry as [Tk' Ry].
    cbn [List.length map list_sum fold_right snd] in Hfuel.
    rewrite (Hx Rx n) by side.
    rewrite skip_ws_start by reflexivity.
    change (44 =? 125) with false. change (44 =? 44) with true. cbv iota.
    rewrite skip_ws_space, skip_ws_start by reflexivity.
    change (34 =? 34) with true. cbv iota.
    rewrite (IH k' y n rest Hy Hr' Tk' Ry Rr) by fuel_lia. reflexivity.
Qed.

Lemma pystr_eqb_eq a b : pystr_eqb a b = true <-> a = b.
Proof. unfold pystr_eqb. destruct (list_eq_dec N.eq_dec a b); split; congruence. Qed.

Lemma dict_set_fresh d k v :
  existsb (pystr_eqb k) (map fst d) = false -> dict_set d k v = d ++ [(k, v)].
Proof.
  induction d as [|[k' v'] d IH]; [reflexivity|]. cbn [map fst existsb dict_set app].
  intros H. apply orb_false_elim in H as [Hk Hd].
  destruct (pystr_eqb k' k) eqn:E.
  - apply pystr_eqb_eq in E. subst k'.
    assert (pystr_eqb k k = true) by now apply pystr_eqb_eq. congruence.
  - now rewrite IH.
Qed.

Lemma distinct_app_one ks k :
  distinct ks = true -> existsb (pystr_eqb k) ks = false ->
  (forall k', In k' ks -> pystr_eqb k' k = false).
Proof.
  intros _ Hk k' Hin.
  destruct (pystr_eqb k' k) eqn:E; [|reflexivity].
  apply pystr_eqb_eq in E. subst k'.
  assert (existsb (pystr_eqb k) ks = true); [|congruence].
  apply existsb_exists. exists k. split; [assumption|now apply pystr_eqb_eq].
Qed.

Lemma dict_of_pairs_distinct pairs :
  distinct (map fst pairs) = true -> dict_of_pairs pairs = pairs.
Proof.
  unfold dict_of_pairs.
  assert (H : forall ps acc,
    distinct (map fst (acc ++ ps)) = true ->
    fold_left (fun d kv => dict_set d (fst kv) (snd kv)) ps acc = acc ++ ps).
  { induction ps as [|[k v] ps IH]; intros acc Hd.
    - now rewrite app_nil_r.
    - cbn [fold_left fst snd].
      rewrite dict_set_fresh.
      + rewrite IH; rewrite <- app_assoc; [reflexivity|exact Hd].
      + clear IH. induction acc as [|[k0 v0] acc IHa]; [reflexivity|].
        cbn [app map fst distinct existsb] in *.
        apply andb_prop in Hd as [Hk0 Hd]. rewrite (IHa Hd), orb_false_r.
        apply negb_true_iff in Hk0.
        destruct (pystr_eqb k k0) eqn:E; [|reflexivity].
        apply pystr_eqb_eq in E. subst k0.
        assert (existsb (pystr_eqb k) (map fst (acc ++ (k, v) :: ps)) = true);
          [|congruence].
        apply existsb_exists. exists k. split; [|now apply pystr_eqb_eq].
        rewrite map_app, in_app_iff. right. now left. }
  intros Hd. exact (H pairs [] Hd).
Qed.

Lemma scan_once_fuel v : (1 <= need v)%nat.
Proof. destruct v; simpl; lia. Qed.

Theorem scan_dumps v : scans v.
Proof.
  induction v as [| b | z | f | s | l IH | d IH] using value_ind';
    intros Rv fuel rest Hfuel Hrest;
    (destruct fuel as [|n]; [fuel_lia|]).
  - reflexivity.
  - now destruct b.
  - cbn [dumps]. rewrite (scan_once_number n _ _ _ _ _ (match_number_int z rest Hrest)).
    cbn [nonempty orb]. now rewrite parse_int_repr.
  - cbn [dumps representable] in *. rewrite floatstr_finite by assumption.
    destruct (float_repr_spec f Rv) as (i & fr & ex & Hm & Hn & E).
    rewrite (scan_once_number n _ _ _ _ _ (match_number_app _ rest _ _ _ Hrest Hm)).
    now rewrite Hn, E, repr_float.
  - cbn [dumps]. unfold encode_basestring_ascii. cbn [app scan_once].
    change (34 =? 34) with true. cbv iota.
    rewrite <- app_assoc. cbn [app].
    now rewrite scanstring_body.
  - cbn [dumps representable need] in *. cbn [app scan_once].
    change (91 =? 34) with false. change (91 =? 123) with false.
    change (91 =? 91) with true. cbv iota.
    rewrite <- app_assoc. cbn [app].
    destruct n as [|n]; [fuel_lia|]. cbn [JSONArray].
    destruct l as [|x r].
    + cbn [join_items app]. rewrite skip_ws_start by reflexivity. reflexivity.
    + cbn [join_items]. rewrite <- app_assoc.
      cbn [forallb] in Rv. apply andb_prop in Rv as [Rx Rr].
      inversion IH as [|? ? Hx Hr]; subst.
      rewrite skip_ws_dumps by assumption.
      destruct (dumps_start x Rx) as (c & t & E & Hc).
      destruct (value_start_facts c Hc) as [_ Hc93].
      pose proof (array_items r x n rest Hx Hr Rx Rr) as Ha.
      rewrite E in *. cbn [app] in *.
      destruct (N.eqb_spec c 93); [contradiction|].
      rewrite Ha; [reflexivity|].
      fuel_lia.
  - cbn [dumps representable need] in *. cbn [app scan_once].
    change (123 =? 34) with false. change (123 =? 123) with true. cbv iota.
    rewrite <- app_assoc. cbn [app].
    apply andb_prop in Rv as [Rd Rv].
    destruct n as [|n]; [fuel_lia|]. cbn [JSONObject].
    destruct d as [|[k x] r].
    + cbn [join_items app]. rewrite skip_ws_start by reflexivity. reflexivity.
    + cbn [join_items fst snd]. unfold encode_basestring_ascii at 1.
      rewrite <- !app_assoc. cbn [app]. rewrite <- !app_assoc. cbn [app].
      rewrite skip_ws_start by reflexivity.
      change (34 =? 125) with false. change (34 =? 34) with true. cbv iota.
      cbn [forallb fst snd] in Rv. apply andb_prop in Rv as [Rx Rr].
      apply andb_prop in Rx as [Tk Rx].
      inversion IH as [|? ? Hx Hr]; subst. cbn [snd] in Hx.
      rewrite (object_items r k x n rest Hx Hr Tk Rx Rr).
      * now rewrite dict_of_pairs_distinct.
      * fuel_lia.
Qed.

Lemma items_bound (A : Type) (f : A -> pystr) (g : A -> nat) (l : list A) :
  Forall (fun x => (g x < 2 * List.length (f x))%nat) l ->
  (List.length l + list_sum (map g l) <= 2 * List.length (join_items f l))%nat.
Proof.
  intros H. destruct H as [|x r Hx Hr]; [simpl; lia|].
  cbn [join_items]. rewrite length_app.
  assert (Ht : (List.length r + list_sum (map g r)
                <= 2 * List.length (flat_map (fun y => 44%N :: 32%N :: f y) r))%nat).
  { induction Hr as [|y r Hy Hr IH]; [simpl; lia|].
    cbn [flat_map]. rewrite length_app.
    unfold list_sum in *. cbn [List.length map fold_right] in *. lia. }
  unfold list_sum in *. cbn [List.length map fold_right] in *. lia.
Qed.

Lemma need_bound v :
  representable v = true -> (need v < 2 * List.length (dumps v))%nat.
Proof.
  induction v as [| b | z | f | s | l IH | d IH] using value_ind'; intros Rv;
    try (destruct (dumps_start _ Rv) as (c & t & E & _); rewrite E; simpl; lia).
  - cbn [need dumps representable] in *.
    assert (Hb : Forall (fun x => (need x < 2 * List.length (dumps x))%nat) l).
    { rewrite forallb_forall in Rv. rewrite Forall_forall in *. auto. }
    pose proof (items_bound _ dumps need l Hb) as Hl.
    cbn [List.length]. rewrite length_app. cbn [List.length]. lia.
  - cbn [need dumps representable] in *. apply andb_prop in Rv as [_ Rv].
    set (f := fun kv : pystr * value =>
                encode_basestring_ascii (fst kv) ++ 58 :: 32 :: dumps (snd kv)).
    assert (Hb : Forall (fun kv => (need (snd kv) < 2 * List.length (f kv))%nat) d).
    { rewrite forallb_forall in Rv. rewrite Forall_forall in *.
      intros kv Hkv. specialize (Rv kv Hkv). apply andb_prop in Rv as [_ Rv].
      specialize (IH kv Hkv Rv). unfold f. rewrite length_app.
      cbn [List.length]. lia. }
    pose proof (items_bound _ f (fun kv => need (snd kv)) d Hb) as Hl.
    cbn [List.length]. rewrite length_app. cbn [List.length]. lia.
Qed.

(** [json.loads(json.dumps(v)) == v] for every representable value. *)
Theorem loads_dumps v : representable v = true -> loads (dumps v) = Some v.
Proof.
  intros Rv. unfold loads.
  destruct (dumps_start v Rv) as (c & t & E & Hc).
  assert (Hbom : startswith [0xFEFF] (dumps v) = false).
  { rewrite E. apply startswith_other.
    unfold value_start, is_digit in Hc.
    repeat (apply orb_prop in Hc as [Hc|Hc]); nprop; lia. }
  rewrite Hbom.
  pose proof (skip_ws_dumps v [] Rv) as Hs. rewrite app_nil_r in Hs. rewrite Hs.
  pose proof (scan_dumps v Rv (2 * List.length (dumps v) + 2)%nat [] ) as Hscan.
  rewrite app_nil_r in Hscan. rewrite Hscan; [reflexivity| |reflexivity].
  pose proof (need_bound v Rv). lia.
Qed.

End Roundtrip.

(** *** The codec under the interpreter's limits *)

Section Limits.
Context {PF : PyFloat} {PFS : PyFloatSpec} {PL : PyLimits}.

Lemma each_map (A B : Type) (f : A -> outcome B) (g : A -> B) (l : list A) :
  Forall (fun x => f x = Ok (g x)) l -> each f l = Ok (map g l).
Proof.
  induction 1 as [|x r Hx _ IH]; [reflexivity|].
  cbn [each map]. now rewrite Hx, IH.
Qed.

Lemma each_ok (A B : Type) (f : A -> outcome B) (l : list A) (ys : list B) :
  each f l = Ok ys -> Forall2 (fun x y => f x = Ok y) l ys.
Proof.
  revert ys. induction l as [|x r IH]; intros ys H; cbn [each] in H.
  - injection H as <-. constructor.
  - destruct (f x) as [y|e] eqn:Ex; [|discriminate].
    destruct (each f r) as [ys'|e] eqn:Er; [|discriminate].
    injection H as <-. constructor; auto.
Qed.

Lemma join_items_map (A B : Type) (g : A -> B) (h : B -> pystr) (l : list A) :
  join_items h (map g l) = join_items (fun x => h (g x)) l.
Proof.
  destruct l as [|x r]; [reflexivity|]. cbn [map join_items]. f_equal.
  induction r as [|y r IH]; [reflexivity|]. cbn [map flat_map]. now rewrite IH.
Qed.

(** Within the limits [json.dumps] returns the text of [dumps]. *)
Lemma encoder_fits v :
  forall depth, fits depth v = true -> encoder_listencode_obj depth v = Ok (dumps v).
Proof.
  induction v as [| b | z | f | s | l IH | m IH] using value_ind'; intros depth Hf;
    try reflexivity.
  - cbn [fits encoder_listencode_obj dumps] in *. unfold int_to_str.
    apply negb_true_iff in Hf. now rewrite Hf.
  - destruct depth as [|d]; [discriminate|].
    cbn [fits encoder_listencode_obj dumps] in *.
    rewrite (each_map _ _ _ dumps).
    + now rewrite join_items_map.
    + rewrite forallb_forall in Hf. rewrite Forall_forall in *. auto.
  - destruct depth as [|d]; [discriminate|].
    cbn [fits encoder_listencode_obj dumps] in *.
    rewrite (each_map _ _ _
               (fun kv => encode_basestring_ascii (fst kv) ++ 58 :: 32 :: dumps (snd kv))).
    + now rewrite join_items_map.
    + rewrite forallb_forall in Hf. rewrite Forall_forall in *.
      intros kv Hkv. now rewrite (IH kv Hkv d (Hf kv Hkv)).
Qed.

(** Whatever [json.dumps] returns is the text of [dumps], and the value was
    within the limits. *)
Lemma encoder_text v :
  forall depth t,
    encoder_listencode_obj depth v = Ok t -> t = dumps v /\ fits depth v = true.
Proof.
  induction v as [| b | z | f | s | l IH | m IH] using value_ind'; intros depth t H;
    try (injection H as <-; split; reflexivity).
  - cbn [fits encoder_listencode_obj dumps] in *. unfold int_to_str in H.
    destruct (exceeds_limit (int_repr z)); [discriminate|].
    injection H as <-. split; reflexivity.
  - destruct depth as [|d]; [discriminate|].
    cbn [fits encoder_listencode_obj dumps] in *.
    destruct (each (encoder_listencode_obj d) l) as [items|e] eqn:E; [|discriminate].
    injection H as <-. apply each_ok in E.
    assert (G : items = map dumps l /\ forallb (fits d) l = true).
    { clear -IH E. induction E as [|x y r ys Hx _ IHr]; [split; reflexivity|].
      inversion IH as [|? ? Ix Ir]; subst. destruct (Ix _ _ Hx) as [-> Fx].
      destruct (IHr Ir) as [-> Fr]. cbn [map forallb]. now rewrite Fx, Fr. }
    destruct G as [-> G]. now rewrite join_items_map.
  - destruct depth as [|d]; [discriminate|].
    cbn [fits encoder_listencode_obj dumps] in *.
    match type of H with
    | match each ?f m with _ => _ end = _ => destruct (each f m) as [items|e] eqn:E
    end; [|discriminate].
    injection H as <-. apply each_ok in E.
    assert (G : items
                = map (fun kv => encode_basestring_ascii (fst kv)
                                 ++ 58 :: 32 :: dumps (snd kv)) m
                /\ forallb (fun kv => fits d (snd kv)) m = true).
    { clear -IH E. induction E as [|x y r ys Hx _ IHr]; [split; reflexivity|].
      inversion IH as [|? ? Ix Ir]; subst.
      destruct (encoder_listencode_obj d (snd x)) as [t|e] eqn:Et; [|discriminate].
      injection Hx as <-. destruct (Ix _ _ Et) as [-> Fx].
      destruct (IHr Ir) as [-> Fr]. cbn [map forallb]. now rewrite Fx, Fr. }
    destruct G as [-> G]. now rewrite join_items_map.
Qed.

#[local] Arguments startswith : simpl never.
#[local] Arguments N.eqb : simpl never.
#[local] Arguments skipn : simpl never.
#[local] Arguments match_number : simpl never.
#[local] Arguments scanstring : simpl never.
#[local] Arguments skip_ws : simpl never.
#[local] Arguments int_of_str : simpl never.
#[local] Arguments dict_of_pairs : simpl never.
#[local] Arguments str : simpl never.
#[local] Arguments nonempty : simpl never.
#[local] Arguments orb : simpl never.

(** What the scanner of the interpreter returns, the grammar gives. *)
Lemma scan_unicode_grammar n :
  (forall d s v r, scan_once_unicode n d s = Ok (v, r) -> scan_once n s = Some (v, r))
  /\ (forall d s vs r,
         parse_array_unicode n d s = Ok (vs, r) -> JSONArray n s = Some (vs, r))
  /\ (forall d s vs r,
         array_loop_unicode n d s = Ok (vs, r) -> array_loop n s = Some (vs, r))
  /\ (forall d s ps r,
         parse_object_unicode n d s = Ok (ps, r) -> JSONObject n s = Some (ps, r))
  /\ (forall d s ps r,
         object_loop_unicode n d s = Ok (ps, r) -> object_loop n s = Some (ps, r)).
Proof.
  induction n as [|n (IHs & IHa & IHal & IHo & IHol)];
    [repeat split; intros; discriminate|].
  split; [|split; [|split; [|split]]].
  - intros d s v r H.
    destruct s as [|c s']; [destruct d; discriminate|].
    simpl scan_once_unicode in H. simpl scan_once.
    destruct (c =? 34).
    { destruct (scanstring s') as [[t r0]|]; [|discriminate].
      injection H as <- <-. reflexivity. }
    destruct (c =? 123).
    { destruct d as [|d]; [discriminate|].
      destruct (parse_object_unicode n d s') as [[ps r0]|e] eqn:E; [|discriminate].
      injection H as <- <-. now rewrite (IHo _ _ _ _ E). }
    destruct (c =? 91).
    { destruct d as [|d]; [discriminate|].
      destruct (parse_array_unicode n d s') as [[vs r0]|e] eqn:E; [|discriminate].
      injection H as <- <-. now rewrite (IHa _ _ _ _ E). }
    destruct (startswith (str "null") (c :: s')); [now injection H as <- <-|].
    destruct (startswith (str "true") (c :: s')); [now injection H as <- <-|].
    destruct (startswith (str "false") (c :: s')); [now injection H as <- <-|].
    destruct (match_number (c :: s')) as [[[[i fr] ex] r0]|].
    + destruct (nonempty fr || nonempty ex); [now injection H as <- <-|].
      unfold int_of_str in H. destruct (exceeds_limit i); [discriminate|].
      now injection H as <- <-.
    + destruct (startswith (str "NaN") (c :: s')); [now injection H as <- <-|].
      destruct (startswith (str "Infinity") (c :: s')); [now injection H as <- <-|].
      destruct (startswith (str "-Infinity") (c :: s')); [now injection H as <- <-|].
      discriminate.
  - intros d s vs r H. simpl parse_array_unicode in H. simpl JSONArray.
    destruct (skip_ws s) as [|c r0]; [discriminate|].
    destruct (c =? 93); [now injection H as <- <-|].
    exact (IHal _ _ _ _ H).
  - intros d s vs r H. simpl array_loop_unicode in H. simpl array_loop.
    destruct (scan_once_unicode n d s) as [[v r0]|e] eqn:E; [|discriminate].
    rewrite (IHs _ _ _ _ E).
    destruct (skip_ws r0) as [|c r1]; [discriminate|].
    destruct (c =? 93); [now injection H as <- <-|].
    destruct (c =? 44); [|discriminate].
    destruct (array_loop_unicode n d (skip_ws r1)) as [[vs' r2]|e] eqn:E'; [|discriminate].
    injection H as <- <-. now rewrite (IHal _ _ _ _ E').
  - intros d s ps r H. simpl parse_object_unicode in H. simpl JSONObject.
    destruct (skip_ws s) as [|c r0]; [discriminate|].
    destruct (c =? 125); [now injection H as <- <-|].
    destruct (c =? 34); [|discriminate].
    exact (IHol _ _ _ _ H).
  - intros d s ps r H. simpl object_loop_unicode in H. simpl object_loop.
    destruct (scanstring s) as [[key r0]|]; [|discriminate].
    destruct (skip_ws r0) as [|c r1]; [discriminate|].
    destruct (c =? 58); [|discriminate].
    destruct (scan_once_unicode n d (skip_ws r1)) as [[v r2]|e] eqn:E; [|discriminate].
    rewrite (IHs _ _ _ _ E).
    destruct (skip_ws r2) as [|c2 r3]; [discriminate|].
    destruct (c2 =? 125); [now injection H as <- <-|].
    destruct (c2 =? 44); [|discriminate].
    destruct (skip_ws r3) as [|q r4]; [discriminate|].
    destruct (q =? 34); [|discriminate].
    destruct (object_loop_unicode n d r4) as [[ps' r5]|e] eqn:E'; [|discriminate].
    injection H as <- <-. now rewrite (IHol _ _ _ _ E').
Qed.

Lemma scan_once_unicode_number n d s i fr ex r :
  match_number s = Some (i, fr, ex, r) ->
  scan_once_unicode (S n) d s
  = if nonempty fr || nonempty ex
    then Ok (VFloat (float_of_str (i ++ fr ++ ex)), r)
    else match int_of_str i with
         | Ok z => Ok (VInt z, r)
         | Raise e => Raise e
         end.
Proof.
  intros Hm.
  destruct (match_number_spec _ _ _ _ _ Hm) as (E & _ & c & t & Ei & Hc).
  subst i. rewrite <- E in *. cbn [app] in *. simpl scan_once_unicode.
  assert (Hne : c <> 34 /\ c <> 123 /\ c <> 91 /\ c <> 110 /\ c <> 116 /\ c <> 102).
  { destruct Hc as [->|Hc]; [repeat split; discriminate|].
    unfold is_digit in Hc. nprop. lia. }
  destruct Hne as (H1 & H2 & H3 & H4 & H5 & H6).
  destruct (N.eqb_spec c 34); [contradiction|].
  destruct (N.eqb_spec c 123); [contradiction|].
  destruct (N.eqb_spec c 91); [contradiction|].
  change (str "null") with [110; 117; 108; 108].
  change (str "true") with [116; 114; 117; 101].
  change (str "false") with [102; 97; 108; 115; 101].
  rewrite !startswith_other by assumption.
  now rewrite Hm.
Qed.

Lemma array_items_unicode r :
  forall x fuel d rest,
    scans_unicode x -> Forall scans_unicode r ->
    representable x = true -> forallb representable r = true ->
    fits d x = true -> forallb (fits d) r = true ->
    (S (need x) + (List.length r + list_sum (map need r)) <= fuel)%nat ->
    array_loop_unicode fuel d
      (dumps x ++ flat_map (fun y => 44 :: 32 :: dumps y) r ++ 93 :: rest)
    = Ok (x :: r, rest).
Proof.
  induction r as [|y r IH]; intros x fuel d rest Hx Hr Rx Rr Fx Fr Hfuel;
    (destruct fuel as [|n]; [fuel_lia|]); cbn [flat_map app]; simpl array_loop_unicode.
  - rewrite (Hx Rx n d (93 :: rest)) by first [assumption | side].
    rewrite skip_ws_start by reflexivity. reflexivity.
  - rewrite <- app_assoc. cbn [app].
    inversion Hr as [|? ? Hy Hr']; subst.
    cbn [forallb] in Rr, Fr. apply andb_prop in Rr as [Ry Rr].
    apply andb_prop in Fr as [Fy Fr].
    cbn [List.length map list_sum fold_right] in Hfuel.
    rewrite (Hx Rx n d) by first [assumption | side].
    rewrite skip_ws_start by reflexivity.
    change (44 =? 93) with false. change (44 =? 44) with true. cbv iota.
    rewrite skip_ws_space, skip_ws_dumps by assumption.
    rewrite (IH y n d rest Hy Hr' Ry Rr Fy Fr) by fuel_lia. reflexivity.
Qed.

Lemma object_items_unicode r :
  forall k x fuel d rest,
    scans_unicode x -> Forall (fun kv => scans_unicode (snd kv)) r ->
    is_text k = true -> representable x = true ->
    forallb (fun kv => is_text (fst kv) && representable (snd kv)) r = true ->
    fits d x = true -> forallb (fun kv => fits d (snd kv)) r = true ->
    (S (need x) + (List.length r + list_sum (map (fun kv => need (snd kv)) r)) <= fuel)%nat ->
    object_loop_unicode fuel d
      (flat_map escape_char k ++ 34 :: 58 :: 32 :: dumps x
       ++ flat_map (fun kv => 44 :: 32 :: encode_basestring_ascii (fst kv)
                              ++ 58 :: 32 :: dumps (snd kv)) r
       ++ 125 :: rest)
    = Ok ((k, x) :: r, rest).
Proof.
  induction r as [|[k' y] r IH]; intros k x fuel d rest Hx Hr Tk Rx Rr Fx Fr Hfuel;
    (destruct fuel as [|n]; [fuel_lia|]); cbn [flat_map app];
    with_strategy opaque [encode_basestring_ascii] (simpl object_loop_unicode);
    rewrite scanstring_body by assumption;
    rewrite skip_ws_start by reflexivity;
    change (58 =? 58) with true; cbv iota;
    rewrite skip_ws_space, skip_ws_dumps by assumption.
  - rewrite (Hx Rx n d (125 :: rest)) by first [assumption | side].
    rewrite skip_ws_start by reflexivity. reflexivity.
  - cbn [fst snd]. unfold encode_basestring_ascii at 1.
    rewrite <- !app_assoc. cbn [app]. rewrite <- !app_assoc. cbn [app].
    inversion Hr as [|? ? Hy Hr']; subst. cbn [snd] in Hy.
    cbn [forallb fst snd] in Rr, Fr. apply andb_prop in Rr as [Ry Rr].
    apply andb_prop in Ry as [Tk' Ry]. apply andb_prop in Fr as [Fy Fr].
    cbn [List.length map list_sum fold_right snd] in Hfuel.
    rewrite (Hx Rx n d) by first [assumption | side].
    rewrite skip_ws_start by reflexivity.
    change (44 =? 125) with false. change (44 =? 44) with true. cbv iota.
    rewrite skip_ws_space, skip_ws_start by reflexivity.
    change (34 =? 34) with true. cbv iota.
    rewrite (IH k' y n d rest Hy Hr' Tk' Ry Rr Fy Fr) by fuel_lia. reflexivity.
Qed.

Theorem scan_unicode_dumps v : scans_unicode v.
Proof.
  induction v as [| b | z | f | s | l IH | m IH] using value_ind';
    intros Rv fuel d rest Hfuel Fv Hrest;
    (destruct fuel as [|n]; [fuel_lia|]).
  - reflexivity.
  - now destruct b.
  - cbn [dumps fits] in *.
    rewrite (scan_once_unicode_number n d _ _ _ _ _ (match_number_int z rest Hrest)).
    cbn [nonempty orb]. unfold int_of_str. apply negb_true_iff in Fv.
    now rewrite Fv, parse_int_repr.
  - cbn [dumps representable] in *. rewrite floatstr_finite by assumption.
    destruct (float_repr_spec f Rv) as (i & fr & ex & Hm & Hn & E).
    rewrite (scan_once_unicode_number n d _ _ _ _ _
               (match_number_app _ rest _ _ _ Hrest Hm)).
    now rewrite Hn, E, repr_float.
  - cbn [dumps]. unfold encode_basestring_ascii. cbn [app].
    with_strategy opaque [encode_basestring_ascii join_items dumps]
      (simpl scan_once_unicode).
    change (34 =? 34) with true. cbv iota.
    rewrite <- app_assoc. cbn [app].
    now rewrite scanstring_body.
  - destruct d as [|d]; [discriminate|].
    cbn [dumps representable need fits] in *. cbn [app].
    with_strategy opaque [encode_basestring_ascii join_items dumps]
      (simpl scan_once_unicode).
    change (91 =? 34) with false. change (91 =? 123) with false.
    change (91 =? 91) with true. cbv iota.
    rewrite <- app_assoc. cbn [app].
    destruct n as [|n]; [fuel_lia|]. 
    with_strategy opaque [encode_basestring_ascii join_items dumps]
      (simpl parse_array_unicode).
    destruct l as [|x r].
    + cbn [join_items app]. rewrite skip_ws_start by reflexivity. reflexivity.
    + cbn [join_items]. rewrite <- app_assoc.
      cbn [forallb] in Rv, Fv. apply andb_prop in Rv as [Rx Rr].
      apply andb_prop in Fv as [Fx Fr].
      inversion IH as [|? ? Hx Hr]; subst.
      rewrite skip_ws_dumps by assumption.
      destruct (dumps_start x Rx) as (c & t & E & Hc).
      destruct (value_start_facts c Hc) as [_ Hc93].
      pose proof (array_items_unicode r x n d rest Hx Hr Rx Rr Fx Fr) as Ha.
      rewrite E in *. cbn [app] in *.
      destruct (N.eqb_spec c 93); [contradiction|].
      rewrite Ha; [reflexivity|].
      fuel_lia.
  - destruct d as [|d]; [discriminate|].
    cbn [dumps representable need fits] in *. cbn [app].
    with_strategy opaque [encode_basestring_ascii join_items dumps]
      (simpl scan_once_unicode).
    change (123 =? 34) with false. change (123 =? 123) with true. cbv iota.
    rewrite <- app_assoc. cbn [app].
    apply andb_prop in Rv as [Rd Rv].
    destruct n as [|n]; [fuel_lia|]. 
    with_strategy opaque [encode_basestring_ascii join_items dumps]
      (simpl parse_object_unicode).
    destruct m as [|[k x] r].
    + cbn [join_items app]. rewrite skip_ws_start by reflexivity. reflexivity.
    + cbn [join_items fst snd]. unfold encode_basestring_ascii at 1.
      rewrite <- !app_assoc. cbn [app]. rewrite <- !app_assoc. cbn [app].
      rewrite skip_ws_start by reflexivity.
      change (34 =? 125) with false. change (34 =? 34) with true. cbv iota.
      cbn [forallb fst snd] in Rv, Fv. apply andb_prop in Rv as [Rx Rr].
      apply andb_prop in Rx as [Tk Rx]. apply andb_prop in Fv as [Fx Fr].
      inversion IH as [|? ? Hx Hr]; subst. cbn [snd] in Hx.
      rewrite (object_items_unicode r k x n d rest Hx Hr Tk Rx Rr Fx Fr).
      * now rewrite dict_of_pairs_distinct.
      * fuel_lia.
Qed.




(** The scanner raises nothing but its three errors. *)
Lemma scan_unicode_raises n :
  (forall d s e, scan_once_unicode n d s = Raise e -> decoder_error e = true)
  /\ (forall d s e, parse_array_unicode n d s = Raise e -> decoder_error e = true)
  /\ (forall d s e, array_loop_unicode n d s = Raise e -> decoder_error e = true)
  /\ (forall d s e, parse_object_unicode n d s = Raise e -> decoder_error e = true)
  /\ (forall d s e, object_loop_unicode n d s = Raise e -> decoder_error e = true).
Proof.
  induction n as [|n (IHs & IHa & IHal & IHo & IHol)];
    [repeat split; intros d s e [= <-]; reflexivity|].
  split; [|split; [|split; [|split]]].
  - intros d s e H.
    destruct s as [|c s']; [destruct d; now injection H as <-|].
    simpl scan_once_unicode in H.
    destruct (c =? 34).
    { destruct (scanstring s') as [[t r0]|]; [discriminate|]. now injection H as <-. }
    destruct (c =? 123).
    { destruct d as [|d]; [now injection H as <-|].
      destruct (parse_object_unicode n d s') as [[ps r0]|e'] eqn:E; [discriminate|].
      injection H as <-. exact (IHo _ _ _ E). }
    destruct (c =? 91).
    { destruct d as [|d]; [now injection H as <-|].
      destruct (parse_array_unicode n d s') as [[vs r0]|e'] eqn:E; [discriminate|].
      injection H as <-. exact (IHa _ _ _ E). }
    destruct (startswith (str "null") (c :: s')); [discriminate|].
    destruct (startswith (str "true") (c :: s')); [discriminate|].
    destruct (startswith (str "false") (c :: s')); [discriminate|].
    destruct (match_number (c :: s')) as [[[[i fr] ex] r0]|].
    + destruct (nonempty fr || nonempty ex); [discriminate|].
      unfold int_of_str in H. destruct (exceeds_limit i); [|discriminate].
      now injection H as <-.
    + destruct (startswith (str "NaN") (c :: s')); [discriminate|].
      destruct (startswith (str "Infinity") (c :: s')); [discriminate|].
      destruct (startswith (str "-Infinity") (c :: s')); [discriminate|].
      now injection H as <-.
  - intros d s e H. simpl parse_array_unicode in H.
    destruct (skip_ws s) as [|c r0]; [now injection H as <-|].
    destruct (c =? 93); [discriminate|].
    exact (IHal _ _ _ H).
  - intros d s e H. simpl array_loop_unicode in H.
    destruct (scan_once_unicode n d s) as [[v r0]|e'] eqn:E;
      [|injection H as <-; exact (IHs _ _ _ E)].
    destruct (skip_ws r0) as [|c r1]; [now injection H as <-|].
    destruct (c =? 93); [discriminate|].
    destruct (c =? 44); [|now injection H as <-].
    destruct (array_loop_unicode n d (skip_ws r1)) as [[vs' r2]|e'] eqn:E';
      [discriminate|].
    injection H as <-. exact (IHal _ _ _ E').
  - intros d s e H. simpl parse_object_unicode in H.
    destruct (skip_ws s) as [|c r0]; [now injection H as <-|].
    destruct (c =? 125); [discriminate|].
    destruct (c =? 34); [|now injection H as <-].
    exact (IHol _ _ _ H).
  - intros d s e H. simpl object_loop_unicode in H.
    destruct (scanstring s) as [[key r0]|]; [|now injection H as <-].
    destruct (skip_ws r0) as [|c r1]; [now injection H as <-|].
    destruct (c =? 58); [|now injection H as <-].
    destruct (scan_once_unicode n d (skip_ws r1)) as [[v r2]|e'] eqn:E;
      [|injection H as <-; exact (IHs _ _ _ E)].
    destruct (skip_ws r2) as [|c2 r3]; [now injection H as <-|].
    destruct (c2 =? 125); [discriminate|].
    destruct (c2 =? 44); [|now injection H as <-].
    destruct (skip_ws r3) as [|q r4]; [now injection H as <-|].
    destruct (q =? 34); [|now injection H as <-].
    destruct (object_loop_unicode n d r4) as [[ps' r5]|e'] eqn:E'; [discriminate|].
    injection H as <-. exact (IHol _ _ _ E').
Qed.

(** [json.dumps] and [json.loads] as the transports call them. *)
Lemma json_dumps_fits v :
  fits encoder_depth v = true -> Effects.json_dumps v = Ok (dumps v).
Proof. apply encoder_fits. Qed.

Lemma json_dumps_text v t :
  Effects.json_dumps v = Ok t -> t = dumps v /\ fits encoder_depth v = true.
Proof. apply encoder_text. Qed.

Lemma json_loads_grammar s v : Effects.json_loads s = Ok v -> loads s = Some v.
Proof.
  unfold Effects.json_loads, loads.
  destruct (startswith [0xFEFF] s); [discriminate|].
  destruct (scan_once_unicode _ _ _) as [[v' r]|e] eqn:E; [|discriminate].
  rewrite (proj1 (scan_unicode_grammar _) _ _ _ _ E).
  destruct (skip_ws r); [|discriminate]. now intros [= <-].
Qed.

Lemma json_loads_raises s e :
  Effects.json_loads s = Raise e -> decoder_error e = true.
Proof.
  unfold Effects.json_loads.
  destruct (startswith [0xFEFF] s); [now intros [= <-]|].
  destruct (scan_once_unicode _ _ _) as [[v' r]|e'] eqn:E.
  - destruct (skip_ws r); [discriminate|]. now intros [= <-].
  - intros [= <-]. exact (proj1 (scan_unicode_raises _) _ _ _ E).
Qed.

Lemma json_loads_refuses s :
  loads s = None ->
  exists e, Effects.json_loads s = Raise e /\ decoder_error e = true.
Proof.
  intros H. destruct (Effects.json_loads s) as [v|e] eqn:E.
  - apply json_loads_grammar in E. congruence.
  - exists e. split; [reflexivity|]. now apply json_loads_raises in E.
Qed.

(** [json.loads(json.dumps(v)) == v] for a representable value within the
    limits of the interpreter. *)
Theorem json_loads_dumps v :
  representable v = true -> fits scanner_depth v = true ->
  Effects.json_loads (dumps v) = Ok v.
Proof.
  intros Rv Fv. unfold Effects.json_loads.
  destruct (dumps_start v Rv) as (c & t & E & Hc).
  assert (Hbom : startswith [0xFEFF] (dumps v) = false).
  { rewrite E. apply startswith_other.
    unfold value_start, is_digit in Hc.
    repeat (apply orb_prop in Hc as [Hc|Hc]); nprop; lia. }
  rewrite Hbom.
  pose proof (skip_ws_dumps v [] Rv) as Hs. rewrite app_nil_r in Hs. rewrite Hs.
  pose proof (scan_unicode_dumps v Rv (2 * List.length (dumps v) + 2)%nat
                scanner_depth []) as Hscan.
  rewrite app_nil_r in Hscan. rewrite Hscan; [reflexivity| |exact Fv|reflexivity].
  pose proof (need_bound v Rv). lia.
Qed.

End Limits.

(** *** UTF-8 on printable ASCII, and the line framing *)

Lemma byte_of_small c : c <= 255 -> Byte.to_N (byte_of c) = c.
Proof.
  intros Hc. unfold byte_of. destruct (Byte.of_N c) as [b|] eqn:E.
  - now apply Byte.to_of_N.
  - apply Byte.of_N_None_iff in E. lia.
Qed.

Lemma utf8_decode_ascii b r :
  Byte.to_N b < 0x80 ->
  utf8_decode (b :: r) = option_map (cons (Byte.to_N b)) (utf8_decode r).
Proof.
  intros Hb. cbn [utf8_decode]. cbv zeta.
  destruct (N.ltb_spec (Byte.to_N b) 0x80); [reflexivity|lia].
Qed.

Lemma utf8_ascii s :
  forallb (fun c => c <? 0x80) s = true ->
  utf8_encode s = Some (map byte_of s) /\ utf8_decode (map byte_of s) = Some s.
Proof.
  induction s as [|c s IH]; [now split|].
  cbn [forallb]. intros H. apply andb_prop in H as [Hc Hs].
  destruct (IH Hs) as [He Hd]. nprop.
  cbn [utf8_encode map]. rewrite He. unfold utf8_encode_char.
  destruct (N.ltb_spec c 0x80); [|lia]. split; [reflexivity|].
  rewrite utf8_decode_ascii by (rewrite byte_of_small; lia).
  rewrite byte_of_small by lia. now rewrite Hd.
Qed.

Lemma printable_ascii s :
  forallb printable s = true -> forallb (fun c => c <? 0x80) s = true.
Proof.
  induction s as [|c s IH]; [reflexivity|]. cbn [forallb]. intros H.
  apply andb_prop in H as [Hc Hs]. rewrite (IH Hs), andb_true_r.
  unfold printable in Hc. nprop. apply N.ltb_lt. lia.
Qed.

Lemma printable_not_space s c :
  forallb printable s = true -> In c s -> c <> 10.
Proof.
  intros H Hin. rewrite forallb_forall in H. specialize (H c Hin).
  unfold printable in H. nprop. lia.
Qed.

Lemma rstrip_newline (x : pystr) (c : N) :
  isspace c = false -> rstrip ((x ++ [c]) ++ [10]) = x ++ [c].
Proof.
  intros Hc. unfold rstrip. rewrite !rev_app_distr. cbn [List.rev app lstrip].
  change (isspace 10) with true. cbv iota. cbn [lstrip]. rewrite Hc.
  cbn [List.rev]. now rewrite rev_involutive.
Qed.

(** [strip] removes exactly the newline that ends a line holding an object. *)
Lemma strip_object_line body :
  strip (123 :: body ++ [125] ++ [10]) = 123 :: body ++ [125].
Proof.
  unfold strip. cbn [lstrip]. change (isspace 123) with false. cbv iota.
  rewrite app_assoc, app_comm_cons, app_comm_cons.
  now rewrite (rstrip_newline (123 :: body) 125).
Qed.

(** The sample float interface meets the contract. *)
Lemma halves_spec : @PyFloatSpec Halves.halves.
Proof.
  assert (Hfin : forall f : @float Halves.halves,
            @finite Halves.halves f = true -> exists n, f = Some n /\ n < 10).
  { intros [n|]; [|discriminate]. unfold finite. cbn.
    intros H. apply andb_prop in H as [H _]. apply andb_prop in H as [H _].
    apply andb_prop in H as [_ H]. exists n. split; [reflexivity|].
    now apply N.ltb_lt. }
  assert (Hdigit : forall n, n < 10 ->
            match_number [48 + n; 46; 53] = Some ([48 + n], [46; 53], [], [])
            /\ Halves.of_str [48 + n; 46; 53] = Some n).
  { intros [|p] Hn; [split; reflexivity|].
    do 4 (try destruct p as [p|p|]); try lia; split; reflexivity. }
  split; intros f Hf; destruct (Hfin f Hf) as (n & -> & Hn);
    destruct (Hdigit n Hn) as [Hm Hr].
  - exists [48 + n], [46; 53], []. cbn. apply N.ltb_lt in Hn. rewrite Hn.
    split; [exact Hm|reflexivity].
  - cbn. apply N.ltb_lt in Hn. rewrite Hn. exact Hr.
Qed.

End JsonFacts.

(** ** Properties of the three transports *)

Module TransportFacts.
Import Py Json JsonSpec JsonFacts Effects Scenarios Tactics.
Local Open Scope string_scope.
Unset Implicit Arguments.

#[local] Existing Instance Client.interface.
#[local] Existing Instance Server.interface.
#[local] Existing Instance Line.interface.

#[local] Arguments encode : simpl never.
#[local] Arguments decode : simpl never.
#[local] Arguments json_loads : simpl never.
#[local] Arguments json_dumps : simpl never.
#[local] Arguments dumps : simpl never.
#[local] Arguments Qle_bool : simpl never.

Section Facts.
Context {PF : PyFloat} {PL : PyLimits}.

(** C2. While the connected flag is false, [send_command] returns false and
    [receive_data] returns [None] (as do the raw-byte variants of the serial
    binding), the object is left as it was, and the only call made is the
    error log: no transport write or read.  The flag is raised by no method
    but [connect], and by [connect] exactly when it returns true. *)
Theorem disconnected_no_io :
  (forall (s : Client.t) command timeout os,
      Client.is_connected s = false ->
      run (Client.send_command command os) s = (Ok false, s, [Log LvError])
      /\ run (Client.receive_data timeout os) s = (Ok None, s, [Log LvError])
      /\ Client.is_connected (state (run (Client.disconnect os) s)) = false
      /\ run TeleopInterface.check_connection s = (Ok false, s, []))
  /\ (forall (s : Server.t) command timeout os,
      Server.is_connected s = false ->
      run (Server.send_command command os) s = (Ok false, s, [Log LvError])
      /\ run (Server.receive_data timeout os) s = (Ok None, s, [Log LvError])
      /\ Server.is_connected (state (run (Server.disconnect os) s)) = false
      /\ run TeleopInterface.check_connection s = (Ok false, s, []))
  /\ (forall (s : Line.t) command data size timeout api,
      Line.is_connected s = false ->
      run (Line.send_command command api) s = (Ok false, s, [Log LvError])
      /\ run (Line.receive_data timeout api) s = (Ok None, s, [Log LvError])
      /\ run (Line.send_raw_bytes data api) s = (Ok false, s, [Log LvError])
      /\ run (Line.receive_raw_bytes size timeout api) s = (Ok None, s, [Log LvError])
      /\ Line.is_connected (state (run (Line.disconnect api) s)) = false
      /\ Line.is_connected (state (run (Line.clear_buffers api) s)) = false
      /\ run TeleopInterface.check_connection s = (Ok false, s, []))
  /\ (forall (s : Client.t) os,
      Client.is_connected (state (run (Client.connect os) s)) = true
      <-> result (run (Client.connect os) s) = Ok true)
  /\ (forall (s : Server.t) os,
      Server.is_connected (state (run (Server.connect os) s)) = true
      <-> result (run (Server.connect os) s) = Ok true)
  /\ (forall (s : Line.t) api,
      Line.is_connected (state (run (Line.connect api) s)) = true
      <-> result (run (Line.connect api) s) = Ok true).
Proof. repeat split; settle. Qed.

(** When a [disconnect] returns false: exactly when a close it makes raises.
    The client closes its socket if it has one; the server its accepted
    connection and then, if that close returned, its listening socket; the
    serial binding its port if it is open. *)
Lemma disconnect_fails :
  (forall (s : Client.t) os,
      result (run (Client.disconnect os) s) = Ok false
      <-> exists h e, Client.socket s = Some h /\ os_close os h = Raise e)
  /\ (forall (s : Server.t) os,
      result (run (Server.disconnect os) s) = Ok false
      <-> exists h e,
            (Server.client_socket s = Some h \/ Server.server_socket s = Some h)
            /\ os_close os h = Raise e)
  /\ (forall (s : Line.t) api,
      result (run (Line.disconnect api) s) = Ok false
      <-> exists sp e,
            Line.serial_port s = Some sp /\ Serial.is_open sp = true
            /\ ser_close api = Raise e).
Proof.
  split; [|split].
  - intros [c h p pr b [k|]] os; step.
    + destruct (os_close os k) as [[]|e] eqn:E; cbn; split.
      * discriminate.
      * intros (h' & e & [= <-] & E'). congruence.
      * eauto.
      * reflexivity.
    + split; [discriminate|]. intros (h' & e & E & _). discriminate.
  - intros [c h p pr b k1 k2 a] os; step.
    destruct k2 as [k|]; cbn.
    + destruct (os_close os k) as [[]|e] eqn:E; cbn.
      * destruct k1 as [k'|]; cbn.
        -- destruct (os_close os k') as [[]|e'] eqn:E'; cbn; split.
           ++ discriminate.
           ++ intros (h' & e & [[= <-]|[= <-]] & E''); congruence.
           ++ eauto.
           ++ reflexivity.
        -- split; [discriminate|].
           intros (h' & e & [[= <-]|E'] & E''); [congruence|discriminate].
      * split; [eauto|reflexivity].
    + destruct k1 as [k'|]; cbn.
      * destruct (os_close os k') as [[]|e'] eqn:E'; cbn; split.
        -- discriminate.
        -- intros (h' & e & [E|[= <-]] & E''); [discriminate|congruence].
        -- eauto.
        -- reflexivity.
      * split; [discriminate|].
        intros (h' & e & [E|E] & _); discriminate.
  - intros [c p b t bs pa sb [[o to]|]] api; step.
    + destruct o; cbn.
      * destruct (ser_close api) as [[]|e] eqn:E; cbn; split.
        -- discriminate.
        -- intros (sp & e & _ & _ & E'). discriminate.
        -- eauto.
        -- reflexivity.
      * split; [discriminate|]. intros (sp & e & [= <-] & E & _). discriminate.
    + split; [discriminate|]. intros (sp & e & E & _). discriminate.
Qed.

(** C3, as the code has it.  A [disconnect] returns true or false and never
    raises.  When it returns true the connected flag is false afterwards, so
    [check_connection] then returns false; when it returns false the flag is
    what it was before the call, and it returns false exactly when a close it
    makes raises.  [check_connection] returns false on a newly constructed
    object and true after a [connect] that returned true.  The last parts
    are the failing release, close by close: the error is logged, false is
    returned, and the object is what it was, except that a server whose
    accepted connection closed before the listening socket failed to has
    forgotten that connection. *)
Theorem disconnect_flag :
  (forall (s : Client.t) os,
      let r := run (Client.disconnect os) s in
      (result r = Ok true
       /\ run TeleopInterface.check_connection (state r) = (Ok false, state r, []))
      \/ (result r = Ok false
          /\ Client.is_connected (state r) = Client.is_connected s))
  /\ (forall (s : Server.t) os,
      let r := run (Server.disconnect os) s in
      (result r = Ok true
       /\ run TeleopInterface.check_connection (state r) = (Ok false, state r, []))
      \/ (result r = Ok false
          /\ Server.is_connected (state r) = Server.is_connected s))
  /\ (forall (s : Line.t) api,
      let r := run (Line.disconnect api) s in
      (result r = Ok true
       /\ run TeleopInterface.check_connection (state r) = (Ok false, state r, []))
      \/ (result r = Ok false
          /\ Line.is_connected (state r) = Line.is_connected s))
  /\ (forall host port protocol buffer_size s,
      Client.__init__ host port protocol buffer_size = Ok s ->
      run TeleopInterface.check_connection s = (Ok false, s, []))
  /\ (forall host port protocol buffer_size s,
      Server.__init__ host port protocol buffer_size = Ok s ->
      run TeleopInterface.check_connection s = (Ok false, s, []))
  /\ (forall port baudrate timeout bytesize parity stopbits s,
      Line.__init__ port baudrate timeout bytesize parity stopbits = Ok s ->
      run TeleopInterface.check_connection s = (Ok false, s, []))
  /\ (forall (s : Client.t) os,
      let r := run (Client.connect os) s in
      result r = Ok true ->
      run TeleopInterface.check_connection (state r) = (Ok true, state r, []))
  /\ (forall (s : Server.t) os,
      let r := run (Server.connect os) s in
      result r = Ok true ->
      run TeleopInterface.check_connection (state r) = (Ok true, state r, []))
  /\ (forall (s : Line.t) api,
      let r := run (Line.connect api) s in
      result r = Ok true ->
      run TeleopInterface.check_connection (state r) = (Ok true, state r, []))
  /\ (forall (s : Client.t) os,
      result (run (Client.disconnect os) s) = Ok false
      <-> exists h e, Client.socket s = Some h /\ os_close os h = Raise e)
  /\ (forall (s : Server.t) os,
      result (run (Server.disconnect os) s) = Ok false
      <-> exists h e,
            (Server.client_socket s = Some h \/ Server.server_socket s = Some h)
            /\ os_close os h = Raise e)
  /\ (forall (s : Line.t) api,
      result (run (Line.disconnect api) s) = Ok false
      <-> exists sp e,
            Line.serial_port s = Some sp /\ Serial.is_open sp = true
            /\ ser_close api = Raise e)
  /\ (forall (s : Client.t) os h e,
      Client.socket s = Some h -> os_close os h = Raise e ->
      run (Client.disconnect os) s = (Ok false, s, [SockClose h; Log LvError]))
  /\ (forall (s : Server.t) os h e,
      Server.client_socket s = Some h -> os_close os h = Raise e ->
      run (Server.disconnect os) s = (Ok false, s, [SockClose h; Log LvError]))
  /\ (forall (s : Server.t) os k e,
      Server.client_socket s = None ->
      Server.server_socket s = Some k -> os_close os k = Raise e ->
      run (Server.disconnect os) s = (Ok false, s, [SockClose k; Log LvError]))
  /\ (forall (s : Server.t) os h k e,
      Server.client_socket s = Some h -> os_close os h = Ok tt ->
      Server.server_socket s = Some k -> os_close os k = Raise e ->
      run (Server.disconnect os) s
      = (Ok false, Server.set_client_socket None s,
         [SockClose h; SockClose k; Log LvError]))
  /\ (forall (s : Line.t) api sp e,
      Line.serial_port s = Some sp -> Serial.is_open sp = true ->
      ser_close api = Raise e ->
      run (Line.disconnect api) s = (Ok false, s, [SerialClose; Log LvError])).
Proof.
  destruct disconnect_fails as (Fc & Fs & Fl).
  split; [|split; [|split; [|split; [|split; [|split; [|split; [|split; [|split;
    [|split; [exact Fc|split; [exact Fs|split; [exact Fl|]]]]]]]]]]]].
  1-3, 7-9: settle.
  - intros host port protocol buffer_size s. unfold Client.__init__. cbn.
    destruct (known_protocol (upper protocol)); cbn; [|discriminate].
    now intros [= <-].
  - intros host port protocol buffer_size s. unfold Server.__init__. cbn.
    destruct (known_protocol (upper protocol)); cbn; [|discriminate].
    now intros [= <-].
  - intros port baudrate timeout bytesize parity stopbits s.
    unfold Line.__init__. now intros [= <-].
  - split; [settle|]. split; [settle|]. split; [settle|]. split.
    + intros [c h p pr b k1 k2 a] os h' k e Hc Hh Hk He. cbn in Hc, Hk. subst k2 k1.
      step. rewrite Hh. cbn. now rewrite He.
    + intros [c p b t bs pa sb sp'] api [o to] e Hsp Ho Hc.
      cbn in Hsp, Ho. subst sp' o. step. now rewrite Hc.
Qed.

(** C4, as the code has it.  A [disconnect] never raises: it returns true
    or false, and false exactly when a close it makes raises; so it returns
    true whenever the closes it makes succeed.  After a [disconnect] that
    returned true, a second one closes nothing, leaves the object as it is
    and returns true, whatever the outside world would answer; the server
    logs its shutdown again. *)
Theorem disconnect_twice :
  (forall (s : Client.t) os os',
      let r := run (Client.disconnect os) s in
      (result r = Ok true \/ result r = Ok false)
      /\ (result r = Ok false
          <-> exists h e, Client.socket s = Some h /\ os_close os h = Raise e)
      /\ ((forall h, os_close os h = Ok tt) -> result r = Ok true)
      /\ (result r = Ok true ->
          run (Client.disconnect os') (state r) = (Ok true, state r, [])))
  /\ (forall (s : Server.t) os os',
      let r := run (Server.disconnect os) s in
      (result r = Ok true \/ result r = Ok false)
      /\ (result r = Ok false
          <-> exists h e,
                (Server.client_socket s = Some h \/ Server.server_socket s = Some h)
                /\ os_close os h = Raise e)
      /\ ((forall h, os_close os h = Ok tt) -> result r = Ok true)
      /\ (result r = Ok true ->
          run (Server.disconnect os') (state r) = (Ok true, state r, [Log LvInfo])))
  /\ (forall (s : Line.t) api api',
      let r := run (Line.disconnect api) s in
      (result r = Ok true \/ result r = Ok false)
      /\ (result r = Ok false
          <-> exists sp e,
                Line.serial_port s = Some sp /\ Serial.is_open sp = true
                /\ ser_close api = Raise e)
      /\ (ser_close api = Ok tt -> result r = Ok true)
      /\ (result r = Ok true ->
          run (Line.disconnect api') (state r) = (Ok true, state r, []))).
Proof.
  destruct disconnect_fails as (Fc & Fs & Fl).
  split; [|split].
  - intros s os os'. cbv zeta. split; [settle|]. split; [apply Fc|]. split; settle.
  - intros s os os'. cbv zeta. split; [settle|]. split; [apply Fs|]. split; settle.
  - intros s api api'. cbv zeta. split; [settle|]. split; [apply Fl|]. split; settle.
Qed.

(** C5, as the code has it.  On a UDP server, [send_command] returns false
    and sends nothing while no peer address is recorded; with a peer
    recorded, whatever it sends is one datagram to that address, and it
    returns true when the server is connected and the send succeeds.  A
    [receive_data] whose [recvfrom] returns a datagram stores the source of
    that datagram as the peer address, whatever the payload and whatever the
    method then returns; a [receive_data] that does not get that far leaves
    the object as it was.  [send_command], [connect], [disconnect] and
    [check_connection] leave the recorded address as it is. *)
Theorem udp_peer_tracking (s : Server.t) :
  Server.protocol s = "UDP" ->
  (forall command os,
      Server.client_address s = None ->
      let r := run (Server.send_command command os) s in
      result r = Ok false /\ sent (trace r) = [] /\ state r = s)
  /\ (forall command os peer,
      Server.client_address s = Some peer ->
      let r := run (Server.send_command command os) s in
      (forall e, In e (trace r) -> is_transport_io e = true ->
                 exists h data, e = SockSendto h data peer)
      /\ (forall h text data,
             Server.is_connected s = true ->
             Server.server_socket s = Some h ->
             json_dumps (VDict command) = Ok text ->
             encode text = Ok data ->
             os_sendto os h data peer = Ok tt ->
             r = (Ok true, s, [SockSendto h data peer; Log LvDebug])))
  /\ (forall timeout os h data src,
      Server.is_connected s = true ->
      Server.server_socket s = Some h ->
      Qle_bool 0 timeout = true ->
      os_settimeout os h timeout = Ok tt ->
      (0 <=? Server.buffer_size s)%Z = true ->
      os_recvfrom os h (Server.buffer_size s) = Ok (data, src) ->
      let r := run (Server.receive_data timeout os) s in
      state r = Server.set_client_address (Some src) s
      /\ exists rest,
          trace r = SockSettimeout h timeout
                    :: SockRecvfrom h (Server.buffer_size s) :: rest)
  /\ (forall timeout os,
      let r := run (Server.receive_data timeout os) s in
      state r = s
      \/ exists h data src,
           Server.server_socket s = Some h
           /\ os_recvfrom os h (Server.buffer_size s) = Ok (data, src)
           /\ In (SockRecvfrom h (Server.buffer_size s)) (trace r)
           /\ state r = Server.set_client_address (Some src) s)
  /\ (forall timeout os message,
      let r := run (Server.receive_data timeout os) s in
      result r = Ok (Some message) ->
      exists h data src,
        Server.server_socket s = Some h
        /\ os_recvfrom os h (Server.buffer_size s) = Ok (data, src)
        /\ Server.client_address (state r) = Some src)
  /\ (forall command os,
      Server.client_address (state (run (Server.send_command command os) s))
      = Server.client_address s)
  /\ (forall os,
      Server.client_address (state (run (Server.connect os) s))
      = Server.client_address s)
  /\ (forall os,
      Server.client_address (state (run (Server.disconnect os) s))
      = Server.client_address s)
  /\ state (run TeleopInterface.check_connection s) = s.
Proof.
  destruct s as [c h p pr b k1 k2 a]. cbn [Server.protocol]. intros ->.
  split; [|split; [|split; [|split; [|split; [|split; [|split; [|split]]]]]]].
  - intros command os Ha. cbn in Ha. subst a. step.
    destruct c; cbn; [|repeat split]. outcomes; repeat split.
  - intros command os peer Ha. cbn in Ha. subst a. split.
    + step. intros e. destruct c; cbn.
      * destruct (json_dumps (VDict command)) as [text|x]; cbn.
        -- destruct (encode text) as [data|x]; cbn.
           ++ destruct k1 as [k|]; cbn.
              ** destruct (os_sendto os k data peer); cbn;
                   intros [<-|[<-|[]]]; try discriminate; eauto.
              ** intros [<-|[]]; discriminate.
           ++ intros [<-|[]]; discriminate.
        -- intros [<-|[]]; discriminate.
      * intros [<-|[]]; discriminate.
    + intros k text data Hc Hk Ej E Hs. cbn in Hc, Hk. subst c k1. step.
      rewrite Ej. cbn. rewrite E. cbn. now rewrite Hs.
  - intros timeout os k data src Hc Hk Ht Hst Hb Hr. cbn in Hc, Hk, Hb, Hr.
    subst c k1. step. rewrite Ht. cbn. rewrite Hst. cbn. rewrite Hb. cbn.
    rewrite Hr. cbn. paths; split; first [reflexivity | eexists; reflexivity].
  - intros timeout os. step.
    destruct c; cbn; [|now left].
    destruct k1 as [k|]; cbn; [|now left].
    destruct (Qle_bool 0 timeout); cbn; [|now left].
    destruct (os_settimeout os k timeout) as [[]|x]; cbn;
      [|destruct x; now left].
    destruct (0 <=? b)%Z; cbn; [|now left].
    destruct (os_recvfrom os k b) as [[data src]|x] eqn:E; cbn;
      [|destruct x; now left].
    right. exists k, data, src. split; [reflexivity|]. split; [exact E|].
    paths; split; first [reflexivity | right; left; reflexivity].
  - intros timeout os message. step.
    destruct c; cbn; [|discriminate].
    destruct k1 as [k|]; cbn; [|discriminate].
    destruct (Qle_bool 0 timeout); cbn; [|discriminate].
    destruct (os_settimeout os k timeout) as [[]|x]; cbn;
      [|destruct x; discriminate].
    destruct (0 <=? b)%Z; cbn; [|discriminate].
    destruct (os_recvfrom os k b) as [[data src]|x] eqn:E; cbn;
      [|destruct x; discriminate].
    destruct data as [|d0 data]; cbn; [discriminate|].
    destruct (decode (d0 :: data)) as [text|x]; cbn; [|destruct x; discriminate].
    destruct (json_loads text) as [v|x]; cbn; [|destruct x; discriminate].
    intros _. exists k, (d0 :: data), src. auto.
  - intros command os. step. destruct c; cbn; [|reflexivity].
    destruct a, k1; cbn; outcomes; reflexivity.
  - intros os. step. outcomes; reflexivity.
  - intros os. step. destruct k2, k1; cbn; outcomes; reflexivity.
  - reflexivity.
Qed.

(** C10. [disconnect] on the server leaves the recorded peer address as it
    is.  So on a UDP server that recorded a peer, after a [disconnect] and a
    [connect] that succeeds, [send_command] sends to that peer and returns
    true, with no [receive_data] in between. *)
Theorem peer_survives_disconnect :
  (forall (s : Server.t) os,
      Server.client_address (state (run (Server.disconnect os) s))
      = Server.client_address s)
  /\ (forall (s : Server.t) peer os1 os2 os3 command h text data,
      Server.protocol s = "UDP" ->
      Server.client_address s = Some peer ->
      os_socket os2 SOCK_DGRAM = Ok h ->
      os_bind os2 h (Server.host s, Server.port s) = Ok tt ->
      json_dumps (VDict command) = Ok text ->
      encode text = Ok data ->
      os_sendto os3 h data peer = Ok tt ->
      let s1 := state (run (Server.disconnect os1) s) in
      let r2 := run (Server.connect os2) s1 in
      result r2 = Ok true
      /\ run (Server.send_command command os3) (state r2)
         = (Ok true, state r2, [SockSendto h data peer; Log LvDebug])).
Proof.
  split.
  - intros [c h p pr b k1 k2 a] os. step. destruct k2, k1; cbn; outcomes; reflexivity.
  - intros [c hst p pr b k1 k2 a] peer os1 os2 os3 command h text data.
    cbn. intros -> -> Hsock Hbind Hdumps Henc Hsend.
    step.
    destruct k2 as [k|]; cbn; [destruct (os_close os1 k) as [[]|?]; cbn|];
      (destruct k1 as [k'|]; cbn; [destruct (os_close os1 k') as [[]|?]; cbn|]);
      rewrite Hsock; cbn; rewrite Hbind; cbn; rewrite Hdumps; cbn;
      rewrite Henc; cbn; rewrite Hsend; cbn; split; reflexivity.
Qed.

(** What the two serial receive methods do to the handle's read timeout.
    When the read returns, the timeout the handle had before the call is back
    in place afterwards, also when nothing was read or the line does not
    decode.  When the read raises, the call returns [None] and the handle
    keeps the timeout of the call. *)
Lemma receive_timeout_restored (s : Line.t) (sp : Serial.t) timeout api line :
  Line.open_port s = Some sp ->
  Qle_bool 0 timeout = true -> Qle_bool 0 (Serial.timeout sp) = true ->
  (forall t, ser_reconfigure api t = Ok tt) ->
  ser_readline api = Ok line ->
  Line.serial_port (state (run (Line.receive_data timeout api) s)) = Some sp.
Proof.
  destruct s as [c p b t bs pa sb [[o to]|]]; destruct c; try discriminate.
  destruct o; [|discriminate]. cbn [Line.open_port Line.is_connected
    Line.serial_port Serial.is_open]. intros [= <-]. cbn [Serial.timeout].
  intros Ht Hto Hre Hline. step. rewrite Ht. cbn. rewrite Hre. cbn.
  rewrite Hline. cbn. rewrite Hto. cbn. rewrite Hre. cbn.
  destruct line as [|b0 line]; cbn; [reflexivity|].
  destruct (decode (b0 :: line)) as [text|x]; cbn; [|destruct x; reflexivity].
  destruct (json_loads (strip text)) as [v|x]; cbn; [|destruct x]; reflexivity.
Qed.

Lemma receive_timeout_dangling (s : Line.t) (sp : Serial.t) timeout api e :
  Line.open_port s = Some sp ->
  Qle_bool 0 timeout = true ->
  ser_reconfigure api timeout = Ok tt ->
  ser_readline api = Raise e ->
  result (run (Line.receive_data timeout api) s) = Ok None
  /\ Line.serial_port (state (run (Line.receive_data timeout api) s))
     = Some {| Serial.is_open := true; Serial.timeout := timeout |}.
Proof.
  destruct s as [c p b t bs pa sb [[o to]|]]; destruct c; try discriminate.
  destruct o; [|discriminate]. cbn [Line.open_port Line.is_connected
    Line.serial_port Serial.is_open]. intros [= <-].
  intros Ht Hre Hline. step. rewrite Ht. cbn. rewrite Hre. cbn.
  rewrite Hline. cbn. destruct e; split; reflexivity.
Qed.

Lemma receive_raw_timeout_dangling (s : Line.t) (sp : Serial.t) size timeout api e :
  Line.open_port s = Some sp ->
  Qle_bool 0 timeout = true ->
  ser_reconfigure api timeout = Ok tt ->
  ser_read api size = Raise e ->
  result (run (Line.receive_raw_bytes size timeout api) s) = Ok None
  /\ Line.serial_port (state (run (Line.receive_raw_bytes size timeout api) s))
     = Some {| Serial.is_open := true; Serial.timeout := timeout |}.
Proof.
  destruct s as [c p b t bs pa sb [[o to]|]]; destruct c; try discriminate.
  destruct o; [|discriminate]. cbn [Line.open_port Line.is_connected
    Line.serial_port Serial.is_open]. intros [= <-].
  intros Ht Hre Hread. step. rewrite Ht. cbn. rewrite Hre. cbn.
  rewrite Hread. cbn. split; reflexivity.
Qed.


(** C7, as the code has it.  When [receive_raw_bytes] returns a byte string,
    that string is what the handle's [read] returned: it is not empty, and it
    is no longer than [size] provided [read] keeps to its contract of
    returning at most [size] bytes. *)
Theorem raw_bytes_length (s : Line.t) size timeout api data :
  (forall d, ser_read api size = Ok d -> (Z.of_nat (List.length d) <= size)%Z) ->
  result (run (Line.receive_raw_bytes size timeout api) s) = Ok (Some data) ->
  ser_read api size = Ok data
  /\ (1 <= Z.of_nat (List.length data) <= size)%Z.
Proof.
  intros Hread.
  destruct s as [c p b t bs pa sb [[o to]|]]; step;
    destruct c; cbn; try discriminate.
  destruct o; cbn; [|discriminate].
  destruct (Qle_bool 0 timeout); cbn; [|discriminate].
  destruct (ser_reconfigure api timeout) as [[]|x]; cbn; [|discriminate].
  destruct (ser_read api size) as [d|x] eqn:E; cbn; [|discriminate].
  specialize (Hread d eq_refl).
  destruct (Qle_bool 0 to); cbn; [|discriminate].
  destruct (ser_reconfigure api to) as [[]|x]; cbn; [|discriminate].
  destruct d as [|d0 d]; cbn; [discriminate|].
  intros [= <-]. split; [reflexivity|]. cbn [List.length] in *. lia.
Qed.

(** C9, as the code has it.  Constructing a socket client or server raises
    ValueError exactly when the protocol name, upper-cased, is neither TCP
    nor UDP, and otherwise yields a disconnected object holding the
    upper-cased name; a constructor makes no call to the outside.  The
    serial constructor checks nothing and always yields an object; device
    parameters that pyserial refuses make [connect] return false, before the
    device is opened. *)
Theorem construction_checks :
  (forall host port protocol buffer_size,
      if known_protocol (upper protocol)
      then Client.__init__ host port protocol buffer_size
           = Ok {| Client.is_connected := false; Client.host := host;
                   Client.port := port; Client.protocol := upper protocol;
                   Client.buffer_size := buffer_size; Client.socket := None |}
      else Client.__init__ host port protocol buffer_size = Raise ValueError)
  /\ (forall host port protocol buffer_size,
      if known_protocol (upper protocol)
      then Server.__init__ host port protocol buffer_size
           = Ok {| Server.is_connected := false; Server.host := host;
                   Server.port := port; Server.protocol := upper protocol;
                   Server.buffer_size := buffer_size;
                   Server.server_socket := None; Server.client_socket := None;
                   Server.client_address := None |}
      else Server.__init__ host port protocol buffer_size = Raise ValueError)
  /\ (forall p, known_protocol p = true <-> p = "TCP" \/ p = "UDP")
  /\ (forall port baudrate timeout bytesize parity stopbits,
      Line.__init__ port baudrate timeout bytesize parity stopbits
      = Ok {| Line.is_connected := false; Line.port := port;
              Line.baudrate := baudrate; Line.timeout := timeout;
              Line.bytesize := bytesize; Line.parity := parity;
              Line.stopbits := stopbits; Line.serial_port := None |})
  /\ (forall (s : Line.t) api,
      Serial.valid_parameters (Line.baudrate s) (Line.bytesize s) (Line.parity s)
                              (Line.stopbits s) (Line.timeout s) = false ->
      run (Line.connect api) s
      = (Ok false, Line.set_is_connected false s, [Log LvError])).
Proof.
  split; [|split; [|split; [|split]]].
  - intros h p pr b. unfold Client.__init__. cbn.
    now destruct (known_protocol (upper pr)).
  - intros h p pr b. unfold Server.__init__. cbn.
    now destruct (known_protocol (upper pr)).
  - intros p. unfold known_protocol. rewrite orb_true_iff, !String.eqb_eq. tauto.
  - reflexivity.
  - intros [c p b t bs pa sb sp] api. cbn [Line.baudrate Line.bytesize Line.parity
      Line.stopbits Line.timeout]. intros Hv.
    unfold run, Line.connect, Serial.create, try_except, bind, get, raise.
    cbn [Line.baudrate Line.bytesize Line.parity Line.stopbits Line.timeout Line.port].
    rewrite Hv. reflexivity.
Qed.

End Facts.

(** *** Messages survive the wire *)

Section RoundTrip.
Context {PF : PyFloat} {PFS : PyFloatSpec} {PL : PyLimits}.

Lemma wire_codec (m : pydict) :
  representable (VDict m) = true ->
  encode (dumps (VDict m)) = Ok (map byte_of (dumps (VDict m)))
  /\ decode (map byte_of (dumps (VDict m))) = Ok (dumps (VDict m)).
Proof.
  intros Rm. pose proof (dumps_printable _ Rm) as Hp.
  destruct (utf8_ascii _ (printable_ascii _ Hp)) as [He Hd].
  unfold encode, decode. now rewrite He, Hd.
Qed.

Lemma line_codec (m : pydict) :
  representable (VDict m) = true ->
  encode (dumps (VDict m) ++ [10%N])%list = Ok (map byte_of (dumps (VDict m) ++ [10%N])%list)
  /\ decode (map byte_of (dumps (VDict m) ++ [10%N])%list) = Ok (dumps (VDict m) ++ [10%N])%list
  /\ strip (dumps (VDict m) ++ [10%N])%list = dumps (VDict m).
Proof.
  intros Rm. pose proof (dumps_printable _ Rm) as Hp.
  assert (Ha : forallb (fun c => (c <? 0x80)%N) (dumps (VDict m) ++ [10%N])%list = true).
  { rewrite forallb_app, (printable_ascii _ Hp). reflexivity. }
  destruct (utf8_ascii _ Ha) as [He Hd].
  unfold encode, decode. rewrite He, Hd. repeat split.
  unfold dumps. fold (@dumps PF).
  rewrite <- app_comm_cons, <- app_assoc. apply strip_object_line.
Qed.

Lemma wire_nonempty (m : pydict) (tail : pystr) :
  exists b data, map byte_of (dumps (VDict m) ++ tail)%list = b :: data.
Proof. unfold dumps. fold (@dumps PF). cbn [app map]. eauto. Qed.

(** The framing of the serial line: the text of a mapping holds no line
    feed, so a line read on what was written for it, whatever follows,
    returns exactly that. *)
Lemma line_framing (m : pydict) (more : bytes) :
  representable (VDict m) = true ->
  Serial.readline_of (map byte_of (dumps (VDict m) ++ [10%N])%list ++ more)%list
  = map byte_of (dumps (VDict m) ++ [10%N])%list.
Proof.
  intros Rm. pose proof (dumps_printable _ Rm) as Hp.
  induction (dumps (VDict m)) as [|c s IH]; [reflexivity|].
  cbn [forallb] in Hp. apply andb_prop in Hp as [Hc Hs].
  cbn [app map Serial.readline_of].
  pose proof (printable_not_space [c] c) as Hn. cbn [forallb] in Hn.
  rewrite Hc in Hn. specialize (Hn eq_refl (or_introl eq_refl)).
  unfold printable in Hc. apply andb_prop in Hc as [_ Hc]. apply N.leb_le in Hc.
  rewrite byte_of_small by lia.
  destruct (N.eqb_spec c 10); [contradiction|]. now rewrite IH.
Qed.

Lemma firstn_fits (data : bytes) (size : Z) :
  (Z.of_nat (List.length data) <= size)%Z -> firstn (Z.to_nat size) data = data.
Proof. intros H. apply firstn_all2. lia. Qed.

(** C1, as the code has it.  Let [m] be a mapping that JSON represents (text
    strings, finite floats, each key once) and that is within the limits of
    the interpreter, for [json.dumps] and for [json.loads].  On a connected
    binding whose write succeeds, [send_command] returns true and its one
    write is of exactly the UTF-8 bytes of [json.dumps(m)] (followed by a
    newline on the serial line); whenever it returns true it has written
    exactly those.  When the transport holds those bytes and they fit in the
    receive buffer of a socket binding, or when they are the line a serial
    read returns, [receive_data] returns a mapping equal to [m]. *)
Theorem round_trip (m : pydict) :
  representable (VDict m) = true ->
  fits encoder_depth (VDict m) = true ->
  fits scanner_depth (VDict m) = true ->
  let data := map byte_of (dumps (VDict m)) in
  let line := map byte_of (dumps (VDict m) ++ [10%N])%list in
  (forall (s : Client.t) os h,
      Client.is_connected s = true -> Client.socket s = Some h ->
      (if Client.protocol s =? "TCP" then os_sendall os h data
       else os_sendto os h data (Client.host s, Client.port s)) = Ok tt ->
      run (Client.send_command m os) s
      = (Ok true, s,
         [if Client.protocol s =? "TCP" then SockSendall h data
          else SockSendto h data (Client.host s, Client.port s);
          Log LvDebug]))
  /\ (forall (s : Server.t) os h,
      Server.is_connected s = true -> (Server.protocol s =? "TCP") = true ->
      Server.client_socket s = Some h ->
      os_sendall os h data = Ok tt ->
      run (Server.send_command m os) s
      = (Ok true, s, [SockSendall h data; Log LvDebug]))
  /\ (forall (s : Server.t) os h peer,
      Server.is_connected s = true -> (Server.protocol s =? "TCP") = false ->
      Server.server_socket s = Some h -> Server.client_address s = Some peer ->
      os_sendto os h data peer = Ok tt ->
      run (Server.send_command m os) s
      = (Ok true, s, [SockSendto h data peer; Log LvDebug]))
  /\ (forall (s : Line.t) api sp written,
      Line.open_port s = Some sp ->
      ser_write api line = Ok written -> ser_flush api = Ok tt ->
      run (Line.send_command m api) s
      = (Ok true, s, [SerialWrite line; SerialFlush; Log LvDebug]))
  /\ (forall (s : Client.t) os,
      result (run (Client.send_command m os) s) = Ok true ->
      sent (trace (run (Client.send_command m os) s)) = [data])
  /\ (forall (s : Server.t) os,
      result (run (Server.send_command m os) s) = Ok true ->
      sent (trace (run (Server.send_command m os) s)) = [data])
  /\ (forall (s : Line.t) api,
      result (run (Line.send_command m api) s) = Ok true ->
      sent (trace (run (Line.send_command m api) s)) = [line])
  /\ (forall (s : Client.t) os timeout,
      client_offered os s timeout data ->
      (Z.of_nat (List.length data) <= Client.buffer_size s)%Z ->
      result (run (Client.receive_data timeout os) s) = Ok (Some (VDict m)))
  /\ (forall (s : Server.t) os timeout,
      server_offered os s timeout data ->
      (Z.of_nat (List.length data) <= Server.buffer_size s)%Z ->
      result (run (Server.receive_data timeout os) s) = Ok (Some (VDict m)))
  /\ (forall (s : Line.t) api timeout,
      line_reads api s timeout line ->
      result (run (Line.receive_data timeout api) s) = Ok (Some (VDict m))).
Proof.
  intros Rm Fe Fs data line.
  destruct (wire_codec m Rm) as (Henc & Hdec).
  pose proof (json_dumps_fits _ Fe) as Hdumps.
  pose proof (json_loads_dumps _ Rm Fs) as Hloads.
  destruct (line_codec m Rm) as (Hlenc & Hldec & Hstrip).
  destruct (wire_nonempty m []) as (b0 & rest0 & Hne). rewrite app_nil_r in Hne.
  destruct (wire_nonempty m [10%N]) as (b1 & rest1 & Hlne).
  fold data in Henc, Hdec, Hne. fold line in Hlenc, Hldec, Hlne.
  split; [|split; [|split; [|split; [|split; [|split; [|split; [|split; [|split]]]]]]]].
  - intros [c h p pr b k] os k' Hc Hk Hs. cbn in Hc, Hk, Hs. subst c k. step.
    rewrite Hdumps. cbn. rewrite Henc. cbn.
    destruct (pr =? "TCP"); cbn; rewrite Hs; reflexivity.
  - intros [c h p pr b k1 k2 a] os k Hc Hp Hk Hs. cbn in Hc, Hp, Hk. subst c k2. step.
    rewrite Hdumps. cbn. rewrite Henc. cbn. rewrite Hp. cbn. now rewrite Hs.
  - intros [c h p pr b k1 k2 a] os k peer Hc Hp Hk Ha Hs. cbn in Hc, Hp, Hk, Ha.
    subst c k1 a. step.
    rewrite Hdumps. cbn. rewrite Henc. cbn. rewrite Hp. cbn. now rewrite Hs.
  - intros [c p b t bs pa sb sp] api sp' written Hsp Hw Hf.
    destruct c; [|discriminate]. destruct sp as [[o to]|]; [|discriminate].
    destruct o; [|discriminate].
    step. rewrite Hdumps. cbn. rewrite Hlenc. cbn. rewrite Hw. cbn. now rewrite Hf.
  - intros [c h p pr b [k|]] os; step; destruct c; cbn; try discriminate.
    rewrite Hdumps. cbn. rewrite Henc. cbn. destruct (pr =? "TCP"); cbn; outcomes;
      first [reflexivity | discriminate].
  - intros [c h p pr b k1 k2 a] os; step; destruct c; cbn; try discriminate.
    rewrite Hdumps. cbn. rewrite Henc. cbn. destruct (pr =? "TCP"); cbn.
    + destruct k2; cbn; outcomes; first [reflexivity | discriminate].
    + destruct a, k1; cbn; outcomes; first [reflexivity | discriminate].
  - intros [c p b t bs pa sb [[o to]|]] api; step; destruct c; cbn;
      try discriminate.
    destruct o; cbn; [|discriminate].
    rewrite Hdumps. cbn. rewrite Hlenc. cbn. outcomes; first [reflexivity | discriminate].
  - intros [c h p pr b k] os timeout Ho Hfit. unfold client_offered in Ho.
    cbn [Client.buffer_size] in Ho, Hfit. rewrite (firstn_fits _ _ Hfit) in Ho.
    destruct Ho as (k' & Hc & Hk & Ht & Hst & Hb & Hread).
    cbn in Hc, Hk, Hb, Hread. subst c k. step. rewrite Ht. cbn. rewrite Hst. cbn.
    rewrite Hb. destruct (pr =? "TCP"); cbn.
    + rewrite Hread. cbn. rewrite Hne. cbn. rewrite <- Hne, Hdec. cbn.
      rewrite Hloads. reflexivity.
    + destruct Hread as [src Hread]. rewrite Hread. cbn.
      rewrite Hne. cbn. rewrite <- Hne, Hdec. cbn. rewrite Hloads. reflexivity.
  - intros [c h p pr b k1 k2 a] os timeout Ho Hfit. unfold server_offered in Ho.
    cbn [Server.buffer_size] in Ho, Hfit. rewrite (firstn_fits _ _ Hfit) in Ho.
    destruct Ho as (Hc & Ht & Hb & Hread).
    cbn in Hc, Hb, Hread. subst c. step. destruct (pr =? "TCP"); cbn.
    + destruct Hread as (k & -> & Hst & Hread). cbn. rewrite Ht. cbn.
      rewrite Hst. cbn. rewrite Hb. cbn. rewrite Hread. cbn.
      rewrite Hne. cbn. rewrite <- Hne, Hdec. cbn. rewrite Hloads. reflexivity.
    + destruct Hread as (k & src & -> & Hst & Hread). cbn. rewrite Ht. cbn.
      rewrite Hst. cbn. rewrite Hb. cbn. rewrite Hread. cbn.
      rewrite Hne. cbn. rewrite <- Hne, Hdec. cbn. rewrite Hloads. reflexivity.
  - intros [c p b t bs pa sb sp] api timeout (sp' & Hsp & Ht & Hto & Hre & Hread).
    destruct c; [|discriminate]. destruct sp as [[o to]|]; [|discriminate].
    destruct o; [|discriminate]. cbn in Hsp. injection Hsp as <-. cbn in Hto.
    step. rewrite Ht. cbn. rewrite Hre. cbn. rewrite Hread. cbn.
    rewrite Hto. cbn. rewrite Hre. cbn. rewrite Hlne. cbn.
    rewrite <- Hlne, Hldec. cbn. rewrite Hstrip, Hloads. reflexivity.
Qed.

End RoundTrip.

#[local] Existing Instance Halves.halves.
#[local] Existing Instance Defaults.limits.

(** C6 on a failing read: an open serial transport whose handle has a read
    timeout of 1 second is asked to receive with a timeout of 5 seconds; the
    line read raises.  The call returns [None] and the handle is left with
    the 5 seconds. *)
Lemma receive_data_timeout_dangling :
  run (Line.receive_data 5 dev_broken) open_line
  = (Ok None,
     Line.set_serial_port (Some {| Serial.is_open := true; Serial.timeout := 5 |})
                          open_line,
     [SerialSetTimeout 5; SerialReadline; Log LvError])
  /\ run (Line.receive_raw_bytes 5 5 dev_broken) open_line
     = (Ok None,
        Line.set_serial_port (Some {| Serial.is_open := true; Serial.timeout := 5 |})
                             open_line,
        [SerialSetTimeout 5; SerialRead 5; Log LvError]).
Proof. split; reflexivity. Qed.

(** C7, as stated, fails: five bytes are asked for, three arrive before the
    timeout, and the three are returned. *)
Lemma raw_bytes_length_counterexample :
  result (run (Line.receive_raw_bytes 5 1 (dev_fine [x01; x02; x03])) open_line)
  = Ok (Some [x01; x02; x03])
  /\ List.length [x01; x02; x03] <> 5%nat.
Proof. split; [reflexivity|discriminate]. Qed.

(** C8 when the enumeration fails: the handler evaluates the name [logging],
    which [serial_teleop.py] never binds, and the NameError leaves the
    method; nothing is logged and no list is returned. *)
Lemma list_available_ports_raises :
  comports dev_broken = Raise OSError
  /\ existsb (String.eqb "logging") Line.module_globals = false
  /\ run (Line.list_available_ports dev_broken) tt
     = (Raise NameError, tt, [ListComports])
  /\ run (Line.list_available_ports (dev_fine [])) tt
     = (Ok ["/dev/ttyUSB0"], tt, [ListComports]).
Proof. repeat split. Qed.

(** C9, as stated, fails: a serial transport is constructed with 9 data
    bits, which pyserial refuses; the constructor returns the object, and
    the refusal shows as [connect] returning false. *)
Lemma construction_checks_counterexample :
  Serial.valid_parameters 115200 9 "N" 1 1 = false
  /\ (exists s,
        Line.__init__ "/dev/ttyUSB0" 115200 1 9 "N" 1 = Ok s
        /\ run (Line.connect (dev_fine [])) s = (Ok false, s, [Log LvError])).
Proof. split; [reflexivity|]. eexists. split; reflexivity. Qed.

(** C3, as stated, fails: on a connected client whose [close] raises,
    [disconnect] returns false and [check_connection] still returns true. *)
Lemma disconnect_flag_counterexample :
  os_close os_close_fails 7%nat = Raise OSError
  /\ result (run (Client.disconnect os_close_fails) tcp_client) = Ok false
  /\ result (run TeleopInterface.check_connection
                 (state (run (Client.disconnect os_close_fails) tcp_client)))
     = Ok true.
Proof. repeat split. Qed.

(** C4, as stated, fails: the sample client is the state reached by
    constructing a TCP client and connecting it, and its first [disconnect]
    returns false when [close] raises. *)
Lemma disconnect_twice_counterexample :
  (exists s0,
      Client.__init__ "127.0.0.1" 8888 "tcp" 4096 = Ok s0
      /\ run (Client.connect (os_fine [] ("", 0%Z))) s0
         = (Ok true, tcp_client, [SocketNew SOCK_STREAM;
                                  SockConnect 7%nat ("127.0.0.1", 8888%Z);
                                  Log LvInfo]))
  /\ result (run (Client.disconnect os_close_fails) tcp_client) <> Ok true.
Proof.
  split; [eexists; split; reflexivity|]. discriminate.
Qed.

(** C5, as stated, fails: a UDP server that recorded one peer reads a
    datagram from another that is not JSON; [receive_data] returns [None],
    and the recorded peer is the new sender all the same. *)
Lemma udp_peer_tracking_counterexample :
  utf8_decode [x6f; x6b] = Some (str "ok")
  /\ loads (str "ok") = None
  /\ result (run (Server.receive_data 5 (os_fine [x6f; x6b] second_peer))
                 (udp_server (Some sample_peer)))
     = Ok None
  /\ Server.client_address
       (state (run (Server.receive_data 5 (os_fine [x6f; x6b] second_peer))
                   (udp_server (Some sample_peer))))
     = Some second_peer
  /\ second_peer <> sample_peer.
Proof. repeat split. discriminate. Qed.

(** C1, as stated, fails, twice.  A command holding a list nested 1500
    deep is a valid mapping, but [json.dumps] gives up on it at the
    recursion limit of the interpreter: [send_command] returns false and
    writes nothing.  And the sample command, 40 bytes on the wire, reaches a
    TCP server whose receive buffer takes 16: every byte is delivered to the
    socket, the one read takes the first 16, and [receive_data] returns
    [None]. *)
Lemma round_trip_counterexample :
  (representable (VDict deep_command) = true
   /\ run (Client.send_command deep_command (os_fine [] sample_peer)) tcp_client
      = (Ok false, tcp_client, [Log LvError]))
  /\ (representable (VDict sample_command) = true
      /\ sent (trace (run (Client.send_command sample_command (os_fine [] sample_peer))
                          tcp_client))
         = [map byte_of (dumps (VDict sample_command))]
      /\ List.length (map byte_of (dumps (VDict sample_command))) = 40%nat
      /\ server_offered (os_holding (map byte_of (dumps (VDict sample_command)))
                                    sample_peer)
                        small_server 5 (map byte_of (dumps (VDict sample_command)))
      /\ result (run (Server.receive_data 5
                        (os_holding (map byte_of (dumps (VDict sample_command)))
                                    sample_peer))
                     small_server)
         = Ok None).
Proof.
  split; [split; [reflexivity|vm_compute; reflexivity]|].
  split; [reflexivity|]. split; [vm_compute; reflexivity|].
  split; [reflexivity|]. split; [|vm_compute; reflexivity].
  unfold server_offered, server_reads. cbn. repeat split.
  exists 8%nat. repeat split.
Qed.

(** *** The theorems at sample inputs *)

Lemma round_trip_witness :
  representable (VDict sample_command) = true
  /\ run (Client.send_command sample_command (os_fine [] sample_peer)) tcp_client
     = (Ok true, tcp_client,
        [SockSendall 7%nat (map byte_of (dumps (VDict sample_command))); Log LvDebug])
  /\ result (run (Server.receive_data 5
                    (os_holding (map byte_of (dumps (VDict sample_command))) sample_peer))
                 (udp_server None))
     = Ok (Some (VDict sample_command)).
Proof.
  pose proof (@round_trip Halves.halves halves_spec Defaults.limits sample_command
                eq_refl eq_refl eq_refl) as H.
  cbv zeta in H. split; [reflexivity|]. split.
  - exact (proj1 H tcp_client (os_fine [] sample_peer) 7%nat eq_refl eq_refl eq_refl).
  - apply (proj1 (proj2 (proj2 (proj2 (proj2 (proj2 (proj2 (proj2 (proj2 H))))))))).
    + unfold server_offered, server_reads. cbn. repeat split.
      exists 7%nat, sample_peer. repeat split.
    + apply Z.leb_le. reflexivity.
Defined.

Lemma disconnected_no_io_witness :
  Client.is_connected idle_client = false
  /\ run (Client.send_command sample_command (os_fine [] sample_peer)) idle_client
     = (Ok false, idle_client, [Log LvError]).
Proof.
  split; [reflexivity|].
  apply (proj1 (@disconnected_no_io Halves.halves Defaults.limits)
           idle_client sample_command 1%Q (os_fine [] sample_peer) eq_refl).
Defined.

Lemma disconnect_flag_witness :
  result (run (Client.connect (os_fine [] sample_peer)) idle_client) = Ok true
  /\ result (run TeleopInterface.check_connection
                 (state (run (Client.connect (os_fine [] sample_peer)) idle_client)))
     = Ok true
  /\ os_close os_close_fails 7%nat = Raise OSError
  /\ run (Server.disconnect os_close_fails) (udp_server None)
     = (Ok false, udp_server None, [SockClose 7%nat; Log LvError]).
Proof.
  split; [reflexivity|]. split.
  - pose proof (proj1 (proj2 (proj2 (proj2 (proj2 (proj2 (proj2 disconnect_flag))))))
                  idle_client (os_fine [] sample_peer) eq_refl) as H.
    cbv zeta in H. now rewrite H.
  - split; [reflexivity|].
    exact (proj1 (proj2 (proj2 (proj2 (proj2 (proj2 (proj2 (proj2 (proj2 (proj2
             (proj2 (proj2 (proj2 (proj2 (proj2 disconnect_flag))))))))))))))
             (udp_server None) os_close_fails 7%nat OSError eq_refl eq_refl eq_refl).
Defined.

Lemma disconnect_twice_witness :
  result (run (Client.disconnect (os_fine [] sample_peer)) tcp_client) = Ok true
  /\ result (run (Client.disconnect os_close_fails)
                 (state (run (Client.disconnect (os_fine [] sample_peer)) tcp_client)))
     = Ok true
  /\ result (run (Server.disconnect os_close_fails) (udp_server None)) = Ok false.
Proof.
  split; [reflexivity|]. split.
  - pose proof (proj2 (proj2 (proj2 (proj1 disconnect_twice tcp_client
                                 (os_fine [] sample_peer) os_close_fails))) eq_refl) as H.
    now rewrite H.
  - apply (proj1 (proj2 (proj1 (proj2 disconnect_twice) (udp_server None)
                           os_close_fails os_close_fails))).
    exists 7%nat, OSError. split; [right; reflexivity|reflexivity].
Defined.

Lemma udp_peer_tracking_witness :
  Server.protocol (udp_server None) = "UDP"
  /\ result (run (Server.send_command sample_command (os_fine [] sample_peer))
                 (udp_server None))
     = Ok false
  /\ state (run (Server.receive_data 5 (os_fine [x6f; x6b] sample_peer))
                (udp_server None))
     = udp_server (Some sample_peer)
  /\ run (Server.send_command sample_command (os_fine [] second_peer))
         (udp_server (Some sample_peer))
     = (Ok true, udp_server (Some sample_peer),
        [SockSendto 7%nat (map byte_of (dumps (VDict sample_command))) sample_peer;
         Log LvDebug]).
Proof.
  split; [reflexivity|]. split; [|split].
  - apply (proj1 (@udp_peer_tracking Halves.halves Defaults.limits
                    (udp_server None) eq_refl)
             sample_command (os_fine [] sample_peer) eq_refl).
  - pose proof (proj1 (proj2 (proj2 (@udp_peer_tracking Halves.halves Defaults.limits
                                       (udp_server None) eq_refl)))
                  5%Q (os_fine [x6f; x6b] sample_peer) 7%nat [x6f; x6b] sample_peer
                  eq_refl eq_refl eq_refl eq_refl eq_refl eq_refl) as H.
    cbv zeta in H. exact (proj1 H).
  - pose proof (proj1 (proj2 (@udp_peer_tracking Halves.halves Defaults.limits
                                (udp_server (Some sample_peer)) eq_refl))
                  sample_command (os_fine [] second_peer) sample_peer eq_refl) as H.
    cbv zeta in H.
    exact (proj2 H 7%nat (dumps (VDict sample_command))
             (map byte_of (dumps (VDict sample_command)))
             eq_refl eq_refl eq_refl eq_refl eq_refl).
Defined.

Lemma peer_survives_disconnect_witness :
  Server.client_address (udp_server (Some sample_peer)) = Some sample_peer
  /\ result (run (Server.send_command sample_command (os_fine [] sample_peer))
                 (state (run (Server.connect (os_fine [] sample_peer))
                             (state (run (Server.disconnect (os_fine [] sample_peer))
                                         (udp_server (Some sample_peer)))))))
     = Ok true.
Proof.
  split; [reflexivity|].
  pose proof (proj2 (@peer_survives_disconnect Halves.halves Defaults.limits)
                (udp_server (Some sample_peer)) sample_peer
                (os_fine [] sample_peer) (os_fine [] sample_peer) (os_fine [] sample_peer)
                sample_command 7%nat (dumps (VDict sample_command))
                (map byte_of (dumps (VDict sample_command)))
                eq_refl eq_refl eq_refl eq_refl eq_refl eq_refl eq_refl) as H.
  cbv zeta in H. destruct H as [_ H]. now rewrite H.
Defined.

Lemma raw_bytes_length_witness :
  result (run (Line.receive_raw_bytes 5 1 (dev_fine [x01; x02; x03; x04; x05])) open_line)
  = Ok (Some [x01; x02; x03; x04; x05])
  /\ (1 <= Z.of_nat (List.length [x01; x02; x03; x04; x05]) <= 5)%Z.
Proof.
  split; [reflexivity|].
  apply (raw_bytes_length open_line 5%Z 1%Q (dev_fine [x01; x02; x03; x04; x05])
           [x01; x02; x03; x04; x05]).
  - intros d [= <-]. cbn. lia.
  - reflexivity.
Defined.

Lemma construction_checks_witness :
  known_protocol (upper "FOO") = false
  /\ Client.__init__ "127.0.0.1" 8888 "FOO" 4096 = Raise ValueError
  /\ (exists s, Client.__init__ "127.0.0.1" 8888 "udp" 4096 = Ok s
                /\ Client.protocol s = "UDP").
Proof.
  split; [reflexivity|]. split.
  - exact (proj1 construction_checks "127.0.0.1" 8888%Z "FOO" 4096%Z).
  - eexists. split.
    + exact (proj1 construction_checks "127.0.0.1" 8888%Z "udp" 4096%Z).
    + reflexivity.
Defined.

End TransportFacts.

(** ** Further facts about the codec *)

Module CodecFacts.
Import Py Json JsonSpec JsonFacts Tactics.
Unset Implicit Arguments.
Local Open Scope N_scope.

Lemma forallb_rev (A : Type) (p : A -> bool) (l : list A) :
  forallb p l = true -> forallb p (List.rev l) = true.
Proof.
  rewrite !forallb_forall. intros H x Hx. apply H. now apply in_rev.
Qed.

Lemma lstrip_spaces l s : forallb isspace l = true -> lstrip (l ++ s) = lstrip s.
Proof.
  induction l as [|c l IH]; [reflexivity|]. cbn [forallb app lstrip].
  intros H. apply andb_prop in H as [Hc Hl]. rewrite Hc. auto.
Qed.

Lemma lstrip_all l : forallb isspace l = true -> lstrip l = [].
Proof.
  intros H. rewrite <- (app_nil_r l). now rewrite lstrip_spaces.
Qed.

Lemma strip_blank l : forallb isspace l = true -> strip l = [].
Proof. intros H. unfold strip. now rewrite lstrip_all. Qed.

(** [strip] removes white space around a text that neither begins nor ends
    with any, and nothing else. *)
Lemma strip_padded lead body trail :
  forallb isspace lead = true -> forallb isspace trail = true ->
  match body with c :: _ => isspace c = false | [] => False end ->
  match List.rev body with c :: _ => isspace c = false | [] => False end ->
  strip (lead ++ body ++ trail) = body.
Proof.
  intros Hl Ht Hb He. unfold strip. rewrite lstrip_spaces by assumption.
  destruct body as [|c body]; [contradiction|].
  cbn [app lstrip]. rewrite Hb. unfold rstrip.
  change (c :: body ++ trail)%list with ((c :: body) ++ trail)%list.
  rewrite rev_app_distr, lstrip_spaces by now apply forallb_rev.
  destruct (List.rev (c :: body)) as [|e r] eqn:E; [contradiction|].
  cbn [lstrip]. rewrite He, <- E. apply rev_involutive.
Qed.

Lemma is_ws_isspace c : is_ws c = true -> isspace c = true /\ c < 0x80.
Proof.
  unfold is_ws. intros H.
  repeat (apply orb_prop in H as [H|H]); nprop; subst; split; try reflexivity; lia.
Qed.

Lemma is_ws_all l :
  forallb is_ws l = true ->
  forallb isspace l = true /\ forallb (fun c => c <? 0x80) l = true.
Proof.
  induction l as [|c l IH]; [now split|]. cbn [forallb]. intros H.
  apply andb_prop in H as [Hc Hl]. destruct (IH Hl) as [H1 H2].
  destruct (is_ws_isspace c Hc) as [H3 H4]. apply N.ltb_lt in H4.
  now rewrite H1, H2, H3, H4.
Qed.

Lemma skip_ws_all l s : forallb is_ws l = true -> skip_ws (l ++ s) = skip_ws s.
Proof.
  induction l as [|c l IH]; [reflexivity|]. cbn [forallb app]. intros H.
  apply andb_prop in H as [Hc Hl]. unfold skip_ws in *. cbn [span]. rewrite Hc.
  specialize (IH Hl). destruct (span is_ws (l ++ s)). exact IH.
Qed.

Lemma numchar_not_space c : numchar c = true -> isspace c = false.
Proof.
  unfold numchar, is_digit. intros H.
  repeat (apply orb_prop in H as [H|H]); nprop; subst; try reflexivity.
  unfold isspace. now ncase.
Qed.


Lemma last_numchar t :
  forallb numchar t = true -> t <> [] ->
  match List.rev t with c :: _ => isspace c = false | [] => False end.
Proof.
  intros Hn Ht. destruct (List.rev t) as [|c r] eqn:E.
  - apply Ht. rewrite <- (rev_involutive t), E. reflexivity.
  - apply numchar_not_space. rewrite forallb_forall in Hn. apply Hn.
    apply in_rev. rewrite E. now left.
Qed.

Section Codec.
Context {PF : PyFloat} {PFS : PyFloatSpec} {PL : PyLimits}.

Lemma dumps_last v :
  representable v = true ->
  match List.rev (dumps v) with c :: _ => isspace c = false | [] => False end.
Proof.
  destruct v as [| b | z | f | s | l | d]; intros Hv.
  - reflexivity.
  - now destruct b.
  - pose proof (match_number_int z [] eq_refl) as Hm. rewrite app_nil_r in Hm.
    destruct (match_number_spec _ _ _ _ _ Hm) as (_ & Hn & c & t & E & _).
    rewrite !app_nil_r in Hn. apply last_numchar; [exact Hn|].
    cbn [dumps]. rewrite E. discriminate.
  - cbn [dumps representable] in *. rewrite floatstr_finite by assumption.
    destruct (float_repr_spec f Hv) as (i & fr & ex & Hm & _ & E).
    destruct (match_number_spec _ _ _ _ _ Hm) as (_ & Hn & c & t & Ei & _).
    rewrite <- E. apply last_numchar; [exact Hn|]. rewrite Ei. discriminate.
  - cbn [dumps]. unfold encode_basestring_ascii.
    rewrite app_comm_cons, rev_app_distr. reflexivity.
  - cbn [dumps]. rewrite app_comm_cons, rev_app_distr. reflexivity.
  - cbn [dumps]. rewrite app_comm_cons, rev_app_distr. reflexivity.
Qed.

(** A document followed by the beginning of another is refused. *)
Lemma loads_extra_data v rest c r :
  representable v = true ->
  rest = c :: r -> is_ws c = false -> ends_number rest = true ->
  loads (dumps v ++ rest) = None.
Proof.
  intros Rv Er Hc He. unfold loads.
  destruct (dumps_start v Rv) as (c0 & t & E & Hc0).
  assert (Hbom : startswith [0xFEFF] (dumps v ++ rest) = false).
  { rewrite E. apply startswith_other.
    unfold value_start, is_digit in Hc0.
    repeat (apply orb_prop in Hc0 as [Hc0|Hc0]); nprop; lia. }
  rewrite Hbom, (skip_ws_dumps v rest Rv).
  rewrite (scan_dumps v Rv _ rest); [| |exact He].
  - rewrite Er, (skip_ws_start c r Hc). reflexivity.
  - pose proof (need_bound v Rv). rewrite length_app. lia.
Qed.

(** A document with JSON white space around it is read as the document. *)
Lemma loads_padded v lead trail :
  representable v = true ->
  forallb is_ws lead = true -> forallb is_ws trail = true ->
  loads (lead ++ dumps v ++ trail) = Some v.
Proof.
  intros Rv Hl Ht. unfold loads.
  destruct (dumps_start v Rv) as (c0 & t & E & Hc0).
  assert (Hbom : startswith [0xFEFF] (lead ++ dumps v ++ trail) = false).
  { destruct lead as [|w lead].
    - cbn [app]. rewrite E. apply startswith_other.
      unfold value_start, is_digit in Hc0.
      repeat (apply orb_prop in Hc0 as [Hc0|Hc0]); nprop; lia.
    - cbn [app forallb] in *. apply andb_prop in Hl as [Hw _].
      apply startswith_other. destruct (is_ws_isspace w Hw). lia. }
  rewrite Hbom, (skip_ws_all lead _ Hl), (skip_ws_dumps v trail Rv).
  rewrite (scan_dumps v Rv _ trail).
  - rewrite <- (app_nil_r trail), (skip_ws_all trail [] Ht). reflexivity.
  - pose proof (need_bound v Rv). rewrite !length_app. lia.
  - destruct trail as [|w trail]; [reflexivity|].
    cbn [forallb] in Ht. apply andb_prop in Ht as [Hw _].
    unfold is_ws in Hw. unfold ends_number, is_digit.
    repeat (apply orb_prop in Hw as [Hw|Hw]); nprop; subst; reflexivity.
Qed.



(** The text of every value is printable ASCII, whatever the value. *)
Lemma dumps_ascii v : forallb printable (dumps v) = true.
Proof.
  induction v as [| b | z | f | s | l IH | d IH] using value_ind'.
  - reflexivity.
  - now destruct b.
  - apply (dumps_printable (VInt z)). reflexivity.
  - cbn [dumps]. unfold floatstr.
    destruct (float_eqb f f) eqn:H1; [|reflexivity]. cbn [negb].
    destruct (float_eqb f (float_of_str (str "inf"))) eqn:H2; [reflexivity|].
    destruct (float_eqb f (float_of_str (str "-inf"))) eqn:H3; [reflexivity|].
    assert (Hf : finite f = true) by (unfold finite; now rewrite H1, H2, H3).
    pose proof (dumps_printable (VFloat f) Hf) as Hp.
    cbn [dumps] in Hp. now rewrite floatstr_finite in Hp.
  - apply encode_basestring_printable.
  - cbn [dumps forallb]. rewrite forallb_app. cbn [forallb]. rewrite andb_true_r.
    now apply join_items_printable.
  - cbn [dumps forallb]. rewrite forallb_app. cbn [forallb]. rewrite andb_true_r.
    apply join_items_printable. rewrite Forall_forall in *. intros kv Hkv.
    rewrite forallb_app, encode_basestring_printable. cbn [forallb andb].
    change (printable 58) with true. change (printable 32) with true.
    cbn [andb]. auto.
Qed.

End Codec.

(** *** Parsing is stable under extension of the text

    A text that parses still parses, to the same value, when more text is
    appended to it, provided the value was delimited within the text. *)

Lemma span_ext (p : N -> bool) (s a b t : pystr) (c : N) :
  span p s = (a, c :: b) -> span p (s ++ t) = (a, c :: b ++ t).
Proof.
  revert a. induction s as [|x s IH]; intros a H; [discriminate|].
  cbn [span app] in *. destruct (p x).
  - destruct (span p s) as [a' b'] eqn:E. injection H as <- ->.
    now rewrite (IH a' eq_refl).
  - now injection H as <- <- <-.
Qed.

Lemma skip_ws_ext (s r t : pystr) (c : N) :
  skip_ws s = c :: r -> skip_ws (s ++ t) = c :: r ++ t.
Proof.
  unfold skip_ws. destruct (span is_ws s) as [a b] eqn:E. cbn [snd]. intros ->.
  now rewrite (span_ext _ _ _ _ t _ E).
Qed.

Lemma skip_ws_delimited (r r1 : pystr) (c : N) :
  skip_ws r = c :: r1 -> c = 44 \/ c = 93 \/ c = 125 ->
  r <> [] /\ ends_number r = true.
Proof.
  intros H Hc. destruct r as [|x r]; [discriminate|]. split; [discriminate|].
  unfold skip_ws in H. cbn [span] in H. destruct (is_ws x) eqn:Hx.
  - unfold is_ws in Hx. unfold ends_number, is_digit.
    repeat (apply orb_prop in Hx as [Hx|Hx]); nprop; subst; reflexivity.
  - cbn [snd] in H. assert (x = c) by congruence. subst x.
    destruct Hc as [-> | [-> | ->]]; reflexivity.
Qed.

(** Numbers. *)

Lemma match_integer_ext (s i r0 t : pystr) :
  match_integer s = Some (i, r0) -> r0 <> [] ->
  match_integer (s ++ t) = Some (i, r0 ++ t).
Proof.
  unfold match_integer. intros H Hr.
  assert (G : forall sign s1,
             match s1 with
             | d :: s2 =>
               if d =? 48 then Some (sign ++ [d], s2)
               else if is_digit19 d then
                 let (ds, s3) := span is_digit s2 in Some (sign ++ d :: ds, s3)
               else None
             | [] => None
             end = Some (i, r0) ->
             match (s1 ++ t)%list with
             | d :: s2 =>
               if d =? 48 then Some (sign ++ [d], s2)
               else if is_digit19 d then
                 let (ds, s3) := span is_digit s2 in Some (sign ++ d :: ds, s3)
               else None
             | [] => None
             end = Some (i, r0 ++ t)).
  { intros sign [|d s2] G; [discriminate|]. cbn [app].
    destruct (d =? 48); [injection G as <- <-; reflexivity|].
    destruct (is_digit19 d); [|discriminate].
    destruct (span is_digit s2) as [ds s3] eqn:E. injection G as <- ->.
    destruct r0 as [|c r0]; [contradiction|].
    rewrite (span_ext _ _ _ _ t _ E). reflexivity. }
  destruct s as [|c r]; [discriminate|]. cbn [app].
  destruct (c =? 45); [exact (G [c] r H)|exact (G [] (c :: r) H)].
Qed.

Lemma match_frac_ext (r0 f r1 t : pystr) (c : N) (r1' : pystr) :
  match_frac r0 = (f, r1) -> r1 = c :: r1' -> c <> 46 ->
  match_frac (r0 ++ t) = (f, r1 ++ t).
Proof.
  unfold match_frac. intros H -> Hc. destruct r0 as [|x r]; [discriminate|].
  cbn [app]. destruct (N.eqb_spec x 46).
  - destruct (span is_digit r) as [ds r'] eqn:E.
    destruct (nonempty ds) eqn:En.
    + injection H as <- ->. rewrite (span_ext _ _ _ _ t _ E), En. reflexivity.
    + injection H as <- ? ?. congruence.
  - injection H as <- <- <-. reflexivity.
Qed.

Lemma match_exp_ext (r1 e r t : pystr) :
  match_exp r1 = (e, r) -> r <> [] -> ends_number r = true ->
  match_exp (r1 ++ t) = (e, r ++ t)
  /\ exists c r1', r1 = c :: r1' /\ c <> 46.
Proof.
  unfold match_exp. intros H Hr He. destruct r1 as [|x rr]; [now injection H as <- <-|].
  cbn [app]. destruct ((x =? 101) || (x =? 69)) eqn:Hx.
  - assert (Hx46 : x <> 46).
    { apply orb_prop in Hx as [Hx|Hx]; nprop; lia. }
    assert (G : forall sign r1',
               (let (ds, r2) := span is_digit r1' in
                if nonempty ds then (x :: sign ++ ds, r2) else ([], x :: rr))
               = (e, r) ->
               (let (ds, r2) := span is_digit (r1' ++ t) in
                if nonempty ds then (x :: sign ++ ds, r2) else ([], x :: rr ++ t))
               = (e, r ++ t)).
    { intros sign r1' G. destruct (span is_digit r1') as [ds r2] eqn:E.
      destruct (nonempty ds) eqn:En.
      - injection G as <- ->. destruct r as [|c r]; [contradiction|].
        rewrite (span_ext _ _ _ _ t _ E), En. reflexivity.
      - injection G as <- <-. cbn [ends_number] in He.
        rewrite !negb_true_iff, !orb_false_iff in He.
        apply orb_prop in Hx as [Hx|Hx]; rewrite Hx in He; intuition discriminate. }
    split; [|eauto].
    destruct rr as [|g r'].
    { cbn in H. injection H as <- <-. cbn [ends_number] in He.
      rewrite !negb_true_iff, !orb_false_iff in He.
      apply orb_prop in Hx as [Hx|Hx]; rewrite Hx in He; intuition discriminate. }
    cbn [app]. destruct ((g =? 45) || (g =? 43)).
    + exact (G [g] r' H).
    + exact (G [] (g :: r') H).
  - injection H as <- <-. split; [reflexivity|].
    exists x, rr. split; [reflexivity|].
    cbn [ends_number] in He. rewrite !negb_true_iff, !orb_false_iff in He.
    destruct He as (((((_ & He) & _) & _) & _) & _). now apply N.eqb_neq.
Qed.

Lemma match_number_ext (s i f e r t : pystr) :
  match_number s = Some (i, f, e, r) -> r <> [] -> ends_number r = true ->
  match_number (s ++ t) = Some (i, f, e, r ++ t).
Proof.
  unfold match_number. intros H Hr He.
  destruct (match_integer s) as [[i' r0]|] eqn:Ei; [|discriminate].
  destruct (match_frac r0) as [f' r1] eqn:Ef.
  destruct (match_exp r1) as [e' r2] eqn:Ee.
  injection H as <- <- <- <-.
  destruct (match_exp_ext _ _ _ t Ee Hr He) as (Ee' & c & r1' & E1 & Hc).
  pose proof (match_frac_ext _ _ _ t _ _ Ef E1 Hc) as Ef'.
  assert (Hr0 : r0 <> []).
  { destruct (match_frac_spec r0) as [E _]. rewrite Ef in E. cbn [fst snd] in E.
    rewrite <- E, E1. now destruct f'. }
  rewrite (match_integer_ext _ _ _ t Ei Hr0), Ef', Ee'. reflexivity.
Qed.

(** Strings. *)

Lemma scanstring_short_u (s : pystr) :
  (List.length s < 4)%nat -> scanstring (92 :: 117 :: s) = None.
Proof.
  destruct s as [|a [|b [|c [|d s]]]]; cbn [List.length]; intros H;
    try reflexivity; lia.
Qed.

Lemma scanstring_not_u (s t : pystr) (x : pystr * pystr) :
  scanstring s = Some x -> (List.length s < 6)%nat ->
  match (s ++ t)%list with
  | b :: u :: _ => (b =? 92) && (u =? 117) = false
  | _ => True
  end.
Proof.
  intros H Hlen. destruct s as [|b [|u rest]]; [discriminate| |].
  - cbn [app]. destruct t as [|u t]; [exact I|].
    destruct (N.eqb_spec b 92) as [->|]; [discriminate|reflexivity].
  - cbn [app]. destruct (N.eqb_spec b 92) as [->|]; [|reflexivity].
    destruct (N.eqb_spec u 117) as [->|]; [|reflexivity].
    rewrite scanstring_short_u in H; [discriminate|]. cbn [List.length] in Hlen. lia.
Qed.

Lemma prepend_ext (u : N) (a b : option (pystr * pystr)) (x r t : pystr) :
  (forall x', a = Some (x', r) -> b = Some (x', r ++ t)) ->
  prepend u a = Some (x, r) -> prepend u b = Some (x, r ++ t).
Proof.
  intros IH H. destruct a as [[x' r']|]; [|discriminate].
  cbn [prepend] in H. injection H as <- <-. now rewrite (IH x' eq_refl).
Qed.

Lemma scanstring_ext (n : nat) :
  forall s x r t,
    (List.length s <= n)%nat ->
    scanstring s = Some (x, r) -> scanstring (s ++ t) = Some (x, r ++ t).
Proof.
  induction n as [|n IH]; intros s x r t Hlen H.
  { destruct s; [discriminate|]. cbn [List.length] in Hlen. lia. }
  destruct s as [|c s1]; [discriminate|]. cbn [List.length] in Hlen.
  assert (IH' : forall s' x' r',
             (List.length s' <= List.length s1)%nat ->
             scanstring s' = Some (x', r') -> scanstring (s' ++ t) = Some (x', r' ++ t)).
  { intros s' x' r' Hs. apply IH. lia. }
  clear IH Hlen.
  destruct (N.eqb_spec c 34) as [->|H34].
  { cbn in H |- *. injection H as <- <-. reflexivity. }
  destruct (N.eqb_spec c 92) as [->|H92].
  - destruct s1 as [|esc s2]; [discriminate|].
    destruct (N.eqb_spec esc 117) as [->|H117].
    + destruct s2 as [|h1 [|h2 [|h3 [|h4 s6]]]]; try discriminate.
      cbn [app]. rewrite scanstring_u in H |- *.
      destruct (decode_uXXXX h1 h2 h3 h4) as [uni|]; [|discriminate].
      assert (Hplain : prepend uni (scanstring s6) = Some (x, r) ->
                       prepend uni (scanstring (s6 ++ t)) = Some (x, r ++ t)).
      { apply prepend_ext. intros x'. apply IH'. cbn [List.length]. lia. }
      destruct (is_high_surrogate uni); [|exact (Hplain H)].
      destruct (le_lt_dec 6 (List.length s6)) as [Hlong|Hshort].
      * destruct s6 as [|b [|u [|g1 [|g2 [|g3 [|g4 s12]]]]]];
          cbn [List.length] in Hlong; try lia.
        cbn [app] in *.
        change (b :: u :: g1 :: g2 :: g3 :: g4 :: s12 ++ t)%list
          with ((b :: u :: g1 :: g2 :: g3 :: g4 :: s12) ++ t)%list in *.
        destruct ((b =? 92) && (u =? 117)); [|exact (Hplain H)].
        destruct (decode_uXXXX g1 g2 g3 g4) as [uni2|]; [|discriminate].
        destruct (is_low_surrogate uni2); [|exact (Hplain H)].
        revert H. apply prepend_ext. intros x'. apply IH'. cbn [List.length]. lia.
      * assert (E : match s6 with
                    | b :: u :: g1 :: g2 :: g3 :: g4 :: s12 =>
                      if (b =? 92) && (u =? 117)
                      then match decode_uXXXX g1 g2 g3 g4 with
                           | None => None
                           | Some uni2 =>
                             if is_low_surrogate uni2
                             then prepend (0x10000 + N.lor (N.shiftl (uni - 0xd800) 10)
                                                           (uni2 - 0xdc00))
                                          (scanstring s12)
                             else prepend uni (scanstring s6)
                           end
                      else prepend uni (scanstring s6)
                    | _ => prepend uni (scanstring s6)
                    end = prepend uni (scanstring s6)).
        { destruct s6 as [|b [|u [|g1 [|g2 [|g3 [|g4 s12]]]]]];
            cbn [List.length] in Hshort; try reflexivity; lia. }
        rewrite E in H. clear E.
        assert (Hy : exists y, scanstring s6 = Some y).
        { destruct (scanstring s6) as [y|]; [eauto|discriminate]. }
        destruct Hy as [y Es].
        pose proof (scanstring_not_u s6 t y Es Hshort) as Hnu.
        pose proof (Hplain H) as G. clear Hplain H Es IH'.
        destruct (s6 ++ t)%list as [|b [|u [|g1 [|g2 [|g3 [|g4 s12]]]]]];
          try exact G.
        rewrite Hnu. exact G.
    + cbn [app]. cbn [scanstring] in H |- *. change (92 =? 34) with false in *.
      change (92 =? 92) with true in *. cbv iota in H |- *.
      destruct (N.eqb_spec esc 117); [contradiction|].
      destruct (backslash esc) as [ch|]; [|discriminate].
      revert H. apply prepend_ext. intros x'. apply IH'. cbn [List.length]. lia.
  - cbn [app]. cbn [scanstring] in H |- *.
    destruct (N.eqb_spec c 34); [contradiction|].
    destruct (N.eqb_spec c 92); [contradiction|].
    destruct (c <? 32); [discriminate|].
    revert H. apply prepend_ext. intros x'. apply IH'. lia.
Qed.

(** Values. *)

Lemma startswith_split (p s : pystr) :
  startswith p s = true -> exists r, s = (p ++ r)%list.
Proof.
  revert s. induction p as [|x p IH]; intros s H; [now exists s|].
  destruct s as [|y s]; [discriminate|]. cbn [startswith] in H.
  apply andb_prop in H as [Hx Hp]. apply N.eqb_eq in Hx. subst y.
  destruct (IH s Hp) as [r ->]. now exists r.
Qed.

Section Stable.
Context {PF : PyFloat} {PL : PyLimits}.

Lemma scan_once_nil n : scan_once n [] = None.
Proof. now destruct n. Qed.

Lemma array_loop_nil n : array_loop n [] = None.
Proof. destruct n as [|n]; [reflexivity|]. cbn [array_loop]. now rewrite scan_once_nil. Qed.

Lemma scan_once_literal k r0 :
  scan_once (S k) (str "null" ++ r0) = Some (VNull, r0)
  /\ scan_once (S k) (str "true" ++ r0) = Some (VBool true, r0)
  /\ scan_once (S k) (str "false" ++ r0) = Some (VBool false, r0)
  /\ scan_once (S k) (str "NaN" ++ r0) = Some (VFloat (float_of_str (str "nan")), r0)
  /\ scan_once (S k) (str "Infinity" ++ r0)
     = Some (VFloat (float_of_str (str "inf")), r0)
  /\ scan_once (S k) (str "-Infinity" ++ r0)
     = Some (VFloat (float_of_str (str "-inf")), r0).
Proof. repeat split. Qed.

(** A literal or a number, which no recursive call reads. *)
Lemma scan_once_atom n k c s' v r t :
  c <> 34 -> c <> 123 -> c <> 91 ->
  scan_once (S n) (c :: s') = Some (v, r) ->
  r <> [] -> ends_number r = true ->
  scan_once (S k) ((c :: s') ++ t) = Some (v, r ++ t).
Proof.
  intros H34 H123 H91 H Hr He.
  cbn [scan_once] in H.
  destruct (N.eqb_spec c 34); [contradiction|].
  destruct (N.eqb_spec c 123); [contradiction|].
  destruct (N.eqb_spec c 91); [contradiction|].
  destruct (scan_once_literal k (skipn 4 (c :: s') ++ t)) as (L1 & L2 & _).
  destruct (scan_once_literal k (skipn 5 (c :: s') ++ t)) as (_ & _ & L3 & _).
  destruct (scan_once_literal k (skipn 3 (c :: s') ++ t)) as (_ & _ & _ & L4 & _).
  destruct (scan_once_literal k (skipn 8 (c :: s') ++ t)) as (_ & _ & _ & _ & L5 & _).
  destruct (scan_once_literal k (skipn 9 (c :: s') ++ t)) as (_ & _ & _ & _ & _ & L6).
  revert H L1 L2 L3 L4 L5 L6. generalize (c :: s'). intros s H L1 L2 L3 L4 L5 L6.
  assert (Hlit : forall p,
             startswith p s = true -> s = (p ++ skipn (List.length p) s)%list).
  { intros p Hp. destruct (startswith_split p s Hp) as [r0 ->].
    now rewrite skipn_app, Nat.sub_diag, skipn_all, app_nil_l. }
  destruct (startswith (str "null") s) eqn:E1.
  { injection H as <- <-. rewrite (Hlit _ E1) at 1. now rewrite <- app_assoc. }
  destruct (startswith (str "true") s) eqn:E2.
  { injection H as <- <-. rewrite (Hlit _ E2) at 1. now rewrite <- app_assoc. }
  destruct (startswith (str "false") s) eqn:E3.
  { injection H as <- <-. rewrite (Hlit _ E3) at 1. now rewrite <- app_assoc. }
  destruct (match_number s) as [[[[i f] e] r']|] eqn:Em.
  { assert (r' = r) by (destruct (nonempty f || nonempty e); congruence). subst r'.
    rewrite (scan_once_number k _ _ _ _ _ (match_number_ext _ _ _ _ _ t Em Hr He)).
    destruct (nonempty f || nonempty e); injection H as <-; reflexivity. }
  destruct (startswith (str "NaN") s) eqn:E4.
  { injection H as <- <-. rewrite (Hlit _ E4) at 1. now rewrite <- app_assoc. }
  destruct (startswith (str "Infinity") s) eqn:E5.
  { injection H as <- <-. rewrite (Hlit _ E5) at 1. now rewrite <- app_assoc. }
  destruct (startswith (str "-Infinity") s) eqn:E6; [|discriminate].
  injection H as <- <-. rewrite (Hlit _ E6) at 1. now rewrite <- app_assoc.
Qed.

Lemma scan_stable (n : nat) :
  (forall s v r t k,
      scan_once n s = Some (v, r) -> r <> [] -> ends_number r = true ->
      scan_once (n + k) (s ++ t) = Some (v, r ++ t))
  /\ (forall s vs r t k,
      JSONArray n s = Some (vs, r) -> JSONArray (n + k) (s ++ t) = Some (vs, r ++ t))
  /\ (forall s vs r t k,
      array_loop n s = Some (vs, r) -> array_loop (n + k) (s ++ t) = Some (vs, r ++ t))
  /\ (forall s ps r t k,
      JSONObject n s = Some (ps, r) -> JSONObject (n + k) (s ++ t) = Some (ps, r ++ t))
  /\ (forall s ps r t k,
      object_loop n s = Some (ps, r) -> object_loop (n + k) (s ++ t) = Some (ps, r ++ t)).
Proof.
  induction n as [|n (IHs & IHa & IHal & IHo & IHol)].
  { repeat split; intros; discriminate. }
  split; [|split; [|split; [|split]]]; intros s;
    intros x r t k; change (S n + k)%nat with (S (n + k)).
  - intros H Hr He. destruct s as [|c s']; [discriminate|].
    destruct (N.eqb_spec c 34) as [->|H34].
    { cbn [scan_once app] in H |- *. change (34 =? 34) with true in *. cbv iota in H |- *.
      destruct (scanstring s') as [[y r']|] eqn:Es; [|discriminate].
      injection H as <- <-.
      now rewrite (scanstring_ext _ _ _ _ t (le_n _) Es). }
    destruct (N.eqb_spec c 123) as [->|H123].
    { cbn [scan_once app] in H |- *. change (123 =? 34) with false in *.
      change (123 =? 123) with true in *. cbv iota in H |- *.
      destruct (JSONObject n s') as [[ps r']|] eqn:Eo; [|discriminate].
      injection H as <- <-. now rewrite (IHo _ _ _ t k Eo). }
    destruct (N.eqb_spec c 91) as [->|H91].
    { cbn [scan_once app] in H |- *. change (91 =? 34) with false in *.
      change (91 =? 123) with false in *. change (91 =? 91) with true in *.
      cbv iota in H |- *.
      destruct (JSONArray n s') as [[vs r']|] eqn:Ea; [|discriminate].
      injection H as <- <-. now rewrite (IHa _ _ _ t k Ea). }
    now apply (scan_once_atom n).
  - intros H. cbn [JSONArray] in H |- *.
    destruct (skip_ws s) as [|c r0] eqn:Ew; [discriminate|].
    rewrite (skip_ws_ext _ _ t _ Ew).
    destruct (c =? 93); [injection H as <- <-; reflexivity|].
    exact (IHal _ _ _ t k H).
  - intros H. cbn [array_loop] in H |- *.
    destruct (scan_once n s) as [[v r0]|] eqn:Es; [|discriminate].
    destruct (skip_ws r0) as [|c r1] eqn:Ew; [discriminate|].
    assert (Hd : r0 <> [] /\ ends_number r0 = true).
    { apply (skip_ws_delimited _ _ _ Ew).
      destruct (N.eqb_spec c 93); [auto|].
      destruct (N.eqb_spec c 44); [auto|discriminate]. }
    destruct Hd as [Hr0 He0].
    rewrite (IHs _ _ _ t k Es Hr0 He0), (skip_ws_ext _ _ t _ Ew).
    destruct (c =? 93); [injection H as <- <-; reflexivity|].
    destruct (c =? 44); [|discriminate].
    destruct (array_loop n (skip_ws r1)) as [[vals r2]|] eqn:El; [|discriminate].
    injection H as <- <-.
    destruct (skip_ws r1) as [|c' r1'] eqn:Ew1; [now rewrite array_loop_nil in El|].
    rewrite (skip_ws_ext _ _ t _ Ew1).
    pose proof (IHal _ _ _ t k El) as G. cbn [app] in G. now rewrite G.
  - intros H. cbn [JSONObject] in H |- *.
    destruct (skip_ws s) as [|c r0] eqn:Ew; [discriminate|].
    rewrite (skip_ws_ext _ _ t _ Ew).
    destruct (c =? 125); [injection H as <- <-; reflexivity|].
    destruct (c =? 34); [|discriminate].
    exact (IHol _ _ _ t k H).
  - intros H. cbn [object_loop] in H |- *.
    destruct (scanstring s) as [[key r0]|] eqn:Ek; [|discriminate].
    rewrite (scanstring_ext _ _ _ _ t (le_n _) Ek).
    destruct (skip_ws r0) as [|c r1] eqn:Ew; [discriminate|].
    rewrite (skip_ws_ext _ _ t _ Ew).
    destruct (c =? 58); [|discriminate].
    destruct (skip_ws r1) as [|c1 r1'] eqn:Ew1; [now rewrite scan_once_nil in H|].
    rewrite (skip_ws_ext _ _ t _ Ew1).
    destruct (scan_once n (c1 :: r1')) as [[v r2]|] eqn:Es; [|discriminate].
    destruct (skip_ws r2) as [|c2 r3] eqn:Ew2; [discriminate|].
    assert (Hd : r2 <> [] /\ ends_number r2 = true).
    { apply (skip_ws_delimited _ _ _ Ew2).
      destruct (N.eqb_spec c2 125); [auto|].
      destruct (N.eqb_spec c2 44); [auto|discriminate]. }
    destruct Hd as [Hr2 He2].
    pose proof (IHs _ _ _ t k Es Hr2 He2) as G. cbn [app] in G.
    rewrite G, (skip_ws_ext _ _ t _ Ew2).
    destruct (c2 =? 125); [injection H as <- <-; reflexivity|].
    destruct (c2 =? 44); [|discriminate].
    destruct (skip_ws r3) as [|q r4] eqn:Ew3; [discriminate|].
    rewrite (skip_ws_ext _ _ t _ Ew3).
    destruct (q =? 34); [|discriminate].
    destruct (object_loop n r4) as [[pairs r5]|] eqn:El; [|discriminate].
    injection H as <- <-. now rewrite (IHol _ _ _ t k El).
Qed.

End Stable.

Lemma lstrip_suffix (x : pystr) : exists ws, x = (ws ++ lstrip x)%list.
Proof.
  induction x as [|c x [ws IH]]; [now exists []|]. cbn [lstrip].
  destruct (isspace c); [|now exists []].
  exists (c :: ws). cbn [app]. now rewrite <- IH.
Qed.

Lemma rstrip_prefix (x : pystr) : exists ws, x = (rstrip x ++ ws)%list.
Proof.
  unfold rstrip. destruct (lstrip_suffix (List.rev x)) as [ws E].
  exists (List.rev ws). rewrite <- rev_app_distr, <- E. now rewrite rev_involutive.
Qed.

Section Truncated.
Context {PF : PyFloat} {PFS : PyFloatSpec} {PL : PyLimits}.

(** No proper prefix of the text of a mapping is a JSON document. *)
Lemma loads_truncated (m : pydict) (p q : pystr) :
  representable (VDict m) = true ->
  dumps (VDict m) = (p ++ q)%list -> q <> [] ->
  loads p = None.
Proof.
  intros Rm E Hq. destruct p as [|c p']; [reflexivity|].
  assert (Hc : c = 123).
  { cbn [dumps app] in E. now injection E as <-. }
  subst c. unfold loads.
  change (startswith [65279] (123 :: p')) with false. cbv iota.
  rewrite skip_ws_start by reflexivity.
  remember (2 * List.length (123%N :: p') + 2)%nat as fuel eqn:Ef.
  destruct fuel as [|fuel]; [cbn [List.length] in Ef; lia|].
  destruct (scan_once (S fuel) (123 :: p')) as [[v r]|] eqn:Es; [|reflexivity].
  destruct (skip_ws r) as [|x r'] eqn:Ew; [|reflexivity]. exfalso.
  cbn [scan_once] in Es. change (123 =? 34) with false in Es.
  change (123 =? 123) with true in Es. cbv iota in Es.
  destruct (JSONObject fuel p') as [[ps r0]|] eqn:Eo; [|discriminate].
  injection Es as <- <-.
  destruct (scan_stable fuel) as (_ & _ & _ & Ho & _).
  pose proof (Ho _ _ _ q (need (VDict m)) Eo) as Ho'.
  pose proof (scan_dumps (VDict m) Rm (S (fuel + need (VDict m))) []) as Hd.
  rewrite app_nil_r, E in Hd. cbn [app scan_once] in Hd.
  change (123 =? 34) with false in Hd. change (123 =? 123) with true in Hd.
  cbv iota in Hd. rewrite Ho' in Hd.
  assert (Hrq : (r0 ++ q)%list = []).
  { assert (G : Some (VDict (dict_of_pairs ps), (r0 ++ q)%list) = Some (VDict m, []))
      by (apply Hd; [lia|reflexivity]).
    now injection G. }
  apply app_eq_nil in Hrq. now destruct Hrq.
Qed.

End Truncated.

End CodecFacts.

(** ** Further properties of the three transports *)

Module BehaviourFacts.
Import Py Json JsonSpec JsonFacts CodecFacts Effects Scenarios Answers Tactics.
Local Open Scope string_scope.
Unset Implicit Arguments.

#[local] Existing Instance Client.interface.
#[local] Existing Instance Server.interface.
#[local] Existing Instance Line.interface.

#[local] Arguments encode : simpl never.
#[local] Arguments decode : simpl never.
#[local] Arguments json_loads : simpl never.
#[local] Arguments json_dumps : simpl never.
#[local] Arguments dumps : simpl never.
#[local] Arguments Qle_bool : simpl never.
#[local] Arguments utf8_decode : simpl never.
#[local] Arguments utf8_encode : simpl never.
#[local] Arguments loads : simpl never.
#[local] Arguments strip : simpl never.

Section Facts.
Context {PF : PyFloat} {PL : PyLimits}.

(** *** Exceptions *)

(** X1. Whatever the operating system or the device answers, [connect],
    [send_command] and [receive_data] of the three bindings, and the two
    raw-byte methods of the serial binding, return a value: every exception
    raised inside them is caught. *)
Theorem methods_return_normally :
  (forall (s : Client.t) command timeout os,
      (exists b, result (run (Client.connect os) s) = Ok b)
      /\ (exists b, result (run (Client.send_command command os) s) = Ok b)
      /\ (exists v, result (run (Client.receive_data timeout os) s) = Ok v))
  /\ (forall (s : Server.t) command timeout os,
      (exists b, result (run (Server.connect os) s) = Ok b)
      /\ (exists b, result (run (Server.send_command command os) s) = Ok b)
      /\ (exists v, result (run (Server.receive_data timeout os) s) = Ok v))
  /\ (forall (s : Line.t) command data size timeout api,
      (exists b, result (run (Line.connect api) s) = Ok b)
      /\ (exists b, result (run (Line.send_command command api) s) = Ok b)
      /\ (exists v, result (run (Line.receive_data timeout api) s) = Ok v)
      /\ (exists b, result (run (Line.send_raw_bytes data api) s) = Ok b)
      /\ (exists v, result (run (Line.receive_raw_bytes size timeout api) s) = Ok v)).
Proof.
  repeat split; intros; open_state; step; paths; eauto.
Qed.

(** X3. [clear_buffers] is the one method of an object with no handler: on
    an open port an error of either buffer reset leaves the method, the
    second reset not being tried after a failure of the first.  It looks at
    the port only, not at the connected flag, and on a missing or closed
    port it does nothing at all. *)
Theorem clear_buffers_unguarded (s : Line.t) (api : serial_api) :
  ((forall sp, Line.serial_port s = Some sp -> Serial.is_open sp = false) ->
   run (Line.clear_buffers api) s = (Ok tt, s, []))
  /\ (forall sp,
      Line.serial_port s = Some sp -> Serial.is_open sp = true ->
      (forall e, ser_reset_input api = Raise e ->
                 run (Line.clear_buffers api) s = (Raise e, s, [SerialResetInput]))
      /\ (forall e, ser_reset_input api = Ok tt -> ser_reset_output api = Raise e ->
                    run (Line.clear_buffers api) s
                    = (Raise e, s, [SerialResetInput; SerialResetOutput]))
      /\ (ser_reset_input api = Ok tt -> ser_reset_output api = Ok tt ->
          run (Line.clear_buffers api) s
          = (Ok tt, s, [SerialResetInput; SerialResetOutput; Log LvDebug]))).
Proof.
  destruct s as [c p b t bs pa sb [[o to]|]]; split.
  - intros H. specialize (H _ eq_refl). cbn in H. subst o. reflexivity.
  - intros sp [= <-] Ho. cbn in Ho. subst o. step.
    repeat split; intros; repeat match goal with H : _ = _ |- _ => rewrite H end;
      reflexivity.
  - reflexivity.
  - discriminate.
Qed.

(** *** What the methods change *)

(** X2. Sending and receiving leave the object alone, whatever happens on
    the transport: [send_command] (and [send_raw_bytes]) change nothing,
    [receive_data] changes nothing on the client, at most the recorded peer
    address on the server, and at most the read timeout of the handle on the
    serial binding.  In particular a failed write or read does not clear the
    connected flag. *)
Theorem io_leaves_object :
  (forall (s : Client.t) command timeout os,
      state (run (Client.send_command command os) s) = s
      /\ state (run (Client.receive_data timeout os) s) = s)
  /\ (forall (s : Server.t) command timeout os,
      state (run (Server.send_command command os) s) = s
      /\ (exists a, state (run (Server.receive_data timeout os) s)
                    = Server.set_client_address a s))
  /\ (forall (s : Line.t) command data size timeout api,
      state (run (Line.send_command command api) s) = s
      /\ state (run (Line.send_raw_bytes data api) s) = s
      /\ (exists sp, state (run (Line.receive_data timeout api) s)
                     = Line.set_serial_port sp s
                     /\ option_map Serial.is_open sp
                        = option_map Serial.is_open (Line.serial_port s))
      /\ (exists sp, state (run (Line.receive_raw_bytes size timeout api) s)
                     = Line.set_serial_port sp s
                     /\ option_map Serial.is_open sp
                        = option_map Serial.is_open (Line.serial_port s))).
Proof.
  repeat split; intros; open_state; step; paths;
    first [ reflexivity
          | eexists; reflexivity
          | eexists; split; reflexivity ].
Qed.

(** *** Connecting and disconnecting *)

(** X4. What a [connect] that returns true has done.  The TCP client
    created a stream socket and connected it to (host, port); the UDP client
    only created a datagram socket and contacted nobody.  The TCP server
    created a socket, set SO_REUSEADDR on it, bound it to (host, port),
    listened with a backlog of 1 and accepted one connection, whose socket
    and address it recorded; the UDP server created a socket and bound it,
    leaving the recorded client as it was.  The serial binding passed its
    parameters to pyserial, which accepted them and opened the port with the
    configured timeout, then reset the input and the output buffer. *)
Theorem connect_calls :
  (forall (s : Client.t) os,
      let r := run (Client.connect os) s in
      result r = Ok true ->
      exists h,
        state r = Client.set_is_connected true (Client.set_socket (Some h) s)
        /\ trace r
           = if Client.protocol s =? "TCP"
             then [SocketNew SOCK_STREAM;
                   SockConnect h (Client.host s, Client.port s); Log LvInfo]
             else [SocketNew SOCK_DGRAM; Log LvInfo])
  /\ (forall (s : Server.t) os,
      let r := run (Server.connect os) s in
      result r = Ok true ->
      exists h,
        if Server.protocol s =? "TCP"
        then exists k peer,
            state r = Server.set_is_connected true
                        (Server.set_client_address (Some peer)
                           (Server.set_client_socket (Some k)
                              (Server.set_server_socket (Some h) s)))
            /\ trace r
               = [SocketNew SOCK_STREAM; SockSetReuseAddr h;
                  SockBind h (Server.host s, Server.port s); SockListen h 1;
                  Log LvInfo; SockAccept h; Log LvInfo]
        else state r = Server.set_is_connected true
                         (Server.set_server_socket (Some h) s)
             /\ trace r
                = [SocketNew SOCK_DGRAM;
                   SockBind h (Server.host s, Server.port s); Log LvInfo])
  /\ (forall (s : Line.t) api,
      let r := run (Line.connect api) s in
      result r = Ok true ->
      Serial.valid_parameters (Line.baudrate s) (Line.bytesize s) (Line.parity s)
                              (Line.stopbits s) (Line.timeout s) = true
      /\ state r
         = Line.set_is_connected true
             (Line.set_serial_port
                (Some {| Serial.is_open := true; Serial.timeout := Line.timeout s |}) s)
      /\ trace r
         = [SerialOpen (Line.port s); SerialResetInput; SerialResetOutput; Log LvInfo]).
Proof.
  split; [|split].
  - intros [c hst p pr b k] os. cbv zeta. step.
    destruct (pr =? "TCP"); cbn; paths; try discriminate;
      intros _; eexists; split; reflexivity.
  - intros [c hst p pr b k1 k2 a] os. cbv zeta. step.
    destruct (pr =? "TCP"); cbn.
    + destruct (os_socket os SOCK_STREAM) as [h|x]; cbn; [|discriminate].
      destruct (os_setsockopt os h) as [[]|x]; cbn; [|discriminate].
      destruct (os_bind os h (hst, p)) as [[]|x]; cbn; [|discriminate].
      destruct (os_listen os h 1) as [[]|x]; cbn; [|discriminate].
      destruct (os_accept os h) as [[k peer]|x]; cbn; [|discriminate].
      intros _. exists h, k, peer. split; reflexivity.
    + destruct (os_socket os SOCK_DGRAM) as [h|x]; cbn; [|discriminate].
      destruct (os_bind os h (hst, p)) as [[]|x]; cbn; [|discriminate].
      intros _. exists h. split; reflexivity.
  - intros [c p b t bs pa sb sp] api. cbv zeta. step.
    destruct (Serial.valid_parameters b bs pa sb t); cbn; paths; try discriminate.
    intros _. repeat split.
Qed.

(** X5. A [connect] that fails part-way keeps what it had opened and closes
    nothing: the client whose TCP connection is refused keeps the new socket,
    the server whose bind fails keeps the new socket, the serial binding
    whose buffer reset fails keeps the open port; each reports false and is
    left disconnected.  The next [disconnect] closes what was kept and
    returns true. *)
Theorem failed_connect_keeps_handle :
  (forall (s : Client.t) os os' h e,
      Client.protocol s = "TCP" ->
      os_socket os SOCK_STREAM = Ok h ->
      os_connect os h (Client.host s, Client.port s) = Raise e ->
      os_close os' h = Ok tt ->
      let r := run (Client.connect os) s in
      r = (Ok false, Client.set_is_connected false (Client.set_socket (Some h) s),
           [SocketNew SOCK_STREAM; SockConnect h (Client.host s, Client.port s);
            Log LvError])
      /\ run (Client.disconnect os') (state r)
         = (Ok true, Client.set_is_connected false (Client.set_socket None s),
            [SockClose h; Log LvInfo]))
  /\ (forall (s : Server.t) os os' h e,
      os_socket os (if Server.protocol s =? "TCP" then SOCK_STREAM else SOCK_DGRAM)
      = Ok h ->
      ((Server.protocol s =? "TCP") = true -> os_setsockopt os h = Ok tt) ->
      os_bind os h (Server.host s, Server.port s) = Raise e ->
      Server.client_socket s = None ->
      os_close os' h = Ok tt ->
      let r := run (Server.connect os) s in
      result r = Ok false
      /\ state r = Server.set_is_connected false (Server.set_server_socket (Some h) s)
      /\ (forall k, ~ In (SockClose k) (trace r))
      /\ run (Server.disconnect os') (state r)
         = (Ok true, Server.set_is_connected false (Server.set_server_socket None s),
            [SockClose h; Log LvInfo]))
  /\ (forall (s : Line.t) api api' e,
      Serial.valid_parameters (Line.baudrate s) (Line.bytesize s) (Line.parity s)
                              (Line.stopbits s) (Line.timeout s) = true ->
      ser_open api (Line.port s) = Ok tt ->
      ser_reset_input api = Raise e ->
      ser_close api' = Ok tt ->
      let r := run (Line.connect api) s in
      r = (Ok false,
           Line.set_is_connected false
             (Line.set_serial_port
                (Some {| Serial.is_open := true; Serial.timeout := Line.timeout s |}) s),
           [SerialOpen (Line.port s); SerialResetInput; Log LvError])
      /\ run (Line.disconnect api') (state r)
         = (Ok true,
            Line.set_is_connected false
              (Line.set_serial_port
                 (Some {| Serial.is_open := false; Serial.timeout := Line.timeout s |}) s),
            [SerialClose; Log LvInfo])).
Proof.
  split; [|split].
  - intros [c hst p pr b k] os os' h e Hp Hs Hc Hcl. cbn in Hp, Hc. subst pr.
    cbv zeta. step. rewrite Hs. cbn. rewrite Hc. cbn.
    split; [reflexivity|]. rewrite Hcl. reflexivity.
  - intros [c hst p pr b k1 k2 a] os os' h e Hs Hopt Hb Hk Hcl.
    cbn in Hs, Hopt, Hb, Hk. subst k2. cbv zeta. step.
    destruct (pr =? "TCP"); cbn; rewrite Hs; cbn;
      [rewrite (Hopt eq_refl); cbn|]; rewrite Hb; cbn; rewrite Hcl; cbn;
      (repeat split; intros k Hin; cbn in Hin;
       repeat (destruct Hin as [E|Hin]; [discriminate|]); contradiction).
  - intros [c p b t bs pa sb sp] api api' e Hv Ho Hr Hcl. cbn in Hv, Ho.
    cbv zeta. step. rewrite Hv. cbn. rewrite Ho. cbn. rewrite Hr. cbn.
    split; [destruct e; reflexivity|]. destruct e; cbn; rewrite Hcl; reflexivity.
Qed.

(** X6. The server's [disconnect] closes the accepted connection first and
    the listening socket second.  When the first close succeeds and the
    second raises, the call returns false having forgotten the connection
    only: the listening socket is still recorded and the connected flag is
    untouched.  A second [disconnect] then closes the listening socket alone
    and returns true. *)
Theorem server_disconnect_resumes (s : Server.t) os os' k h e :
  Server.client_socket s = Some k -> Server.server_socket s = Some h ->
  os_close os k = Ok tt -> os_close os h = Raise e ->
  os_close os' h = Ok tt ->
  let r := run (Server.disconnect os) s in
  r = (Ok false, Server.set_client_socket None s,
       [SockClose k; SockClose h; Log LvError])
  /\ run (Server.disconnect os') (state r)
     = (Ok true,
        Server.set_is_connected false
          (Server.set_server_socket None (Server.set_client_socket None s)),
        [SockClose h; Log LvInfo]).
Proof.
  destruct s as [c hst p pr b k1 k2 a]. cbn [Server.client_socket Server.server_socket].
  intros -> -> Hk Hh Hh'. cbv zeta. step. rewrite Hk. cbn. rewrite Hh. cbn.
  split; [reflexivity|]. rewrite Hh'. reflexivity.
Qed.

(** *** The server's peer *)

(** X7. A connected TCP server talks on the accepted connection only.
    Without one, [send_command] returns false and [receive_data] returns
    [None], each after logging an error and without touching a socket.  With
    one, whatever [send_command] writes is a [sendall] on that connection,
    whatever [receive_data] reads is a [recv] on it with the configured
    buffer size, and [receive_data] leaves the object, the recorded client
    address included, as it was. *)
Theorem tcp_server_uses_accepted_connection (s : Server.t) :
  Server.protocol s = "TCP" -> Server.is_connected s = true ->
  (forall command os timeout,
      Server.client_socket s = None ->
      run (Server.send_command command os) s = (Ok false, s, [Log LvError])
      /\ run (Server.receive_data timeout os) s = (Ok None, s, [Log LvError]))
  /\ (forall command os h,
      Server.client_socket s = Some h ->
      forall e, In e (trace (run (Server.send_command command os) s)) ->
                is_transport_io e = true ->
                exists data, e = SockSendall h data)
  /\ (forall timeout os h,
      Server.client_socket s = Some h ->
      let r := run (Server.receive_data timeout os) s in
      state r = s
      /\ forall e, In e (trace r) -> is_transport_io e = true ->
                   e = SockRecv h (Server.buffer_size s)).
Proof.
  destruct s as [c hst p pr b k1 k2 a]. cbn [Server.protocol Server.is_connected
    Server.client_socket Server.buffer_size]. intros -> ->.
  split; [|split].
  - intros command os timeout ->. step. split; [|reflexivity].
    destruct (json_dumps (VDict command)) as [text|x]; cbn; [|reflexivity].
    destruct (encode text) as [d|x]; reflexivity.
  - intros command os h -> e. step.
    destruct (json_dumps (VDict command)) as [text|x]; cbn;
      [|intros [<-|[]]; discriminate].
    destruct (encode text) as [d|x]; cbn.
    + destruct (os_sendall os h d); cbn; intros [<-|[<-|[]]]; try discriminate; eauto.
    + intros [<-|[]]; discriminate.
  - intros timeout os h ->. cbv zeta. step. paths; split; try reflexivity;
      intros e' Hin Hio; cbn in Hin;
      repeat (destruct Hin as [<-|Hin]; [try discriminate Hio; try reflexivity|]);
      try contradiction.
Qed.

(** X21. The UDP client does not look at who sent a datagram: a datagram is
    handled the same whatever its source, be it the configured (host, port)
    or any other address. *)
Theorem udp_client_ignores_sender (s : Client.t) os os' timeout h data src src' :
  Client.protocol s = "UDP" ->
  Client.is_connected s = true -> Client.socket s = Some h ->
  os_settimeout os h timeout = os_settimeout os' h timeout ->
  os_recvfrom os h (Client.buffer_size s) = Ok (data, src) ->
  os_recvfrom os' h (Client.buffer_size s) = Ok (data, src') ->
  run (Client.receive_data timeout os) s = run (Client.receive_data timeout os') s.
Proof.
  destruct s as [c hst p pr b k]. cbn [Client.protocol Client.is_connected
    Client.socket Client.buffer_size]. intros -> -> -> Hst Hr Hr'. step.
  rewrite Hst. destruct (Qle_bool 0 timeout); cbn; [|reflexivity].
  destruct (os_settimeout os' h timeout) as [[]|x]; cbn; [|reflexivity].
  destruct (0 <=? b)%Z; cbn; [|reflexivity].
  rewrite Hr, Hr'. reflexivity.
Qed.

(** X8. A UDP server records the sender of every datagram it reads, not
    only of those it can decode: after [receive_data] has read a datagram
    from [src], the recorded peer is [src] also when the datagram is empty,
    is not UTF-8 or is not JSON, in which cases the call returns [None].  The
    next [send_command] then goes to [src]. *)
Theorem udp_datagram_records_sender (s : Server.t) timeout os h data src :
  Server.protocol s = "UDP" -> Server.is_connected s = true ->
  Server.server_socket s = Some h ->
  Qle_bool 0 timeout = true -> os_settimeout os h timeout = Ok tt ->
  (0 <=? Server.buffer_size s)%Z = true ->
  os_recvfrom os h (Server.buffer_size s) = Ok (data, src) ->
  let r := run (Server.receive_data timeout os) s in
  state r = Server.set_client_address (Some src) s
  /\ (data = [] -> result r = Ok None)
  /\ (utf8_decode data = None -> result r = Ok None)
  /\ (forall text, utf8_decode data = Some text -> loads text = None ->
                   result r = Ok None)
  /\ (forall command os' text payload,
         json_dumps (VDict command) = Ok text ->
         encode text = Ok payload ->
         os_sendto os' h payload src = Ok tt ->
         run (Server.send_command command os') (state r)
         = (Ok true, state r, [SockSendto h payload src; Log LvDebug])).
Proof.
  destruct s as [c hst p pr b k1 k2 a]. intros Hp Hc Hk Ht Hst Hb Hrecv.
  cbn in Hp, Hc, Hk, Hb, Hrecv. subst pr c k1. cbv zeta.
  assert (E : state (run (Server.receive_data timeout os)
                {| Server.is_connected := true; Server.host := hst; Server.port := p;
                   Server.protocol := "UDP"; Server.buffer_size := b;
                   Server.server_socket := Some h; Server.client_socket := k2;
                   Server.client_address := a |})
              = {| Server.is_connected := true; Server.host := hst; Server.port := p;
                   Server.protocol := "UDP"; Server.buffer_size := b;
                   Server.server_socket := Some h; Server.client_socket := k2;
                   Server.client_address := Some src |}).
  { step. rewrite Ht. cbn. rewrite Hst. cbn. rewrite Hb. cbn. rewrite Hrecv. cbn.
    paths; reflexivity. }
  split; [exact E|]. rewrite E. split; [|split; [|split]].
  - intros ->. step. rewrite Ht. cbn. rewrite Hst. cbn. rewrite Hb. cbn.
    rewrite Hrecv. reflexivity.
  - intros Hd. step. rewrite Ht. cbn. rewrite Hst. cbn. rewrite Hb. cbn.
    rewrite Hrecv. cbn. destruct data; [reflexivity|]. cbn.
    unfold decode. rewrite Hd. reflexivity.
  - intros text Hd Hl. step. rewrite Ht. cbn. rewrite Hst. cbn. rewrite Hb. cbn.
    rewrite Hrecv. cbn. destruct data; [reflexivity|]. cbn.
    unfold decode. rewrite Hd. cbn.
    destruct (json_loads_refuses _ Hl) as (e & He & Hx). rewrite He.
    now destruct e.
  - intros command os' text payload Hdumps Henc Hsend. step.
    rewrite Hdumps. cbn. rewrite Henc. cbn. rewrite Hsend. reflexivity.
Qed.

(** *** Receiving

    What [receive_data] makes of the bytes its read returns: of no bytes
    nothing, of bytes that are not UTF-8 or not a JSON document an error,
    and otherwise the value.  [calls] are the calls made before the log. *)
Lemma client_receive_read (s : Client.t) os timeout data :
  client_reads os s timeout data ->
  exists calls,
    (forall l, ~ In (Log l) calls)
    /\ run (Client.receive_data timeout os) s
       = match data with
         | [] => (Ok None, s, calls)
         | _ :: _ =>
           match utf8_decode data with
           | None => (Ok None, s, (calls ++ [Log LvError])%list)
           | Some text =>
             match json_loads text with
             | Raise _ => (Ok None, s, (calls ++ [Log LvError])%list)
             | Ok v => (Ok (Some v), s, (calls ++ [Log LvDebug])%list)
             end
           end
         end.
Proof.
  destruct s as [c hst p pr b k]. intros (h & Hc & Hk & Ht & Hst & Hb & Hread).
  cbn in Hc, Hk, Hb, Hread. subst c k.
  exists [SockSettimeout h timeout;
          if pr =? "TCP" then SockRecv h b else SockRecvfrom h b].
  split.
  { intros l [E|[E|[]]]; [discriminate|]. destruct (pr =? "TCP"); discriminate. }
  step. rewrite Ht. cbn. rewrite Hst. cbn. rewrite Hb.
  destruct (pr =? "TCP"); cbn.
  - rewrite Hread. cbn. destruct data as [|d0 data]; [reflexivity|]. unfold decode.
    destruct (utf8_decode (d0 :: data)) as [text|]; cbn; [|reflexivity].
    destruct (json_loads text) as [v|e] eqn:E; [reflexivity|].
    apply json_loads_raises in E. now destruct e.
  - destruct Hread as [src Hread]. rewrite Hread. cbn.
    destruct data as [|d0 data]; [reflexivity|]. unfold decode.
    destruct (utf8_decode (d0 :: data)) as [text|]; cbn; [|reflexivity].
    destruct (json_loads text) as [v|e] eqn:E; [reflexivity|].
    apply json_loads_raises in E. now destruct e.
Qed.

Lemma server_receive_read (s : Server.t) os timeout data :
  server_reads os s timeout data ->
  exists calls s',
    (forall l, ~ In (Log l) calls)
    /\ (Server.protocol s = "TCP" -> s' = s)
    /\ (exists a, s' = Server.set_client_address a s)
    /\ run (Server.receive_data timeout os) s
       = match data with
         | [] => (Ok None, s', calls)
         | _ :: _ =>
           match utf8_decode data with
           | None => (Ok None, s', (calls ++ [Log LvError])%list)
           | Some text =>
             match json_loads text with
             | Raise _ => (Ok None, s', (calls ++ [Log LvError])%list)
             | Ok v => (Ok (Some v), s', (calls ++ [Log LvDebug])%list)
             end
           end
         end.
Proof.
  destruct s as [c hst p pr b k1 k2 a]. intros (Hc & Ht & Hb & Hread).
  cbn in Hc, Hb, Hread. subst c. cbn [Server.protocol].
  destruct (pr =? "TCP") eqn:Hpr.
  - destruct Hread as (h & Hk & Hst & Hread). cbn in Hk. subst k2.
    exists [SockSettimeout h timeout; SockRecv h b]. eexists.
    split; [intros l [E|[E|[]]]; discriminate|].
    split; [intros _; reflexivity|]. split; [exists a; reflexivity|].
    step. rewrite Hpr. cbn. rewrite Ht. cbn. rewrite Hst. cbn. rewrite Hb. cbn.
    rewrite Hread. cbn.
    destruct data as [|d0 data]; [reflexivity|]. unfold decode.
    destruct (utf8_decode (d0 :: data)) as [text|]; cbn; [|reflexivity].
    destruct (json_loads text) as [v|e] eqn:E; [reflexivity|].
    apply json_loads_raises in E. now destruct e.
  - destruct Hread as (h & src & Hk & Hst & Hread). cbn in Hk. subst k1.
    exists [SockSettimeout h timeout; SockRecvfrom h b]. eexists.
    split; [intros l [E|[E|[]]]; discriminate|].
    split; [intros E; apply String.eqb_neq in Hpr; contradiction|].
    split; [exists (Some src); reflexivity|].
    step. rewrite Hpr. cbn. rewrite Ht. cbn. rewrite Hst. cbn. rewrite Hb. cbn.
    rewrite Hread. cbn.
    destruct data as [|d0 data]; [reflexivity|]. unfold decode.
    destruct (utf8_decode (d0 :: data)) as [text|]; cbn; [|reflexivity].
    destruct (json_loads text) as [v|e] eqn:E; [reflexivity|].
    apply json_loads_raises in E. now destruct e.
Qed.

Lemma line_receive_read (s : Line.t) api timeout data :
  line_reads api s timeout data ->
  exists calls,
    (forall l, ~ In (Log l) calls)
    /\ run (Line.receive_data timeout api) s
       = match data with
         | [] => (Ok None, s, (calls ++ [Log LvDebug])%list)
         | _ :: _ =>
           match utf8_decode data with
           | None => (Ok None, s, (calls ++ [Log LvError])%list)
           | Some text =>
             match json_loads (strip text) with
             | Raise _ => (Ok None, s, (calls ++ [Log LvError])%list)
             | Ok v => (Ok (Some v), s, (calls ++ [Log LvDebug])%list)
             end
           end
         end.
Proof.
  destruct s as [c p b t bs pa sb sp]. intros (sp' & Hsp & Ht & Hto & Hre & Hread).
  destruct c; [|discriminate]. destruct sp as [[o to]|]; [|discriminate].
  destruct o; [|discriminate]. cbn in Hsp. injection Hsp as <-. cbn in Hto.
  exists [SerialSetTimeout timeout; SerialReadline; SerialSetTimeout to].
  split; [intros l [E|[E|[E|[]]]]; discriminate|].
  step. rewrite Ht. cbn. rewrite Hre. cbn. rewrite Hread. cbn.
  rewrite Hto. cbn. rewrite Hre. cbn.
  destruct data as [|d0 data]; [reflexivity|]. unfold decode.
  destruct (utf8_decode (d0 :: data)) as [text|]; cbn; [|reflexivity].
  destruct (json_loads (strip text)) as [v|e]; [reflexivity|now destruct e].
Qed.

(** X9. A read that returns no bytes (on TCP: the peer has closed the
    connection) makes [receive_data] return [None]; the socket bindings log
    nothing, the serial binding logs no error.  The closed connection is not
    detected: [check_connection] still returns true afterwards. *)
Theorem empty_read_not_detected :
  (forall (s : Client.t) os timeout,
      client_reads os s timeout [] ->
      let r := run (Client.receive_data timeout os) s in
      result r = Ok None /\ state r = s
      /\ (forall l, ~ In (Log l) (trace r))
      /\ result (run TeleopInterface.check_connection (state r)) = Ok true)
  /\ (forall (s : Server.t) os timeout,
      server_reads os s timeout [] ->
      let r := run (Server.receive_data timeout os) s in
      result r = Ok None
      /\ (forall l, ~ In (Log l) (trace r))
      /\ result (run TeleopInterface.check_connection (state r)) = Ok true)
  /\ (forall (s : Line.t) api timeout,
      line_reads api s timeout [] ->
      let r := run (Line.receive_data timeout api) s in
      result r = Ok None /\ state r = s
      /\ ~ In (Log LvError) (trace r)
      /\ result (run TeleopInterface.check_connection (state r)) = Ok true).
Proof.
  split; [|split].
  - intros s os timeout Hr r.
    destruct (client_receive_read s os timeout _ Hr) as (calls & Hq & E).
    subst r. rewrite E. destruct Hr as (h & Hc & _).
    repeat split; [exact Hq|]. destruct s. exact (f_equal Ok Hc).
  - intros s os timeout Hr r.
    destruct (server_receive_read s os timeout _ Hr) as (calls & s' & Hq & _ & [a Ha] & E).
    subst r. rewrite E. destruct Hr as (Hc & _).
    repeat split; [exact Hq|]. subst s'. destruct s. exact (f_equal Ok Hc).
  - intros s api timeout Hr r.
    destruct (line_receive_read s api timeout _ Hr) as (calls & Hq & E).
    subst r. rewrite E. destruct Hr as (sp & Hsp & _).
    repeat split.
    + intros Hin. apply in_app_or in Hin as [Hin|[Hin|[]]]; [|discriminate].
      exact (Hq _ Hin).
    + destruct s as [[] ? ? ? ? ? ? ?]; [reflexivity|discriminate].
Qed.

(** X10. When the read of a socket binding raises, [receive_data] returns
    [None] and leaves the object as it was, having set the timeout and tried
    the one read; a [socket.timeout] is logged at debug level, every other
    exception as an error. *)
Theorem read_failure_logging :
  (forall (s : Client.t) os timeout h e,
      Client.is_connected s = true -> Client.socket s = Some h ->
      Qle_bool 0 timeout = true -> os_settimeout os h timeout = Ok tt ->
      (0 <=? Client.buffer_size s)%Z = true ->
      (if Client.protocol s =? "TCP"
       then os_recv os h (Client.buffer_size s) = Raise e
       else os_recvfrom os h (Client.buffer_size s) = Raise e) ->
      run (Client.receive_data timeout os) s
      = (Ok None, s,
         [SockSettimeout h timeout;
          if Client.protocol s =? "TCP" then SockRecv h (Client.buffer_size s)
          else SockRecvfrom h (Client.buffer_size s);
          Log match e with SocketTimeout => LvDebug | _ => LvError end]))
  /\ (forall (s : Server.t) os timeout h e,
      Server.is_connected s = true ->
      (if Server.protocol s =? "TCP" then Server.client_socket s = Some h
       else Server.server_socket s = Some h) ->
      Qle_bool 0 timeout = true -> os_settimeout os h timeout = Ok tt ->
      (0 <=? Server.buffer_size s)%Z = true ->
      (if Server.protocol s =? "TCP"
       then os_recv os h (Server.buffer_size s) = Raise e
       else os_recvfrom os h (Server.buffer_size s) = Raise e) ->
      run (Server.receive_data timeout os) s
      = (Ok None, s,
         [SockSettimeout h timeout;
          if Server.protocol s =? "TCP" then SockRecv h (Server.buffer_size s)
          else SockRecvfrom h (Server.buffer_size s);
          Log match e with SocketTimeout => LvDebug | _ => LvError end])).
Proof.
  split.
  - intros [c hst p pr b k] os timeout h e Hc Hk Ht Hst Hb Hread.
    cbn in Hc, Hk, Hb, Hread |- *. subst c k. step.
    rewrite Ht. cbn. rewrite Hst. cbn. rewrite Hb.
    destruct (pr =? "TCP"); cbn; rewrite Hread; cbn; destruct e; reflexivity.
  - intros [c hst p pr b k1 k2 a] os timeout h e Hc Hk Ht Hst Hb Hread.
    cbn in Hc, Hk, Hb, Hread |- *. subst c. step.
    destruct (pr =? "TCP"); cbn; subst; cbn; rewrite Ht; cbn; rewrite Hst; cbn;
      rewrite Hb; cbn; rewrite Hread; cbn; destruct e; reflexivity.
Qed.

(** X11. With a negative timeout no read is made: setting the timeout is
    refused, the four receive methods return [None] after logging an error,
    and the object, the timeout of the serial handle included, is as
    before. *)
Theorem negative_timeout_no_read (timeout : Q) :
  Qle_bool 0 timeout = false ->
  (forall (s : Client.t) os h,
      Client.is_connected s = true -> Client.socket s = Some h ->
      run (Client.receive_data timeout os) s = (Ok None, s, [Log LvError]))
  /\ (forall (s : Server.t) os h,
      Server.is_connected s = true ->
      (if Server.protocol s =? "TCP" then Server.client_socket s = Some h
       else Server.server_socket s = Some h) ->
      run (Server.receive_data timeout os) s = (Ok None, s, [Log LvError]))
  /\ (forall (s : Line.t) api sp size,
      Line.open_port s = Some sp ->
      run (Line.receive_data timeout api) s = (Ok None, s, [Log LvError])
      /\ run (Line.receive_raw_bytes size timeout api) s = (Ok None, s, [Log LvError])).
Proof.
  intros Ht. split; [|split].
  - intros [c hst p pr b k] os h Hc Hk. cbn in Hc, Hk. subst c k. step.
    rewrite Ht. reflexivity.
  - intros [c hst p pr b k1 k2 a] os h Hc Hk. cbn in Hc, Hk. subst c. step.
    destruct (pr =? "TCP"); cbn; subst; cbn; rewrite Ht; reflexivity.
  - intros [c p b t bs pa sb sp'] api sp size Hsp.
    destruct c; [|discriminate]. destruct sp' as [[o to]|]; [|discriminate].
    destruct o; [|discriminate]. step. rewrite Ht. split; reflexivity.
Qed.

(** X12. When the read returns, the two serial receive methods leave the
    object exactly as they found it: the read timeout of the handle is set
    to the timeout of the call before the read and back to its old value
    after it, whether or not anything was read or decoded. *)
Theorem receive_leaves_line_unchanged (s : Line.t) api timeout sp :
  Line.open_port s = Some sp ->
  Qle_bool 0 timeout = true -> Qle_bool 0 (Serial.timeout sp) = true ->
  (forall t, ser_reconfigure api t = Ok tt) ->
  (forall line, ser_readline api = Ok line ->
                state (run (Line.receive_data timeout api) s) = s)
  /\ (forall size data, ser_read api size = Ok data ->
                   state (run (Line.receive_raw_bytes size timeout api) s) = s
                   /\ trace (run (Line.receive_raw_bytes size timeout api) s)
                      = [SerialSetTimeout timeout; SerialRead size;
                         SerialSetTimeout (Serial.timeout sp); Log LvDebug]).
Proof.
  intros Hsp Ht Hto Hre. split.
  - intros line Hline.
    destruct (line_receive_read s api timeout line) as (calls & _ & E).
    { exists sp. auto. }
    rewrite E. destruct line; [reflexivity|].
    destruct (utf8_decode (b :: line)); [|reflexivity].
    destruct (json_loads (strip p)); reflexivity.
  - intros size data Hread.
    destruct s as [c p b t bs pa sb sp']. destruct c; [|discriminate].
    destruct sp' as [[o to]|]; [|discriminate]. destruct o; [|discriminate].
    cbn in Hsp. injection Hsp as <-. cbn in Hto.
    step. rewrite Ht. cbn. rewrite Hre. cbn. rewrite Hread. cbn.
    rewrite Hto. cbn. rewrite Hre. cbn. destruct data; split; reflexivity.
Qed.

(** X13. On an open serial transport [send_raw_bytes] makes one write of
    exactly the bytes it was given, then flushes; it returns true exactly when
    both calls return, whatever count the write reports, and a failed write is
    not followed by a flush.  When the device returns those bytes to a read
    of their number, [receive_raw_bytes] returns them. *)
Theorem raw_bytes_written (s : Line.t) api sp data :
  Line.open_port s = Some sp ->
  let r := run (Line.send_raw_bytes data api) s in
  sent (trace r) = [data]
  /\ (result r = Ok true <->
      (exists n, ser_write api data = Ok n) /\ ser_flush api = Ok tt)
  /\ (forall e, ser_write api data = Raise e ->
                r = (Ok false, s, [SerialWrite data; Log LvError]))
  /\ (forall d0 rest timeout,
         data = d0 :: rest ->
         Qle_bool 0 timeout = true -> Qle_bool 0 (Serial.timeout sp) = true ->
         (forall t, ser_reconfigure api t = Ok tt) ->
         ser_read api (Z.of_nat (List.length data)) = Ok data ->
         result (run (Line.receive_raw_bytes (Z.of_nat (List.length data)) timeout api) s)
         = Ok (Some data)).
Proof.
  destruct s as [c p b t bs pa sb sp']. destruct c; [|discriminate].
  destruct sp' as [[o to]|]; [|discriminate]. destruct o; [|discriminate].
  intros [= <-]. cbv zeta. split; [|split; [|split]].
  - step. paths; reflexivity.
  - step. destruct (ser_write api data) as [n|x]; cbn.
    + destruct (ser_flush api) as [[]|x]; cbn.
      * split; [intros _; split; eauto|reflexivity].
      * split; [discriminate|]. intros [_ H]. discriminate.
    + split; [discriminate|]. intros [[n H] _]. discriminate.
  - intros e He. step. rewrite He. reflexivity.
  - intros d0 rest timeout -> Ht Hto Hre Hread. cbn in Hto. step.
    rewrite Ht. cbn. rewrite Hre. cbn.
    cbn [List.length] in Hread. rewrite Hread. cbn.
    rewrite Hto. cbn. rewrite Hre. reflexivity.
Qed.

(** X14. Bytes that are not UTF-8, or whose text (on the serial line, after
    [strip]) is not a JSON document, are dropped: in each binding
    [receive_data] returns [None] and logs an error; the client and the
    serial object are as before, and the server still counts as
    connected. *)
Theorem malformed_input_dropped (data : bytes) :
  data <> [] ->
  (forall (s : Client.t) os timeout,
      client_reads os s timeout data ->
      match utf8_decode data with Some text => loads text = None | None => True end ->
      let r := run (Client.receive_data timeout os) s in
      result r = Ok None /\ state r = s /\ In (Log LvError) (trace r))
  /\ (forall (s : Server.t) os timeout,
      server_reads os s timeout data ->
      match utf8_decode data with Some text => loads text = None | None => True end ->
      let r := run (Server.receive_data timeout os) s in
      result r = Ok None /\ In (Log LvError) (trace r)
      /\ Server.is_connected (state r) = true)
  /\ (forall (s : Line.t) api timeout,
      line_reads api s timeout data ->
      match utf8_decode data with
      | Some text => loads (strip text) = None
      | None => True
      end ->
      let r := run (Line.receive_data timeout api) s in
      result r = Ok None /\ state r = s /\ In (Log LvError) (trace r)).
Proof.
  intros Hne. destruct data as [|d0 data]; [contradiction|].
  split; [|split].
  - intros s os timeout Hr Hbad r.
    destruct (client_receive_read s os timeout _ Hr) as (calls & _ & E).
    subst r. rewrite E.
    destruct (utf8_decode (d0 :: data)) as [text|]; [destruct (json_loads_refuses _ Hbad) as (e & -> & _)|];
      (split; [reflexivity|split; [reflexivity|apply in_or_app; right; now left]]).
  - intros s os timeout Hr Hbad r.
    destruct (server_receive_read s os timeout _ Hr) as (calls & s' & _ & _ & [a Ha] & E).
    subst r. rewrite E. pose proof Hr as (Hc & _).
    destruct (utf8_decode (d0 :: data)) as [text|]; [destruct (json_loads_refuses _ Hbad) as (e & -> & _)|];
      (split; [reflexivity|split; [apply in_or_app; right; now left|]]);
      subst s'; destruct s; exact Hc.
  - intros s api timeout Hr Hbad r.
    destruct (line_receive_read s api timeout _ Hr) as (calls & _ & E).
    subst r. rewrite E.
    destruct (utf8_decode (d0 :: data)) as [text|]; [destruct (json_loads_refuses _ Hbad) as (e & -> & _)|];
      (split; [reflexivity|split; [reflexivity|apply in_or_app; right; now left]]).
Qed.

End Facts.

Section Messages.
Context {PF : PyFloat} {PFS : PyFloatSpec} {PL : PyLimits}.

Lemma ascii_text_bytes (t : pystr) :
  forallb (fun c => (c <? 0x80)%N) t = true ->
  encode t = Ok (map byte_of t) /\ utf8_decode (map byte_of t) = Some t.
Proof.
  intros H. destruct (utf8_ascii t H) as [He Hd]. unfold encode. now rewrite He.
Qed.

Lemma text_bytes_nonempty (c : N) (t : pystr) :
  exists d0 r, map byte_of (c :: t) = d0 :: r.
Proof. cbn [map]. eauto. Qed.


(** X18. Messages are not framed on a socket: when one read returns the
    bytes of two commands one after the other, [receive_data] returns [None]
    and logs an error, so both are lost.  The same holds of a serial line
    that carries two commands before its line feed. *)
Theorem coalesced_messages_dropped (m1 m2 : pydict) :
  representable (VDict m1) = true -> representable (VDict m2) = true ->
  let text := (dumps (VDict m1) ++ dumps (VDict m2))%list in
  (forall (s : Client.t) os timeout,
      client_reads os s timeout (map byte_of text) ->
      let r := run (Client.receive_data timeout os) s in
      result r = Ok None /\ In (Log LvError) (trace r))
  /\ (forall (s : Server.t) os timeout,
      server_reads os s timeout (map byte_of text) ->
      let r := run (Server.receive_data timeout os) s in
      result r = Ok None /\ In (Log LvError) (trace r))
  /\ (forall (s : Line.t) api timeout,
      line_reads api s timeout (map byte_of (text ++ [10%N])%list) ->
      let r := run (Line.receive_data timeout api) s in
      result r = Ok None /\ In (Log LvError) (trace r)).
Proof.
  intros R1 R2 text.
  pose proof (printable_ascii _ (dumps_printable _ R1)) as A1.
  pose proof (printable_ascii _ (dumps_printable _ R2)) as A2.
  assert (Ha : forallb (fun c => (c <? 0x80)%N) text = true).
  { unfold text. now rewrite forallb_app, A1, A2. }
  assert (Hb : forallb (fun c => (c <? 0x80)%N) (text ++ [10%N])%list = true).
  { now rewrite forallb_app, Ha. }
  destruct (ascii_text_bytes _ Ha) as [_ Hd].
  destruct (ascii_text_bytes _ Hb) as [_ Hd'].
  assert (Hloads : loads text = None).
  { unfold text. eapply (loads_extra_data (VDict m1) _ 123%N); auto.
    unfold dumps at 1. fold (@dumps PF). reflexivity. }
  apply json_loads_refuses in Hloads as (e0 & Hloads & _).
  assert (Hstrip : strip (text ++ [10%N])%list = text).
  { apply (strip_padded [] text [10%N]); auto.
    - unfold text. unfold dumps at 1. fold (@dumps PF). reflexivity.
    - unfold text. rewrite rev_app_distr.
      pose proof (dumps_last (VDict m2) R2) as Hlast.
      destruct (List.rev (dumps (VDict m2))); [contradiction|exact Hlast]. }
  assert (Hne : exists d0 r, map byte_of text = d0 :: r).
  { unfold text. unfold dumps at 1. fold (@dumps PF). cbn [app map]. eauto. }
  assert (Hne' : exists d0 r, map byte_of (text ++ [10%N])%list = d0 :: r).
  { unfold text. unfold dumps at 1. fold (@dumps PF). cbn [app map]. eauto. }
  destruct Hne as (d0 & r0 & Hne). destruct Hne' as (d1 & r1 & Hne').
  split; [|split].
  - intros s os timeout Hr r.
    destruct (client_receive_read s os timeout _ Hr) as (calls & _ & E).
    subst r. rewrite E, Hne. cbv iota. rewrite <- Hne, Hd, Hloads.
    split; [reflexivity|]. apply in_or_app. right. now left.
  - intros s os timeout Hr r.
    destruct (server_receive_read s os timeout _ Hr) as (calls & s' & _ & _ & _ & E).
    subst r. rewrite E, Hne. cbv iota. rewrite <- Hne, Hd, Hloads.
    split; [reflexivity|]. apply in_or_app. right. now left.
  - intros s api timeout Hr r.
    destruct (line_receive_read s api timeout _ Hr) as (calls & _ & E).
    subst r. rewrite E, Hne'. cbv iota. rewrite <- Hne', Hd', Hstrip, Hloads.
    split; [reflexivity|]. apply in_or_app. right. now left.
Qed.

(** X16. What [send_command] does on a connected transport, for a command
    made of [None], booleans, integers, floats, strings, lists and mappings
    with string keys.  Within the limits of the interpreter it fails on the
    transport only: the text of [json.dumps] is ASCII whatever the command
    holds, so its encoding cannot fail; the method makes exactly one write,
    of the bytes of that text (on the serial line, of the text and a line
    feed), and returns true exactly when that write (on the serial line, the
    write and the flush) returns.  Beyond those limits, nested deeper than
    the recursion limit allows or holding an integer longer than the digit
    limit, [json.dumps] raises: the method logs the error, returns false and
    writes nothing. *)
Theorem send_command_outcome (command : pydict) :
  let data := map byte_of (dumps (VDict command)) in
  let line := map byte_of (dumps (VDict command) ++ [10%N])%list in
  (fits encoder_depth (VDict command) = true ->
   (forall (s : Client.t) os h,
       Client.is_connected s = true -> Client.socket s = Some h ->
       let r := run (Client.send_command command os) s in
       sent (trace r) = [data]
       /\ (result r = Ok true <->
           (if Client.protocol s =? "TCP" then os_sendall os h data
            else os_sendto os h data (Client.host s, Client.port s)) = Ok tt))
   /\ (forall (s : Server.t) os h,
       Server.is_connected s = true -> Server.protocol s = "TCP" ->
       Server.client_socket s = Some h ->
       let r := run (Server.send_command command os) s in
       sent (trace r) = [data] /\ (result r = Ok true <-> os_sendall os h data = Ok tt))
   /\ (forall (s : Server.t) os h peer,
       Server.is_connected s = true -> Server.protocol s = "UDP" ->
       Server.server_socket s = Some h -> Server.client_address s = Some peer ->
       let r := run (Server.send_command command os) s in
       sent (trace r) = [data]
       /\ (result r = Ok true <-> os_sendto os h data peer = Ok tt))
   /\ (forall (s : Line.t) api sp,
       Line.open_port s = Some sp ->
       let r := run (Line.send_command command api) s in
       sent (trace r) = [line]
       /\ (result r = Ok true <->
           (exists n, ser_write api line = Ok n) /\ ser_flush api = Ok tt)))
  /\ (fits encoder_depth (VDict command) = false ->
      (forall (s : Client.t) os h,
          Client.is_connected s = true -> Client.socket s = Some h ->
          run (Client.send_command command os) s = (Ok false, s, [Log LvError]))
      /\ (forall (s : Server.t) os,
          Server.is_connected s = true ->
          run (Server.send_command command os) s = (Ok false, s, [Log LvError]))
      /\ (forall (s : Line.t) api sp,
          Line.open_port s = Some sp ->
          run (Line.send_command command api) s = (Ok false, s, [Log LvError]))).
Proof.
  intros data line.
  pose proof (printable_ascii _ (dumps_ascii (VDict command))) as Ha.
  assert (Hb : forallb (fun c => (c <? 0x80)%N) (dumps (VDict command) ++ [10%N])%list
               = true) by now rewrite forallb_app, Ha.
  destruct (ascii_text_bytes _ Ha) as [He _]. destruct (ascii_text_bytes _ Hb) as [He' _].
  fold data in He. fold line in He'.
  split.
  - intros Hfits. pose proof (json_dumps_fits _ Hfits) as Hj.
    split; [|split; [|split]].
    + intros [c hst p pr b k] os h Hc Hk. cbn in Hc, Hk. subst c k. cbv zeta. step.
      rewrite Hj. cbn. rewrite He. cbn. destruct (pr =? "TCP"); cbn.
      * destruct (os_sendall os h data) as [[]|x]; cbn; split; try reflexivity;
          split; (reflexivity || discriminate).
      * destruct (os_sendto os h data (hst, p)) as [[]|x]; cbn; split; try reflexivity;
          split; (reflexivity || discriminate).
    + intros [c hst p pr b k1 k2 a] os h Hc Hp Hk. cbn in Hc, Hp, Hk. subst c pr k2.
      cbv zeta. step. rewrite Hj. cbn. rewrite He. cbn.
      destruct (os_sendall os h data) as [[]|x]; cbn; split; try reflexivity;
        split; (reflexivity || discriminate).
    + intros [c hst p pr b k1 k2 a] os h peer Hc Hp Hk Ha'. cbn in Hc, Hp, Hk, Ha'.
      subst c pr k1 a. cbv zeta. step. rewrite Hj. cbn. rewrite He. cbn.
      destruct (os_sendto os h data peer) as [[]|x]; cbn; split; try reflexivity;
        split; (reflexivity || discriminate).
    + intros [c p b t bs pa sb sp'] api sp Hsp. destruct c; [|discriminate].
      destruct sp' as [[o to]|]; [|discriminate]. destruct o; [|discriminate].
      cbv zeta. step. rewrite Hj. cbn. rewrite He'. cbn.
      destruct (ser_write api line) as [n|x]; cbn.
      * destruct (ser_flush api) as [[]|x]; cbn; split; try reflexivity.
        -- split; [intros _; split; eauto|reflexivity].
        -- split; [discriminate|]. intros [_ H]. discriminate.
      * split; [reflexivity|]. split; [discriminate|]. intros [[n H] _]. discriminate.
  - intros Hfits.
    assert (Hj : exists e, json_dumps (VDict command) = Raise e).
    { destruct (json_dumps (VDict command)) as [t|e] eqn:E; [|eauto].
      apply json_dumps_text in E as [_ E]. congruence. }
    destruct Hj as [e Hj].
    split; [|split].
    + intros [c hst p pr b k] os h Hc Hk. cbn in Hc, Hk. subst c k. step.
      now rewrite Hj.
    + intros [c hst p pr b k1 k2 a] os Hc. cbn in Hc. subst c. step.
      now rewrite Hj.
    + intros [c p b t bs pa sb sp'] api sp Hsp. destruct c; [|discriminate].
      destruct sp' as [[o to]|]; [|discriminate]. destruct o; [|discriminate].
      step. now rewrite Hj.
Qed.

(** X19. On the serial line a message ends at its line feed: the text of a
    command holds none, so whatever bytes follow the line that
    [send_command] wrote for [m], a [readline] on them returns that line; and
    [receive_data] then returns [m], when [m] is within the limits of the
    interpreter. *)
Theorem lines_read_one_by_one (m : pydict) (more : bytes) :
  representable (VDict m) = true ->
  let line := map byte_of (dumps (VDict m) ++ [10%N])%list in
  Serial.readline_of (line ++ more)%list = line
  /\ (fits scanner_depth (VDict m) = true ->
      forall (s : Line.t) api timeout,
        line_reads api s timeout (Serial.readline_of (line ++ more)%list) ->
        result (run (Line.receive_data timeout api) s) = Ok (Some (VDict m))).
Proof.
  intros Rm line.
  pose proof (TransportFacts.line_framing m more Rm) as Hf. fold line in Hf.
  split; [exact Hf|]. rewrite Hf. intros Fm s api timeout Hr.
  destruct (TransportFacts.line_codec m Rm) as (_ & Hd & Hstrip).
  unfold decode in Hd. fold line in Hd.
  destruct (utf8_decode line) as [text|] eqn:Hu; [|discriminate].
  assert (Et : text = (dumps (VDict m) ++ [10%N])%list) by congruence.
  subst text. clear Hd.
  destruct (line_receive_read s api timeout _ Hr) as (calls & _ & E).
  assert (Hne : exists d0 r, line = d0 :: r).
  { unfold line. unfold dumps at 1. fold (@dumps PF). cbn [app map]. eauto. }
  destruct Hne as (d0 & r & Hne).
  rewrite E, Hne. cbv iota.
  rewrite <- Hne, Hu, Hstrip, (json_loads_dumps (VDict m) Rm Fm).
  reflexivity.
Qed.

(** X20. A command cut short is never taken for a command: when the read
    returns only a proper, non-empty prefix of the bytes of [m] (the message
    is longer than the receive buffer, or the serial read times out before
    the line feed), [receive_data] returns [None] and logs an error, in each
    binding. *)
Theorem truncated_message_dropped (m : pydict) (p q : pystr) :
  representable (VDict m) = true ->
  dumps (VDict m) = (p ++ q)%list -> p <> [] -> q <> [] ->
  (forall (s : Client.t) os timeout,
      client_reads os s timeout (map byte_of p) ->
      let r := run (Client.receive_data timeout os) s in
      result r = Ok None /\ In (Log LvError) (trace r))
  /\ (forall (s : Server.t) os timeout,
      server_reads os s timeout (map byte_of p) ->
      let r := run (Server.receive_data timeout os) s in
      result r = Ok None /\ In (Log LvError) (trace r))
  /\ (forall (s : Line.t) api timeout,
      line_reads api s timeout (map byte_of p) ->
      let r := run (Line.receive_data timeout api) s in
      result r = Ok None /\ In (Log LvError) (trace r)).
Proof.
  intros Rm E Hp Hq.
  assert (Ha : forallb (fun c => (c <? 0x80)%N) p = true).
  { pose proof (printable_ascii _ (dumps_printable _ Rm)) as A.
    rewrite E, forallb_app in A. now apply andb_prop in A as [A _]. }
  destruct (ascii_text_bytes _ Ha) as [_ Hd].
  pose proof (loads_truncated m p q Rm E Hq) as Hloads.
  assert (Hstrip : loads (strip p) = None).
  { unfold strip. destruct p as [|c p']; [contradiction|].
    assert (c = 123%N).
    { unfold dumps in E. fold (@dumps PF) in E. cbn [app] in E. now injection E as <-. }
    subst c. cbn [lstrip]. change (isspace 123) with false. cbv iota.
    destruct (rstrip_prefix (123%N :: p')) as [ws Ews].
    apply (loads_truncated m _ (ws ++ q)%list Rm).
    - now rewrite app_assoc, <- Ews.
    - intros H. apply app_eq_nil in H. now destruct H. }
  apply json_loads_refuses in Hloads as (e0 & Hloads & _).
  apply json_loads_refuses in Hstrip as (e1 & Hstrip & _).
  destruct p as [|c p']; [contradiction|].
  destruct (text_bytes_nonempty c p') as (d0 & r0 & Hb).
  split; [|split].
  - intros s os timeout Hr r.
    destruct (client_receive_read s os timeout _ Hr) as (calls & _ & Er).
    subst r. rewrite Er, Hb. cbv iota. rewrite <- Hb, Hd, Hloads.
    split; [reflexivity|]. apply in_or_app. right. now left.
  - intros s os timeout Hr r.
    destruct (server_receive_read s os timeout _ Hr) as (calls & s' & _ & _ & _ & Er).
    subst r. rewrite Er, Hb. cbv iota. rewrite <- Hb, Hd, Hloads.
    split; [reflexivity|]. apply in_or_app. right. now left.
  - intros s api timeout Hr r.
    destruct (line_receive_read s api timeout _ Hr) as (calls & _ & Er).
    subst r. rewrite Er, Hb. cbv iota. rewrite <- Hb, Hd, Hstrip.
    split; [reflexivity|]. apply in_or_app. right. now left.
Qed.

End Messages.

(** X15. A message of white space only (a bare line feed, say) is an
    error, not an absence of data: [receive_data] returns [None] and logs an
    error in each binding. *)
Theorem blank_message_is_an_error {PF : PyFloat} {PL : PyLimits} (text : pystr) :
  text <> [] -> forallb is_ws text = true ->
  (forall (s : Client.t) os timeout,
      client_reads os s timeout (map byte_of text) ->
      let r := run (Client.receive_data timeout os) s in
      result r = Ok None /\ In (Log LvError) (trace r))
  /\ (forall (s : Server.t) os timeout,
      server_reads os s timeout (map byte_of text) ->
      let r := run (Server.receive_data timeout os) s in
      result r = Ok None /\ In (Log LvError) (trace r))
  /\ (forall (s : Line.t) api timeout,
      line_reads api s timeout (map byte_of text) ->
      let r := run (Line.receive_data timeout api) s in
      result r = Ok None /\ In (Log LvError) (trace r)).
Proof.
  intros Hne Hws. destruct (is_ws_all text Hws) as [Hsp Ha].
  destruct (utf8_ascii text Ha) as [_ Hd].
  assert (Hloads : loads text = None).
  { unfold loads. destruct text as [|c t]; [contradiction|].
    cbn [forallb] in Hws. apply andb_prop in Hws as [Hc Ht].
    rewrite startswith_other by (destruct (is_ws_isspace c Hc); lia).
    change (c :: t) with ([c] ++ t)%list at 2.
    rewrite skip_ws_all by (cbn; now rewrite Hc).
    rewrite <- (app_nil_r t), (skip_ws_all t [] Ht). reflexivity. }
  assert (Hstrip : loads (strip text) = None).
  { rewrite (strip_blank text Hsp). reflexivity. }
  apply json_loads_refuses in Hloads as (e0 & Hloads & _).
  apply json_loads_refuses in Hstrip as (e1 & Hstrip & _).
  destruct text as [|c t]; [contradiction|].
  destruct (text_bytes_nonempty c t) as (d0 & r0 & Hb).
  split; [|split].
  - intros s os timeout Hr r.
    destruct (client_receive_read s os timeout _ Hr) as (calls & _ & E).
    subst r. rewrite E, Hb. cbv iota. rewrite <- Hb, Hd, Hloads.
    split; [reflexivity|]. apply in_or_app. right. now left.
  - intros s os timeout Hr r.
    destruct (server_receive_read s os timeout _ Hr) as (calls & s' & _ & _ & _ & E).
    subst r. rewrite E, Hb. cbv iota. rewrite <- Hb, Hd, Hloads.
    split; [reflexivity|]. apply in_or_app. right. now left.
  - intros s api timeout Hr r.
    destruct (line_receive_read s api timeout _ Hr) as (calls & _ & E).
    subst r. rewrite E, Hb. cbv iota. rewrite <- Hb, Hd, Hstrip.
    split; [reflexivity|]. apply in_or_app. right. now left.
Qed.

(** *** The theorems at sample inputs *)

#[local] Existing Instance Halves.halves.
#[local] Existing Instance Defaults.limits.

Lemma clear_buffers_unguarded_witness :
  Line.open_port open_line <> None
  /\ run (Line.clear_buffers dev_reset_fails) open_line
     = (Raise SerialException, open_line, [SerialResetInput]).
Proof.
  split; [discriminate|].
  exact (proj1 (proj2 (clear_buffers_unguarded open_line dev_reset_fails)
                  _ eq_refl eq_refl)
           SerialException eq_refl).
Defined.

Lemma connect_calls_witness :
  result (run (Client.connect (os_fine [] sample_peer)) idle_client) = Ok true
  /\ exists h,
      state (run (Client.connect (os_fine [] sample_peer)) idle_client)
      = Client.set_is_connected true (Client.set_socket (Some h) idle_client)
      /\ trace (run (Client.connect (os_fine [] sample_peer)) idle_client)
         = [SocketNew SOCK_STREAM; SockConnect h ("127.0.0.1", 8888%Z); Log LvInfo].
Proof.
  split; [reflexivity|].
  exact (proj1 connect_calls idle_client (os_fine [] sample_peer) eq_refl).
Defined.

Lemma failed_connect_keeps_handle_witness :
  os_connect os_refuses 7%nat ("127.0.0.1", 8888%Z) = Raise OSError
  /\ result (run (Client.connect os_refuses) idle_client) = Ok false.
Proof.
  split; [reflexivity|].
  pose proof (proj1 failed_connect_keeps_handle idle_client os_refuses
                (os_fine [] sample_peer) 7%nat OSError
                eq_refl eq_refl eq_refl eq_refl) as H.
  cbv zeta in H. destruct H as [H _]. now rewrite H.
Defined.

Lemma server_disconnect_resumes_witness :
  Server.client_socket tcp_server = Some 8%nat
  /\ result (run (Server.disconnect os_listener_stuck) tcp_server) = Ok false.
Proof.
  split; [reflexivity|].
  pose proof (server_disconnect_resumes tcp_server os_listener_stuck
                (os_fine [] sample_peer) 8%nat 7%nat OSError
                eq_refl eq_refl eq_refl eq_refl eq_refl) as H.
  cbv zeta in H. destruct H as [H _]. now rewrite H.
Defined.

Lemma tcp_server_uses_accepted_connection_witness :
  Server.protocol tcp_server = "TCP"
  /\ state (run (@Server.receive_data Halves.halves Defaults.limits 1 (os_fine [] sample_peer))
                tcp_server)
     = tcp_server.
Proof.
  split; [reflexivity|].
  exact (proj1 (proj2 (proj2 (@tcp_server_uses_accepted_connection Halves.halves Defaults.limits
                                tcp_server eq_refl eq_refl))
                  1%Q (os_fine [] sample_peer) 8%nat eq_refl)).
Defined.

Lemma udp_datagram_records_sender_witness :
  utf8_decode [xff] = None
  /\ state (run (@Server.receive_data Halves.halves Defaults.limits 1 (os_fine [xff] sample_peer))
                (udp_server None))
     = udp_server (Some sample_peer).
Proof.
  split; [reflexivity|].
  exact (proj1 (@udp_datagram_records_sender Halves.halves Defaults.limits (udp_server None) 1%Q
                  (os_fine [xff] sample_peer) 7%nat [xff] sample_peer
                  eq_refl eq_refl eq_refl eq_refl eq_refl eq_refl eq_refl)).
Defined.

Lemma empty_read_not_detected_witness :
  client_reads (os_fine [] sample_peer) tcp_client 1 []
  /\ result (run (@Client.receive_data Halves.halves Defaults.limits 1 (os_fine [] sample_peer))
                 tcp_client)
     = Ok None.
Proof.
  assert (H : client_reads (os_fine [] sample_peer) tcp_client 1 []).
  { exists 7%nat. repeat split. }
  split; [exact H|].
  exact (proj1 (proj1 (@empty_read_not_detected Halves.halves Defaults.limits) tcp_client
                  (os_fine [] sample_peer) 1%Q H)).
Defined.

Lemma read_failure_logging_witness :
  os_recv os_times_out 7%nat 4096 = Raise SocketTimeout
  /\ run (@Client.receive_data Halves.halves Defaults.limits 1 os_times_out) tcp_client
     = (Ok None, tcp_client,
        [SockSettimeout 7%nat 1; SockRecv 7%nat 4096; Log LvDebug]).
Proof.
  split; [reflexivity|].
  exact (proj1 (@read_failure_logging Halves.halves Defaults.limits) tcp_client os_times_out
           1%Q 7%nat SocketTimeout eq_refl eq_refl eq_refl eq_refl eq_refl eq_refl).
Defined.

Lemma negative_timeout_no_read_witness :
  Qle_bool 0 (-1 # 2) = false
  /\ run (@Client.receive_data Halves.halves Defaults.limits (-1 # 2) (os_fine [x7b] sample_peer))
         tcp_client
     = (Ok None, tcp_client, [Log LvError]).
Proof.
  split; [reflexivity|].
  exact (proj1 (@negative_timeout_no_read Halves.halves Defaults.limits (-1 # 2)%Q eq_refl) tcp_client
           (os_fine [x7b] sample_peer) 7%nat eq_refl eq_refl).
Defined.

Lemma receive_leaves_line_unchanged_witness :
  Line.open_port open_line = Some {| Serial.is_open := true; Serial.timeout := 1 |}
  /\ state (run (@Line.receive_data Halves.halves Defaults.limits 5 (dev_fine [x7b; x0a])) open_line)
     = open_line.
Proof.
  split; [reflexivity|].
  exact (proj1 (@receive_leaves_line_unchanged Halves.halves Defaults.limits open_line
                  (dev_fine [x7b; x0a]) 5%Q _ eq_refl eq_refl eq_refl
                  (fun _ => eq_refl))
           [x7b; x0a] eq_refl).
Defined.

Lemma raw_bytes_written_witness :
  Line.open_port open_line <> None
  /\ sent (trace (run (Line.send_raw_bytes [x01; x02] (dev_fine [])) open_line))
     = [[x01; x02]].
Proof.
  split; [discriminate|].
  exact (proj1 (raw_bytes_written open_line (dev_fine []) _ [x01; x02] eq_refl)).
Defined.

Lemma malformed_input_dropped_witness :
  utf8_decode [xff] = None
  /\ result (run (@Client.receive_data Halves.halves Defaults.limits 1 (os_fine [xff] sample_peer))
                 tcp_client)
     = Ok None.
Proof.
  split; [reflexivity|].
  assert (Hne : [xff] <> []) by discriminate.
  assert (H : client_reads (os_fine [xff] sample_peer) tcp_client 1 [xff]).
  { exists 7%nat. repeat split. }
  exact (proj1 (proj1 (@malformed_input_dropped Halves.halves Defaults.limits [xff] Hne) tcp_client
                  (os_fine [xff] sample_peer) 1%Q H I)).
Defined.

Lemma blank_message_is_an_error_witness :
  forallb is_ws [10%N] = true
  /\ result (run (@Line.receive_data Halves.halves Defaults.limits 1 (dev_fine [x0a])) open_line)
     = Ok None.
Proof.
  split; [reflexivity|].
  assert (Hne : [10%N] <> []) by discriminate.
  assert (H : line_reads (dev_fine [x0a]) open_line 1 (map byte_of [10%N])).
  { eexists. repeat split. }
  exact (proj1 (proj2 (proj2 (@blank_message_is_an_error Halves.halves Defaults.limits [10%N] Hne
                                eq_refl))
                  open_line (dev_fine [x0a]) 1%Q H)).
Defined.

Lemma send_command_outcome_witness :
  (fits encoder_depth (VDict sample_command) = true
   /\ sent (trace (run (Client.send_command sample_command (os_fine [] sample_peer))
                       tcp_client))
      = [map byte_of (dumps (VDict sample_command))])
  /\ (fits encoder_depth (VDict deep_command) = false
      /\ run (Client.send_command deep_command (os_fine [] sample_peer)) tcp_client
         = (Ok false, tcp_client, [Log LvError])).
Proof.
  split; (split; [vm_compute; reflexivity|]).
  - exact (proj1 (proj1 (proj1 (@send_command_outcome Halves.halves halves_spec
                                  Defaults.limits sample_command) eq_refl)
                    tcp_client (os_fine [] sample_peer) 7%nat eq_refl eq_refl)).
  - assert (F : fits encoder_depth (VDict deep_command) = false)
      by (vm_compute; reflexivity).
    exact (proj1 (proj2 (@send_command_outcome Halves.halves halves_spec
                           Defaults.limits deep_command) F)
             tcp_client (os_fine [] sample_peer) 7%nat eq_refl eq_refl).
Defined.


Lemma coalesced_messages_dropped_witness :
  representable (VDict sample_command) = true
  /\ result (run (Client.receive_data 1
                    (os_fine (map byte_of (dumps (VDict sample_command)
                                           ++ dumps (VDict sample_command))%list)
                             sample_peer))
                 tcp_client)
     = Ok None.
Proof.
  split; [reflexivity|].
  apply (proj1 (@coalesced_messages_dropped Halves.halves halves_spec Defaults.limits
                  sample_command sample_command eq_refl eq_refl)).
  exists 7%nat. repeat split.
Defined.

Lemma lines_read_one_by_one_witness :
  representable (VDict sample_command) = true
  /\ Serial.readline_of
       (map byte_of (dumps (VDict sample_command) ++ [10%N])%list
        ++ map byte_of (dumps (VDict sample_command) ++ [10%N])%list)%list
     = map byte_of (dumps (VDict sample_command) ++ [10%N])%list
  /\ result (run (Line.receive_data 1
                    (dev_fine
                       (Serial.readline_of
                          (map byte_of (dumps (VDict sample_command) ++ [10%N])%list
                           ++ map byte_of
                                (dumps (VDict sample_command) ++ [10%N])%list)%list)))
                 open_line)
     = Ok (Some (VDict sample_command)).
Proof.
  pose proof (@lines_read_one_by_one Halves.halves halves_spec Defaults.limits
                sample_command
                (map byte_of (dumps (VDict sample_command) ++ [10%N])%list)
                eq_refl) as H.
  cbv zeta in H. split; [reflexivity|]. split; [exact (proj1 H)|].
  apply (proj2 H eq_refl). eexists. repeat split.
Defined.

Lemma udp_client_ignores_sender_witness :
  Client.protocol (Client.set_is_connected true (Client.set_socket (Some 7%nat) udp_client))
  = "UDP"
  /\ run (@Client.receive_data Halves.halves Defaults.limits 1 (os_fine [x7b; x7d] sample_peer))
         (Client.set_is_connected true (Client.set_socket (Some 7%nat) udp_client))
     = run (Client.receive_data 1 (os_fine [x7b; x7d] ("192.0.2.66", 4444%Z)))
           (Client.set_is_connected true (Client.set_socket (Some 7%nat) udp_client)).
Proof.
  split; [reflexivity|].
  exact (@udp_client_ignores_sender Halves.halves Defaults.limits
           (Client.set_is_connected true (Client.set_socket (Some 7%nat) udp_client))
           (os_fine [x7b; x7d] sample_peer)
           (os_fine [x7b; x7d] ("192.0.2.66", 4444%Z))
           1%Q 7%nat [x7b; x7d] sample_peer ("192.0.2.66", 4444%Z)
           eq_refl eq_refl eq_refl eq_refl eq_refl eq_refl).
Defined.

Lemma truncated_message_dropped_witness :
  dumps (VDict sample_command)
  = (firstn 10 (dumps (VDict sample_command))
     ++ skipn 10 (dumps (VDict sample_command)))%list
  /\ result (run (Client.receive_data 1
                    (os_fine (map byte_of (firstn 10 (dumps (VDict sample_command))))
                             sample_peer))
                 tcp_client)
     = Ok None.
Proof.
  split; [reflexivity|].
  assert (Hp : firstn 10 (dumps (VDict sample_command)) <> []) by discriminate.
  assert (Hq : skipn 10 (dumps (VDict sample_command)) <> []) by discriminate.
  apply (proj1 (@truncated_message_dropped Halves.halves halves_spec Defaults.limits sample_command
                  (firstn 10 (dumps (VDict sample_command)))
                  (skipn 10 (dumps (VDict sample_command)))
                  eq_refl eq_refl Hp Hq)).
  exists 7%nat. repeat split.
Defined.

End BehaviourFacts.

(** ** The examples *)

Module ExampleFacts.
Import Py Json JsonSpec Effects Scenarios Answers Examples Tactics.
Local Open Scope string_scope.
Unset Implicit Arguments.

#[local] Arguments encode : simpl never.
#[local] Arguments decode : simpl never.
#[local] Arguments json_loads : simpl never.
#[local] Arguments json_dumps : simpl never.
#[local] Arguments dumps : simpl never.
#[local] Arguments Qle_bool : simpl never.



(** Unfolds the script of an example. *)
Ltac script :=
  unfold with_object, try_finally, next, method, print, time_time, time_sleep, this, done.


Section Runs.
Context {PF : PyFloat} {PL : PyLimits}.























End Runs.

End ExampleFacts.

(** ** Invariants of the reachable states *)

Module LifecycleFacts.
Import Py Json JsonSpec Effects Scenarios Answers Lifecycle Tactics.
Local Open Scope string_scope.
Unset Implicit Arguments.

#[local] Existing Instance Client.interface.
#[local] Existing Instance Server.interface.
#[local] Existing Instance Line.interface.

#[local] Arguments encode : simpl never.
#[local] Arguments decode : simpl never.
#[local] Arguments json_loads : simpl never.
#[local] Arguments json_dumps : simpl never.
#[local] Arguments dumps : simpl never.
#[local] Arguments Qle_bool : simpl never.

Ltac settle :=
  auto; try discriminate; try congruence;
  try (exfalso;
       match goal with
       | H : (if ?b then _ else _) = _ |- _ => destruct b; discriminate
       end).

Ltac hold :=
  cbn in *; split;
  [ intros E; subst; cbn in *; first [ reflexivity | discriminate | auto ]
  | intros C; first [ now elim C | split; first [ discriminate | tauto ] ] ].

Section Facts.
Context {PF : PyFloat} {PL : PyLimits}.

(** X25. In every state an object can reach, the protocol of a socket
    binding is TCP or UDP, and a connected object holds its handle: a
    connected client has a socket, a connected server a bound socket, a
    connected serial transport an open port.  (A connected TCP server may
    have lost its accepted connection, after a [disconnect] that failed on
    the second close.) *)
Theorem connected_means_handle :
  (forall s, client_reachable s ->
             known_protocol (Client.protocol s) = true
             /\ (Client.is_connected s = true -> Client.socket s <> None))
  /\ (forall s, server_reachable s ->
                known_protocol (Server.protocol s) = true
                /\ (Server.is_connected s = true -> Server.server_socket s <> None))
  /\ (forall s, line_reachable s ->
                Line.is_connected s = true -> Line.open_port s <> None).
Proof.
  split; [|split].
  - induction 1 as [h p pr b s E|s os _ [IP IH]|s os _ [IP IH]|s c os _ [IP IH]
                    |s t os _ [IP IH]|s _ [IP IH]].
    + unfold Client.__init__ in E. cbn in E.
      destruct (known_protocol (upper pr)) eqn:K; [|discriminate].
      injection E as <-. split; [exact K|discriminate].
    + revert IP IH. open_state; step; intros IP IH; paths; split; settle.
    + revert IP IH. open_state; step; intros IP IH; paths; split; settle.
    + revert IP IH. open_state; step; intros IP IH; paths; split; settle.
    + revert IP IH. open_state; step; intros IP IH; paths; split; settle.
    + revert IP IH. open_state; step; intros IP IH; paths; split; settle.
  - induction 1 as [h p pr b s E|s os _ [IP IH]|s os _ [IP IH]|s c os _ [IP IH]
                    |s t os _ [IP IH]|s _ [IP IH]].
    + unfold Server.__init__ in E. cbn in E.
      destruct (known_protocol (upper pr)) eqn:K; [|discriminate].
      injection E as <-. split; [exact K|discriminate].
    + revert IP IH. open_state; step; intros IP IH; paths; split; settle.
    + revert IP IH. open_state; step; intros IP IH; paths; split; settle.
    + revert IP IH. open_state; step; intros IP IH; paths; split; settle.
    + revert IP IH. open_state; step; intros IP IH; paths; split; settle.
    + revert IP IH. open_state; step; intros IP IH; paths; split; settle.
  - induction 1 as [p b t bs pa sb s E|s api _ IH|s api _ IH|s c api _ IH
                    |s t api _ IH|s d api _ IH|s n t api _ IH|s api _ IH|s _ IH].
    + unfold Line.__init__ in E. injection E as <-. discriminate.
    + revert IH. open_state; step; intros IH; paths; settle.
    + revert IH. open_state; step; intros IH; paths; settle.
    + revert IH. open_state; step; intros IH; paths; settle.
    + revert IH. open_state; step; intros IH; paths; settle.
    + revert IH. open_state; step; intros IH; paths; settle.
    + revert IH. open_state; step; intros IH; paths; settle.
    + revert IH. open_state; step; intros IH; paths; settle.
    + revert IH. open_state; step; intros IH; paths; settle.
Qed.

(** X26. What a server can hold.  In every state a server can reach, a UDP
    server has no accepted connection, and a server that has one also has
    its listening socket and the address of the peer. *)
Theorem server_holds :
  forall s, server_reachable s ->
    (Server.protocol s = "UDP" -> Server.client_socket s = None)
    /\ (Server.client_socket s <> None ->
        Server.server_socket s <> None /\ Server.client_address s <> None).
Proof.
  induction 1 as [h p pr b s E|s os _ [IU IH]|s os _ [IU IH]|s c os _ [IU IH]
                  |s t os _ [IU IH]|s _ [IU IH]].
  - unfold Server.__init__ in E. cbn in E.
    destruct (known_protocol (upper pr)); [|discriminate].
    injection E as <-. cbn. split; [reflexivity|]. intros C. now elim C.
  - revert IU IH. open_state; step; intros IU IH; paths; hold.
  - revert IU IH. open_state; step; intros IU IH; paths; hold.
  - revert IU IH. open_state; step; intros IU IH; paths; hold.
  - revert IU IH. open_state; step; intros IU IH; paths; hold.
  - revert IU IH. open_state; step; intros IU IH; paths; hold.
Qed.

End Facts.

(** The invariants at the states a successful [connect] leads to. *)
Section Witnesses.
#[local] Existing Instance Halves.halves.
#[local] Existing Instance Defaults.limits.

Lemma connected_means_handle_witness :
  client_reachable (state (run (Client.connect (os_fine [] sample_peer)) idle_client))
  /\ Client.socket (state (run (Client.connect (os_fine [] sample_peer)) idle_client))
     <> None.
Proof.
  assert (R : client_reachable
                (state (run (Client.connect (os_fine [] sample_peer)) idle_client))).
  { apply client_connect.
    apply (client_made "127.0.0.1" 8888%Z "TCP" 4096%Z). reflexivity. }
  split; [exact R|].
  exact (proj2 (proj1 connected_means_handle _ R) eq_refl).
Defined.

Lemma server_holds_witness :
  server_reachable (state (run (Server.connect (os_fine [] sample_peer)) idle_server))
  /\ Server.client_address
       (state (run (Server.connect (os_fine [] sample_peer)) idle_server)) <> None.
Proof.
  assert (R : server_reachable
                (state (run (Server.connect (os_fine [] sample_peer)) idle_server))).
  { apply server_connect.
    apply (server_made "0.0.0.0" 8888%Z "TCP" 4096%Z). reflexivity. }
  split; [exact R|].
  apply (proj2 (server_holds _ R)). discriminate.
Defined.

End Witnesses.

End LifecycleFacts.
